(** * QC metrics on .sim files: sample magnitude and xydiff (QC.cpp)

    A shallow embedding of the class [QC] of simtools.  The arithmetic of
    the C++ type [float] is kept behind the interface [FloatOps], which has
    two instances:
    - [Binary32.ops]: IEEE 754 binary32 with round-to-nearest-even, built on
      the Standard Library's [SpecFloat] (precision 24, emax 128).  This is
      the arithmetic the compiled code executes.
    - [Exact.ops]: the real numbers, the arithmetic in which the algebraic
      statements about the metrics are exact.

    The record source (class [Sim] of Sim.h and Sim.cpp) is not part of
    QC.cpp: its handle and its operations [reset] and [getNextRecord] are
    modelled from the specification of its interface, and the constant
    Sim::SAMPLE_NAME_SIZE is a parameter. *)

From Stdlib Require Import ZArith List String Bool Lia Reals Lra.
From Stdlib Require Import Floats.SpecFloat.
From stdpp Require Import base list.
Import ListNotations.

Local Open Scope Z_scope.

(** ** Arithmetic of [float] *)

Class FloatOps (F : Type) := {
  fzero : F;                (* the literal 0.0, and a calloc'ed cell *)
  fadd : F -> F -> F;
  fsub : F -> F -> F;
  fmul : F -> F -> F;
  fdiv : F -> F -> F;
  fsqrt : F -> F;
  of_Z : Z -> F             (* conversion of an integer value to float *)
}.

Module Binary32.
Definition prec : Z := 24.
Definition emax : Z := 128.

(** [spec_float] has one NaN: [S754_nan] stands for every NaN of binary32,
    whatever its sign bit and its payload, which the program carries to the
    text it writes ("nan" or "-nan").  That a value is [S754_nan] says that
    it is a NaN and no more; where two runs are compared value by value,
    the statement is made for runs in which the signs of the NaNs cannot
    differ: no NaN among the values read, or the same operations on the
    same operands in both runs. *)
Definition float := spec_float.

Definition add : float -> float -> float := SFadd prec emax.
Definition sub : float -> float -> float := SFsub prec emax.
Definition mul : float -> float -> float := SFmul prec emax.
Definition div : float -> float -> float := SFdiv prec emax.
Definition sqrt : float -> float := SFsqrt prec emax.
Definition of_int (z : Z) : float := binary_normalize prec emax z 0 false.

#[export] Instance ops : FloatOps float :=
  {| fzero := S754_zero false; fadd := add; fsub := sub; fmul := mul;
     fdiv := div; fsqrt := sqrt; of_Z := of_int |}.

(** The float nearest to [m * 2^e]; exact for the small [m] used below. *)
Definition dyadic (m e : Z) : float := binary_normalize prec emax m e false.

(** Neither NaN nor an infinity. *)
Definition is_finite (x : float) : bool :=
  match x with
  | S754_zero _ | S754_finite _ _ _ => true
  | S754_infinity _ | S754_nan => false
  end.

Definition is_zero (x : float) : bool :=
  match x with S754_zero _ => true | _ => false end.

Definition is_nan (x : float) : bool :=
  match x with S754_nan => true | _ => false end.

(** No value of any record is a NaN. *)
Definition no_nan (recs : list (string * list float)) : Prop :=
  Forall (fun r : string * list float => Forall (fun x => is_nan x = false) r.2) recs.

(** The integer a float denotes, when it denotes one. *)
Definition to_Z (x : float) : option Z :=
  match x with
  | S754_zero _ => Some 0
  | S754_finite s m e =>
      let v := if s then Z.neg m else Z.pos m in
      if 0 <=? e then Some (v * 2 ^ e)
      else if Z.pos m mod 2 ^ (- e) =? 0 then Some (v / 2 ^ (- e)) else None
  | S754_infinity _ | S754_nan => None
  end.

(** [- x]: the sign bit flipped. *)
Definition opp : float -> float := SFopp.

(** [x] times 2^[d] for [d >= 0], the scaleB operation of IEEE 754: the
    exponent moves, the mantissa stays, and a result beyond the largest
    float is an infinity. *)
Definition scalb (d : Z) (x : float) : float :=
  match x with
  | S754_finite s m e =>
      if e + d <=? 104 then S754_finite s m (e + d) else S754_infinity s
  | _ => x
  end.

(** +0, +infinity, or a positive normal number that is at least 1: a
    mantissa of 24 digits with an exponent of at least -23.  The
    intensities of a fixed-point file are of this kind, and so are their
    squares, sums and square roots. *)
Definition regular (x : float) : Prop :=
  match x with
  | S754_zero false | S754_infinity false => True
  | S754_finite false m e => Z.pos (digits2_pos m) = 24 /\ -23 <= e
  | _ => False
  end.

(** Every value of every record multiplied by 2^[d]. *)
Definition scalb_view (d : Z) (recs : list (string * list float)) :
    list (string * list float) :=
  map (fun r => (r.1, map (scalb d) r.2)) recs.
End Binary32.

Module Exact.
#[export] Instance ops : FloatOps R :=
  {| fzero := 0%R; fadd := Rplus; fsub := Rminus; fmul := Rmult;
     fdiv := Rdiv; fsqrt := R_sqrt.sqrt; of_Z := IZR |}.
End Exact.

(** ** Machine integers of the index computations *)

(** Conversion to a 32-bit [int] (two's complement wrap-around). *)
Definition to_int (z : Z) : Z :=
  let u := z mod 2 ^ 32 in if u <? 2 ^ 31 then u else u - 2 ^ 32.

(** Channel 1 minus channel 0 at probe [i] of a two-channel record of
    integers, as an integer. *)
Definition signed_diff (vals : list Z) (i : nat) : Z :=
  default 0 (vals !! (2 * i + 1)%nat) - default 0 (vals !! (2 * i)%nat).

Definition Zsum (l : list Z) : Z := fold_left Z.add l 0.

(** ** Outcomes of a run *)

Inductive Exn :=
| EndOfData        (* the source has no further record *)
| WrongFormat      (* a record requested in the encoding the file does not have *)
| OutOfRange.      (* std::out_of_range raised by vector::at *)

Inductive Result (A : Type) :=
| Ok (a : A)
| Throw (e : Exn)                    (* an exception nobody catches *)
| Exit (code : Z) (msg : string)     (* message on cerr, then exit(code) *)
| Undefined.                         (* a read or write past the end of a buffer *)
Arguments Ok {A} a.
Arguments Throw {A} e.
Arguments Exit {A} code msg.
Arguments Undefined {A}.

(** Operations on the record source, in the order they happen. *)
Inductive Event :=
| EvReset
| EvRead (k : nat).   (* the record at position [k] was delivered *)

Section QC.
Context {F : Type} {FO : FloatOps F}.

(** Sim::SAMPLE_NAME_SIZE, a constant of Sim.h. *)
Variable SAMPLE_NAME_SIZE : nat.

(** *** The record source *)

(** Modelled from the spec: the records of a file (the layout is the
    business of Sim.cpp, which is absent).  "An intensity record: a sample
    name plus an ordered sequence of P*C numeric values in encoding-tagged
    form", the records in file order, in the one encoding of the file:
    32-bit floats (number format 0) or 16-bit unsigned integers. *)
Inductive SimData :=
| FloatData (rs : list (string * list F))
| IntData (rs : list (string * list Z)).

(** Modelled from the spec: the handle of the record source (class Sim of
    Sim.h, which is absent), with the header fields QC.cpp reads, "probe
    count, channel count, encoding tag, sample count, max sample-name
    length", and the read cursor. *)
Record Sim := mkSim {
  numProbes : nat;
  numChannels : nat;
  numSamples : nat;
  sampleNameSize : nat;
  simData : SimData;
  position : nat          (* index of the next record to deliver *)
}.

(** The encoding tag of the header; QC.cpp tests it against 0. *)
Definition numberFormat (s : Sim) : Z :=
  match simData s with FloatData _ => 0 | IntData _ => 1 end.

(** *** State of a QC object and of its surroundings *)

Record QCState := mkQC {
  qcsim : Sim;
  intensity_int : list Z;
  intensity_float : list F;
  events : list Event;                     (* oldest first *)
  outFile : option (list (string * F))     (* [None]: the file was never opened *)
}.

Definition M (A : Type) : Type := QCState -> Result A * QCState.

Definition ret {A} (a : A) : M A := fun st => (Ok a, st).

(** A run that did not return, seen from the code that called it. *)
Definition propagate {A B} (r : Result A) : Result B :=
  match r with
  | Ok _ | Undefined => Undefined
  | Throw e => Throw e
  | Exit code msg => Exit code msg
  end.

Definition bind {A B} (c : M A) (k : A -> M B) : M B :=
  fun st =>
    match c st with
    | (Ok a, st') => k a st'
    | (r, st') => (propagate r, st')
    end.

Definition throw {A} (e : Exn) : M A := fun st => (Throw e, st).
Definition exit {A} (code : Z) (msg : string) : M A := fun st => (Exit code msg, st).
Definition undefined {A} : M A := fun st => (Undefined, st).
Definition gets {A} (f : QCState -> A) : M A := fun st => (Ok (f st), st).
Definition modify (f : QCState -> QCState) : M unit := fun st => (Ok tt, f st).

Notation "'let*' x ':=' c 'in' k" := (bind c (fun x => k))
  (at level 10, x pattern, c at level 100, k at level 200).
Notation "c ;; k" := (bind c (fun _ => k))
  (at level 100, right associativity).

(** [for (unsigned int i = lo; i < lo + count; i++) acc = body(i, acc);] *)
Fixpoint forM {A} (count lo : nat) (body : nat -> A -> M A) (acc : A) : M A :=
  match count with
  | O => ret acc
  | S count' => let* acc' := body lo acc in forM count' (S lo) body acc'
  end.

(** The same loop with a body that has no effect on the state. *)
Fixpoint for_ {A} (count lo : nat) (body : nat -> A -> A) (acc : A) : A :=
  match count with
  | O => acc
  | S count' => for_ count' (S lo) body (body lo acc)
  end.

(** [a[i]] for an index inside the array. *)
Definition aget (a : list F) (i : nat) : F := default fzero (a !! i).

(** [calloc(n, sizeof(float))]: all bits zero, which reads as +0.0. *)
Definition calloc (n : nat) : list F := replicate n fzero.

(** [v->at(index)] with [index] an [int]: converted to [size_t], so a
    negative index is out of range like any index past the end. *)
Definition vector_at {V} (v : list V) (index : Z) : M V :=
  if index <? 0 then throw OutOfRange
  else match v !! Z.to_nat index with
       | Some x => ret x
       | None => throw OutOfRange
       end.

Definition set_position (p : nat) (s : Sim) : Sim :=
  mkSim (numProbes s) (numChannels s) (numSamples s) (sampleNameSize s) (simData s) p.

(** Modelled from the spec: the effect of Sim::reset (Sim.cpp is absent):
    "repositions the read cursor to the first record; must be callable at
    any time, including before any read". *)
Definition reset_state (st : QCState) : QCState :=
  mkQC (set_position 0 (qcsim st)) (intensity_int st) (intensity_float st)
       (events st ++ [EvReset]) (outFile st).

(** Modelled from the spec: Sim::reset. *)
Definition reset : M unit := modify reset_state.

(** Modelled from the spec: Sim::getNextRecord (Sim.cpp is absent), on
    the records [rs] of the file: "next_record(handle) -> (sample_name,
    intensity_values) | EndOfData": it "returns the next record in
    insertion order; fails with EndOfData once all declared samples have
    been read".  The interface gives no other failure: the check of the
    name that section 4.1 of the specification asks for is the record
    adapter's, which is QC::getNextMagnitudes.  The name of a record is the
    content of its name field up to the first NUL, so it has at most
    [sampleNameSize] characters ([name_fits] below), and fewer when the
    field holds its terminator ([name_terminated]). *)
Definition next_record {V} (rs : list (string * list V)) : M (string * list V) :=
  fun st =>
    let s := qcsim st in
    if decide (position s < numSamples s)%nat then
      match rs !! position s with
      | Some (name, vals) =>
          (Ok (name, vals),
           mkQC (set_position (S (position s)) s) (intensity_int st)
                (intensity_float st) (events st ++ [EvRead (position s)]) (outFile st))
      | None => (Throw EndOfData, st)
      end
    else (Throw EndOfData, st).

(** Modelled from the spec: the overload of Sim::getNextRecord that fills
    a [vector<float>]; QC.cpp calls it on files of number format 0 only. *)
Definition getNextRecord_float : M (string * list F) :=
  let* s := gets qcsim in
  match simData s with
  | FloatData rs => next_record rs
  | IntData _ => throw WrongFormat
  end.

(** Modelled from the spec: the overload of Sim::getNextRecord that fills
    a [vector<uint16_t>]; QC.cpp calls it on files of the other number
    format only. *)
Definition getNextRecord_int : M (string * list Z) :=
  let* s := gets qcsim in
  match simData s with
  | IntData rs => next_record rs
  | FloatData _ => throw WrongFormat
  end.

(** *** QC.cpp *)

Definition set_intensity_float (v : list F) : M unit :=
  modify (fun st => mkQC (qcsim st) (intensity_int st) v (events st) (outFile st)).

Definition set_intensity_int (v : list Z) : M unit :=
  modify (fun st => mkQC (qcsim st) v (intensity_float st) (events st) (outFile st)).

(** [strcpy(sampleNames[i], sampleName)], lines 177 and 209: out of the
    buffer [sampleName = new char[sampleNameSize]] of lines 175 and 200,
    which getNextRecord has filled with the name, into a row of
    [SAMPLE_NAME_SIZE + 1] bytes.  [strcpy] reads up to the terminator and
    writes what it has read: the buffer holds the terminator of a name of
    fewer than [bufferSize] characters only, and the row holds a name of at
    most [SAMPLE_NAME_SIZE] characters and its terminator.  Any other copy
    reads past the end of the buffer or writes past the end of the row. *)
Definition strcpy_row (bufferSize : nat) (sampleNames : list string) (i : nat)
    (sampleName : string) : M (list string) :=
  if decide ((String.length sampleName < bufferSize)%nat /\
             (String.length sampleName <= SAMPLE_NAME_SIZE)%nat)
  then ret (<[i := sampleName]> sampleNames)
  else undefined.

(** QC::getNextMagnitudes, lines 112-135. *)
Definition getNextMagnitudes (magnitudes : list F) : M (list F * string) :=
  set_intensity_float [] ;;
  set_intensity_int [] ;;
  let* sim := gets qcsim in
  let* sampleName :=
    (if numberFormat sim =? 0
     then let* (name, v) := getNextRecord_float in set_intensity_float v ;; ret name
     else let* (name, v) := getNextRecord_int in set_intensity_int v ;; ret name) in
  let* magnitudes :=
    forM (numProbes sim) 0 (fun i magnitudes =>
      let* total :=
        forM (numChannels sim) 0 (fun j total =>
          let index := to_int (Z.of_nat i * Z.of_nat (numChannels sim) + Z.of_nat j) in
          let* signal :=
            (if numberFormat sim =? 0
             then let* v := gets intensity_float in vector_at v index
             else let* v := gets intensity_int in
                  let* x := vector_at v index in ret (of_Z x)) in
          ret (fadd total (fmul signal signal))) fzero in
      ret (<[i := fsqrt total]> magnitudes)) magnitudes in
  ret (magnitudes, sampleName).

(** QC::magnitudeByProbe, lines 137-163 (the progress messages of the
    verbose mode are left out). *)
Definition magnitudeByProbe (magByProbe : list F) : M (list F) :=
  let* sim := gets qcsim in
  let magnitudes := calloc (numProbes sim) in
  let* (magByProbe, _) :=
    forM (numSamples sim) 0 (fun i '(magByProbe, magnitudes) =>
      let* (magnitudes, _) := getNextMagnitudes magnitudes in
      let magByProbe :=
        for_ (numProbes sim) 0 (fun j magByProbe =>
          <[j := fadd (aget magByProbe j) (aget magnitudes j)]> magByProbe) magByProbe in
      ret (magByProbe, magnitudes)) (magByProbe, magnitudes) in
  ret (for_ (numProbes sim) 0 (fun i magByProbe =>
         <[i := fdiv (aget magByProbe i) (of_Z (Z.of_nat (numSamples sim)))]> magByProbe)
         magByProbe).

(** QC::magnitudeBySample, lines 165-193. *)
Definition magnitudeBySample (magBySample magByProbe : list F) (sampleNames : list string)
  : M (list F * list string) :=
  let* sim := gets qcsim in
  let magnitudes := calloc (numProbes sim) in
  let* (magBySample, sampleNames, _) :=
    forM (numSamples sim) 0 (fun i '(magBySample, sampleNames, magnitudes) =>
      let* (magnitudes, sampleName) := getNextMagnitudes magnitudes in
      let* sampleNames := strcpy_row (sampleNameSize sim) sampleNames i sampleName in
      let mag :=
        for_ (numProbes sim) 0 (fun j mag =>
          fadd mag (fdiv (aget magnitudes j) (aget magByProbe j))) fzero in
      ret (<[i := fdiv mag (of_Z (Z.of_nat (numProbes sim)))]> magBySample,
           sampleNames, magnitudes)) (magBySample, sampleNames, magnitudes) in
  ret (magBySample, sampleNames).

(** QC::xydiffBySample, lines 195-225. *)
Definition xydiffBySample (xydBySample : list F) (sampleNames : list string)
  : M (list F * list string) :=
  let* sim := gets qcsim in
  forM (numSamples sim) 0 (fun i '(xydBySample, sampleNames) =>
    let* (sampleName, intensity_int, intensity_float) :=
      (if numberFormat sim =? 0
       then let* (name, v) := getNextRecord_float in ret (name, [], v)
       else let* (name, v) := getNextRecord_int in ret (name, v, [])) in
    let* sampleNames := strcpy_row (sampleNameSize sim) sampleNames i sampleName in
    let* xydTotal :=
      forM (numProbes sim) 0 (fun j xydTotal =>
        let index := to_int (Z.of_nat j * Z.of_nat (numChannels sim)) in
        let* xyd :=
          (if numberFormat sim =? 0
           then let* b := vector_at intensity_float (to_int (index + 1)) in
                let* a := vector_at intensity_float index in
                ret (fsub b a)
           else let* b := vector_at intensity_int (to_int (index + 1)) in
                let* a := vector_at intensity_int index in
                ret (of_Z (to_int (b - a)))) in
        ret (fadd xydTotal xyd)) fzero in
    ret (<[i := fdiv xydTotal (of_Z (Z.of_nat (numProbes sim)))]> xydBySample,
         sampleNames)) (xydBySample, sampleNames).

(** [fopen(outPath, "w")], then one [fprintf(outFile, "%s\t%.6f\n", name,
    value)] per sample; a line is kept as the pair it prints. *)
Definition fopen_w : M unit :=
  modify (fun st => mkQC (qcsim st) (intensity_int st) (intensity_float st)
                         (events st) (Some [])).

Definition fprintf_line (name : string) (value : F) : M unit :=
  modify (fun st => mkQC (qcsim st) (intensity_int st) (intensity_float st) (events st)
                         (option_map (fun ls => ls ++ [(name, value)]) (outFile st))).

Definition write_lines (n : nat) (sampleNames : list string) (values : list F) : M unit :=
  forM n 0 (fun i _ =>
    fprintf_line (default EmptyString (sampleNames !! i)) (aget values i)) tt.

(** QC::writeMagnitude, lines 66-87. *)
Definition writeMagnitude : M unit :=
  reset ;;
  let* sim := gets qcsim in
  let probeMagArray := calloc (numProbes sim) in
  let* probeMagArray := magnitudeByProbe probeMagArray in
  let sampleMagArray := calloc (numSamples sim) in
  let sampleNames := replicate (numSamples sim) EmptyString in
  reset ;;
  let* (sampleMagArray, sampleNames) :=
    magnitudeBySample sampleMagArray probeMagArray sampleNames in
  fopen_w ;;
  write_lines (numSamples sim) sampleNames sampleMagArray.

Definition xydiff_error : string :=
  "Error: XY intensity difference is only defined for exactly two intensity channels.".

(** QC::writeXydiff, lines 89-110. *)
Definition writeXydiff : M unit :=
  let* sim := gets qcsim in
  if negb (Nat.eqb (numChannels sim) 2) then exit 1 xydiff_error
  else
    reset ;;
    let xydArray := calloc (numSamples sim) in
    let sampleNames := replicate (numSamples sim) EmptyString in
    let* (xydArray, sampleNames) := xydiffBySample xydArray sampleNames in
    fopen_w ;;
    write_lines (numSamples sim) sampleNames xydArray.

(** *** What the metrics are, stated on the records

    The record adapter's view of a file: every record as its name and its
    P*C values in [float], a 16-bit integer being converted as
    [signal = intensity_int->at(index)] does. *)
Definition signal_view (d : SimData) : list (string * list F) :=
  match d with
  | FloatData rs => rs
  | IntData rs => map (fun r => (r.1, map of_Z r.2)) rs
  end.

Definition sum_squares (vs : list F) : F :=
  fold_left (fun total x => fadd total (fmul x x)) vs fzero.

(** Euclidean magnitude of probe [i]: the channels of probe [i] are the
    [C] values from index [i * C] on. *)
Definition probe_magnitude (C : nat) (vals : list F) (i : nat) : F :=
  fsqrt (sum_squares (take C (drop (i * C) vals))).

Definition magnitudes_of (P C : nat) (vals : list F) : list F :=
  map (probe_magnitude C vals) (seq 0 P).

Definition fsum (l : list F) : F := fold_left fadd l fzero.

(** Arithmetic mean in the arithmetic of [F]: the sum, accumulated from
    0.0 in list order, divided by the count. *)
Definition fmean (l : list F) : F := fdiv (fsum l) (of_Z (Z.of_nat (length l))).

(** Probe baseline B[i]. *)
Definition baseline (C : nat) (recs : list (string * list F)) (i : nat) : F :=
  fmean (map (fun r => probe_magnitude C r.2 i) recs).

Definition normalized_magnitude (P C : nat) (recs : list (string * list F))
    (vals : list F) : F :=
  fmean (map (fun i => fdiv (probe_magnitude C vals i) (baseline C recs i)) (seq 0 P)).

(** Channel 1 minus channel 0 at probe [i] of a two-channel record. *)
Definition channel_diff_float (vals : list F) (i : nat) : F :=
  fsub (aget vals (2 * i + 1)) (aget vals (2 * i)).

Definition channel_diff_int (vals : list Z) (i : nat) : F :=
  of_Z (signed_diff vals i).

Definition xydiff_of (P : nat) (diff : nat -> F) : F := fmean (map diff (seq 0 P)).

Definition xydiff_lines (P : nat) (d : SimData) : list (string * F) :=
  match d with
  | FloatData rs => map (fun r => (r.1, xydiff_of P (channel_diff_float r.2))) rs
  | IntData rs => map (fun r => (r.1, xydiff_of P (channel_diff_int r.2))) rs
  end.

Definition magnitude_lines (P C : nat) (d : SimData) : list (string * F) :=
  map (fun r => (r.1, normalized_magnitude P C (signal_view d) r.2)) (signal_view d).

(** Every value of every record multiplied by [k]. *)
Definition scale_view (k : F) (recs : list (string * list F)) : list (string * list F) :=
  map (fun r => (r.1, map (fmul k) r.2)) recs.

(** The two channels of every probe of a two-channel record exchanged. *)
Fixpoint swap_channels {V} (vals : list V) : list V :=
  match vals with
  | a :: b :: rest => b :: a :: swap_channels rest
  | _ => vals
  end.

Definition swap_data (d : SimData) : SimData :=
  match d with
  | FloatData rs => FloatData (map (fun r => (r.1, swap_channels r.2)) rs)
  | IntData rs => IntData (map (fun r => (r.1, swap_channels r.2)) rs)
  end.

(** *** Files

    What Sim::open and the file layout guarantee.  The layout: as many
    records as the header declares, each with P*C values, integers in the
    range of [uint16_t], and an index range that fits the [int] used for
    indexing.  The names: every name fits the name field of the file
    ([name_fits]).  [well_formed] adds that the name field fits a row of
    the name table of QC.cpp.  [runnable] asks what the copies of the names
    in QC.cpp need: every name is shorter than the name field and no
    longer than a row. *)
Definition uint16 (v : Z) : Prop := 0 <= v < 65536.

Record layout_ok (s : Sim) : Prop := {
  lo_count : length (signal_view (simData s)) = numSamples s;
  lo_sizes : Forall (fun r : string * list F =>
               length r.2 = (numProbes s * numChannels s)%nat) (signal_view (simData s));
  lo_index : Z.of_nat (numProbes s * numChannels s) < 2 ^ 31;
  lo_uint16 : match simData s with
              | IntData rs => Forall (fun r : string * list Z => Forall uint16 r.2) rs
              | FloatData _ => True
              end
}.

(** The name of record [i] is no longer than the name field of the file,
    whose length the header gives. *)
Definition name_fits (s : Sim) (i : nat) : Prop :=
  match signal_view (simData s) !! i with
  | Some r => (String.length r.1 <= sampleNameSize s)%nat
  | None => True
  end.

(** The name of record [i] fits a row of the name table of QC, which has
    [SAMPLE_NAME_SIZE + 1] bytes. *)
Definition row_fits (s : Sim) (i : nat) : Prop :=
  match signal_view (simData s) !! i with
  | Some r => (String.length r.1 <= SAMPLE_NAME_SIZE)%nat
  | None => True
  end.

Record well_formed (s : Sim) : Prop := {
  wf_layout : layout_ok s;
  wf_names : forall i, name_fits s i;
  wf_name_size : (sampleNameSize s <= SAMPLE_NAME_SIZE)%nat
}.

(** The name of record [i] is shorter than the name field: the field, and
    the buffer of [sampleNameSize] bytes it is read into, hold the
    terminator of the name. *)
Definition name_terminated (s : Sim) (i : nat) : Prop :=
  match signal_view (simData s) !! i with
  | Some r => (String.length r.1 < sampleNameSize s)%nat
  | None => True
  end.

(** The files on which every copy of a name made by QC.cpp is defined:
    the layout is right, every name is terminated inside its field, and
    every name fits a row of the name table.  The name field itself may be
    longer than a row. *)
(** The copy of the name of record [i] is defined. *)
Definition copy_defined (s : Sim) (i : nat) : Prop :=
  name_terminated s i /\ row_fits s i.

Record runnable (s : Sim) : Prop := {
  rn_layout : layout_ok s;
  rn_terminated : forall i, name_terminated s i;
  rn_rows : forall i, row_fits s i
}.

(** *** Names for the proofs *)

(** One turn of the loop over the samples in [magnitudeByProbe]. *)
Definition pass1_body (sim : Sim) (i : nat) (acc : list F * list F)
  : M (list F * list F) :=
  let '(magByProbe, magnitudes) := acc in
  let* (magnitudes, _) := getNextMagnitudes magnitudes in
  let magByProbe :=
    for_ (numProbes sim) 0 (fun j magByProbe =>
      <[j := fadd (aget magByProbe j) (aget magnitudes j)]> magByProbe) magByProbe in
  ret (magByProbe, magnitudes).

(** One turn of the loop over the samples in [magnitudeBySample]. *)
Definition pass2_body (sim : Sim) (magByProbe : list F) (i : nat)
    (acc : list F * list string * list F) : M (list F * list string * list F) :=
  let '(magBySample, sampleNames, magnitudes) := acc in
  let* (magnitudes, sampleName) := getNextMagnitudes magnitudes in
  let* sampleNames := strcpy_row (sampleNameSize sim) sampleNames i sampleName in
  let mag :=
    for_ (numProbes sim) 0 (fun j mag =>
      fadd mag (fdiv (aget magnitudes j) (aget magByProbe j))) fzero in
  ret (<[i := fdiv mag (of_Z (Z.of_nat (numProbes sim)))]> magBySample,
       sampleNames, magnitudes).

(** One turn of the loop over the samples in [xydiffBySample]. *)
Definition xydiff_body (sim : Sim) (i : nat) (acc : list F * list string)
  : M (list F * list string) :=
  let '(xydBySample, sampleNames) := acc in
  let* (sampleName, intensity_int, intensity_float) :=
    (if numberFormat sim =? 0
     then let* (name, v) := getNextRecord_float in ret (name, [], v)
     else let* (name, v) := getNextRecord_int in ret (name, v, [])) in
  let* sampleNames := strcpy_row (sampleNameSize sim) sampleNames i sampleName in
  let* xydTotal :=
    forM (numProbes sim) 0 (fun j xydTotal =>
      let index := to_int (Z.of_nat j * Z.of_nat (numChannels sim)) in
      let* xyd :=
        (if numberFormat sim =? 0
         then let* b := vector_at intensity_float (to_int (index + 1)) in
              let* a := vector_at intensity_float index in
              ret (fsub b a)
         else let* b := vector_at intensity_int (to_int (index + 1)) in
              let* a := vector_at intensity_int index in
              ret (of_Z (to_int (b - a)))) in
      ret (fadd xydTotal xyd)) fzero in
  ret (<[i := fdiv xydTotal (of_Z (Z.of_nat (numProbes sim)))]> xydBySample,
       sampleNames).

(** The two halves of [getNextMagnitudes]: the read into the member
    vectors, and the loops over the probes and their channels. *)
Definition read_into_vectors (sim : Sim) : M string :=
  set_intensity_float [] ;;
  set_intensity_int [] ;;
  (if numberFormat sim =? 0
   then let* (name, v) := getNextRecord_float in set_intensity_float v ;; ret name
   else let* (name, v) := getNextRecord_int in set_intensity_int v ;; ret name).

Definition magnitude_loops (sim : Sim) (magnitudes : list F) : M (list F) :=
  forM (numProbes sim) 0 (fun i magnitudes =>
    let* total :=
      forM (numChannels sim) 0 (fun j total =>
        let index := to_int (Z.of_nat i * Z.of_nat (numChannels sim) + Z.of_nat j) in
        let* signal :=
          (if numberFormat sim =? 0
           then let* v := gets intensity_float in vector_at v index
           else let* v := gets intensity_int in
                let* x := vector_at v index in ret (of_Z x)) in
        ret (fadd total (fmul signal signal))) fzero in
    ret (<[i := fsqrt total]> magnitudes)) magnitudes.

(** The member vectors as [getNextMagnitudes] clears them. *)
Definition cleared (st : QCState) : QCState :=
  mkQC (qcsim st) [] [] (events st) (outFile st).

(** The state [getNextMagnitudes] leaves behind: the cursor has moved on by
    one record, whose values sit in the member vector of their encoding. *)
Definition after_read (st : QCState) : QCState :=
  let s := qcsim st in
  let p := position s in
  mkQC (set_position (S p) s)
       (match simData s with
        | IntData rs => default [] (snd <$> rs !! p)
        | FloatData _ => []
        end)
       (match simData s with
        | FloatData rs => default [] (snd <$> rs !! p)
        | IntData _ => []
        end)
       (events st ++ [EvRead p]) (outFile st).

(** The state [getNextRecord] leaves behind when the values go to a vector
    of the caller: only the cursor moves. *)
Definition after_fetch (st : QCState) : QCState :=
  let s := qcsim st in
  mkQC (set_position (S (position s)) s) (intensity_int st) (intensity_float st)
       (events st ++ [EvRead (position s)]) (outFile st).

Definition after_fetches (k : nat) (st : QCState) : QCState := Nat.iter k after_fetch st.

(** The state after [k] records have been read in a row. *)
Definition after_reads (k : nat) (st : QCState) : QCState := Nat.iter k after_read st.

(** The state in which the output file holds exactly [lines]. *)
Definition with_output (lines : list (string * F)) (st : QCState) : QCState :=
  mkQC (qcsim st) (intensity_int st) (intensity_float st) (events st) (Some lines).

(** A QC object as the constructor leaves it, on a handle [s]. *)
Definition fresh (s : Sim) : QCState := mkQC s [] [] [] None.

End QC.

Arguments Sim F : clear implicits.
Arguments mkSim {F} _ _ _ _ _ _.
Arguments FloatData {F} rs.
Arguments IntData {F} rs.
Arguments SimData F : clear implicits.
Arguments QCState F : clear implicits.
Arguments M F A : clear implicits.

(** ** Files used as examples *)

Module Examples.
Import Binary32.
Local Open Scope string_scope.

(** Sim::SAMPLE_NAME_SIZE as taken in the examples. *)
Definition NAME_SIZE : nat := 40.

(** P=2 probes, C=2 channels, N=2 samples, fixed-point:
    S1 = [(3,4),(0,0)], S2 = [(0,0),(6,8)]. *)
Definition scenario : Sim float :=
  mkSim 2 2 2 8 (IntData [("S1", [3; 4; 0; 0]); ("S2", [0; 0; 6; 8])]) 0.

(** The same values stored as floats. *)
Definition scenario_float : Sim float :=
  mkSim 2 2 2 8
    (FloatData [("S1", [of_int 3; of_int 4; of_int 0; of_int 0]);
                ("S2", [of_int 0; of_int 0; of_int 6; of_int 8])]) 0.

(** A file that declares no sample, and one that declares no probe. *)
Definition no_samples : Sim float := mkSim 2 2 0 8 (IntData []) 0.

Definition no_probes : Sim float :=
  mkSim 0 2 2 8 (IntData [("S1", []); ("S2", [])]) 0.

(** A file with three channels. *)
Definition three_channels : Sim float :=
  mkSim 1 3 1 8 (IntData [("S1", [1; 2; 3])]) 0.

(** Every sample reads zero at probe 0. *)
Definition dead_probe : Sim float :=
  mkSim 2 2 2 8 (IntData [("S1", [0; 0; 3; 4]); ("S2", [0; 0; 6; 8])]) 0.

(** A name field of two bytes, which both names fill. *)
Definition full_name_field : Sim float :=
  mkSim 1 2 2 2 (IntData [("S1", [1; 2]); ("S2", [3; 4])]) 0.

(** A name field of 64 bytes, wider than a row of the name table, and a
    second name of 44 characters. *)
Definition wide_name_field : Sim float :=
  mkSim 1 2 2 64
    (IntData [("S1", [1; 2]); ("sample_0123456789_0123456789_0123456789_0123", [3; 4])]) 0.

(** One probe whose channel 0 reads more than its channel 1. *)
Definition descending : Sim float :=
  mkSim 1 2 1 8 (IntData [("S1", [5; 2])]) 0.

(** One probe, two channels, two samples, and the same file with every
    value multiplied by 3. *)
Definition small : Sim float :=
  mkSim 1 2 2 8 (IntData [("S1", [1; 1]); ("S2", [1; 3])]) 0.

Definition small_times_3 : Sim float :=
  mkSim 1 2 2 8 (IntData [("S1", [3; 3]); ("S2", [3; 9])]) 0.

(** The same file with every value multiplied by 4. *)
Definition small_times_4 : Sim float :=
  mkSim 1 2 2 8 (IntData [("S1", [4; 4]); ("S2", [4; 12])]) 0.

(** One value 1.0, and the same file with the value multiplied by 2^64. *)
Definition unit_float : Sim float :=
  mkSim 1 1 1 8 (FloatData [("S1", [dyadic 1 0])]) 0.

Definition unit_float_times_2p64 : Sim float :=
  mkSim 1 1 1 8 (FloatData [("S1", [mul (dyadic 1 64) (dyadic 1 0)])]) 0.

(** A file of real numbers: one value 3 and one value 4 at a single probe
    of two channels, and the file with both values doubled. *)
Definition exact_small : Sim R :=
  mkSim 1 2 1 8 (FloatData [("S1", [3; 4]%R)]) 0.

Definition exact_small_doubled : Sim R :=
  mkSim 1 2 1 8 (FloatData [("S1", [2 * 3; 2 * 4]%R)]) 0.

(** [scenario] with the two channels of every probe exchanged, and with
    100 added to every value. *)
Definition scenario_swapped : Sim float :=
  mkSim 2 2 2 8 (IntData [("S1", [4; 3; 0; 0]); ("S2", [0; 0; 8; 6])]) 0.

Definition scenario_plus_100 : Sim float :=
  mkSim 2 2 2 8 (IntData [("S1", [103; 104; 100; 100]); ("S2", [100; 100; 106; 108])]) 0.

(** A file of floats with values of both signs, and the file of the
    negated values. *)
Definition signed_float : Sim float :=
  mkSim 1 2 2 8
    (FloatData [("S1", [of_int 3; of_int (-4)]); ("S2", [of_int (-6); of_int 8])]) 0.

Definition signed_float_negated : Sim float :=
  mkSim 1 2 2 8
    (FloatData [("S1", [of_int (-3); of_int 4]); ("S2", [of_int 6; of_int (-8)])]) 0.

(** A file of floats in which one value of the first sample is a NaN. *)
Definition one_nan : Sim float :=
  mkSim 2 2 2 8
    (FloatData [("S1", [of_int 3; S754_nan; of_int 1; of_int 1]);
                ("S2", [of_int 6; of_int 8; of_int 1; of_int 1])]) 0.

(** A header that declares two probes of two channels over a record of
    three values. *)
Definition short_record : Sim float :=
  mkSim 2 2 1 8 (IntData [("S1", [3; 4; 5])]) 0.

(** A file that declares no channel. *)
Definition no_channels : Sim float :=
  mkSim 1 0 2 8 (IntData [("S1", []); ("S2", [])]) 0.

(** [exact_small] with its two channels exchanged. *)
Definition exact_small_swapped : Sim R :=
  mkSim 1 2 1 8 (FloatData [("S1", [4; 3]%R)]) 0.

End Examples.

(** * Loops and arrays *)

Section Loops.
Context {F : Type} {FO : FloatOps F}.

Lemma for_fold {A B} (f : A -> B -> A) (g : nat -> B) k lo acc :
  for_ k lo (fun j acc => f acc (g j)) acc = fold_left f (map g (seq lo k)) acc.
Proof.
  revert lo acc; induction k as [|k IH]; intros lo acc; simpl; [reflexivity|].
  apply IH.
Qed.

Lemma for_length (h : nat -> list F -> F) k lo (a : list F) :
  length (for_ k lo (fun j a => <[j := h j a]> a) a) = length a.
Proof.
  revert lo a; induction k as [|k IH]; intros lo a; simpl; [reflexivity|].
  rewrite IH. apply length_insert.
Qed.

(** A loop that rewrites cell [j] from the old content of cell [j] acts on
    every cell of its range independently. *)
Lemma for_pointwise (h : nat -> F -> F) k lo (a : list F) i :
  (lo + k <= length a)%nat ->
  for_ k lo (fun j a => <[j := h j (aget a j)]> a) a !! i =
    if decide (lo <= i < lo + k)%nat then h i <$> a !! i else a !! i.
Proof.
  revert lo a; induction k as [|k IH]; intros lo a Hlen; simpl.
  - destruct (decide _) as [H|H]; [lia | reflexivity].
  - rewrite IH by (rewrite length_insert; lia).
    destruct (decide (i = lo)) as [->|Hne].
    + rewrite list_lookup_insert_eq by lia.
      destruct (lookup_lt_is_Some_2 a lo ltac:(lia)) as [x Hx].
      unfold aget. rewrite Hx. simpl.
      repeat destruct (decide _); try lia; reflexivity.
    + rewrite list_lookup_insert_ne by congruence.
      repeat destruct (decide _); try lia; reflexivity.
Qed.

Lemma for_pointwise_all (h : nat -> F -> F) (a : list F) :
  for_ (length a) 0 (fun j a => <[j := h j (aget a j)]> a) a = imap h a.
Proof.
  apply list_eq; intros i.
  rewrite for_pointwise by lia. rewrite list_lookup_imap.
  destruct (decide _) as [H|H]; [reflexivity|].
  rewrite (lookup_ge_None_2 a i) by lia. reflexivity.
Qed.

(** Hoare-style rule for a loop whose body always returns. *)
Lemma forM_inv {A} (I : nat -> A -> QCState F -> Prop) n lo
    (body : nat -> A -> M F A) acc st :
  I lo acc st ->
  (forall i acc st, (lo <= i < lo + n)%nat -> I i acc st ->
     exists acc' st', body i acc st = (Ok acc', st') /\ I (S i) acc' st') ->
  exists acc' st', forM n lo body acc st = (Ok acc', st') /\ I (lo + n)%nat acc' st'.
Proof.
  revert lo acc st; induction n as [|n IH]; intros lo acc st H0 Hstep; simpl.
  - exists acc, st. rewrite Nat.add_0_r. split; [reflexivity | assumption].
  - destruct (Hstep lo acc st ltac:(lia) H0) as (acc1 & st1 & Hb & H1).
    destruct (IH (S lo) acc1 st1 H1) as (acc2 & st2 & Hf & H2).
    { intros i a s Hi. apply Hstep. lia. }
    exists acc2, st2. unfold bind at 1. rewrite Hb.
    replace (lo + S n)%nat with (S lo + n)%nat by lia. split; assumption.
Qed.

(** A loop whose body does not touch the state is the pure loop. *)
Lemma forM_pure {A} (f : nat -> A -> A) n lo (body : nat -> A -> M F A) acc st :
  (forall i acc, (lo <= i < lo + n)%nat -> body i acc st = (Ok (f i acc), st)) ->
  forM n lo body acc st = (Ok (for_ n lo f acc), st).
Proof.
  revert lo acc; induction n as [|n IH]; intros lo acc Hb; simpl; [reflexivity|].
  unfold bind at 1. rewrite Hb by lia. apply IH. intros i a Hi. apply Hb. lia.
Qed.

(** A loop stops at the first body that does not return. *)
Lemma forM_fail {A} n lo (body : nat -> A -> M F A) acc st k acc1 st1 r st2 :
  (k < n)%nat ->
  forM k lo body acc st = (Ok acc1, st1) ->
  body (lo + k)%nat acc1 st1 = (r, st2) ->
  (forall a, r <> Ok a) ->
  forM n lo body acc st = (propagate r, st2).
Proof.
  revert lo acc st k; induction n as [|n IH]; intros lo acc st k Hk Hpre Hb Hr; [lia|].
  destruct k as [|k].
  - simpl in Hpre. injection Hpre as <- <-. rewrite Nat.add_0_r in Hb.
    simpl. unfold bind at 1. rewrite Hb.
    destruct r as [a| e | c m |]; [exfalso; eapply Hr; reflexivity | | | ]; reflexivity.
  - simpl in Hpre. unfold bind at 1 in Hpre.
    destruct (body lo acc st) as [[a| | |] st'] eqn:Hb0; try discriminate.
    simpl. unfold bind at 1. rewrite Hb0.
    apply (IH (S lo) a st' k); [lia | assumption | | assumption].
    replace (S lo + k)%nat with (lo + S k)%nat by lia. assumption.
Qed.

End Loops.

(** * One record: [getNextMagnitudes] *)

Section Record_adapter.
Context {F : Type} {FO : FloatOps F}.
Variable SAMPLE_NAME_SIZE : nat.

Lemma to_int_small z : 0 <= z < 2 ^ 31 -> to_int z = z.
Proof.
  intros H. unfold to_int. rewrite Z.mod_small by lia.
  destruct (Z.ltb_spec z (2 ^ 31)); lia.
Qed.

Lemma to_int_diff a b : 0 <= a < 65536 -> 0 <= b < 65536 -> to_int (b - a) = b - a.
Proof.
  intros Ha Hb. unfold to_int.
  destruct (Z_lt_le_dec (b - a) 0) as [Hn|Hp].
  - replace ((b - a) mod 2 ^ 32) with (b - a + 2 ^ 32).
    + destruct (Z.ltb_spec (b - a + 2 ^ 32) (2 ^ 31)); lia.
    + apply Z.mod_unique with (q := -1); lia.
  - rewrite Z.mod_small by lia. destruct (Z.ltb_spec (b - a) (2 ^ 31)); lia.
Qed.

Lemma vector_at_ok {V} (v : list V) (k : nat) (x : V) (st : QCState F) :
  v !! k = Some x -> vector_at v (Z.of_nat k) st = (Ok x, st).
Proof.
  intros H. unfold vector_at.
  destruct (Z.ltb_spec (Z.of_nat k) 0); [lia|].
  rewrite Nat2Z.id, H. reflexivity.
Qed.

Lemma for_fill (g : nat -> F) (a : list F) :
  for_ (length a) 0 (fun i a => <[i := g i]> a) a = map g (seq 0 (length a)).
Proof.
  transitivity (imap (fun i (_ : F) => g i) a).
  - exact (for_pointwise_all (fun i _ => g i) a).
  - apply list_eq; intros i. rewrite list_lookup_imap, list_lookup_fmap.
    destruct (a !! i) as [x|] eqn:Hx; simpl.
    + rewrite lookup_seq_lt by (apply lookup_lt_Some in Hx; lia). reflexivity.
    + rewrite lookup_seq_ge by (apply lookup_ge_None in Hx; lia). reflexivity.
Qed.

Lemma channels_slice (vals : list F) (i C : nat) :
  (i * C + C <= length vals)%nat ->
  map (fun j => aget vals (i * C + j)) (seq 0 C) = take C (drop (i * C) vals).
Proof.
  intros Hlen. apply list_eq; intros j. rewrite list_lookup_fmap.
  destruct (decide (j < C)%nat) as [Hj|Hj].
  - rewrite lookup_seq_lt by lia. simpl.
    rewrite lookup_take_lt by lia. rewrite lookup_drop.
    destruct (lookup_lt_is_Some_2 vals (i * C + j) ltac:(lia)) as [x Hx].
    unfold aget. rewrite Hx. reflexivity.
  - rewrite lookup_seq_ge by lia. simpl.
    rewrite lookup_take_ge by lia. reflexivity.
Qed.


Lemma bind_ok {A B} (c : M F A) (k : A -> M F B) st a st' :
  c st = (Ok a, st') -> bind c k st = k a st'.
Proof. intros H. unfold bind. rewrite H. reflexivity. Qed.

Lemma bind_fail {A B} (c : M F A) (k : A -> M F B) st r st' :
  c st = (r, st') -> (forall a, r <> Ok a) -> bind c k st = (propagate r, st').
Proof.
  intros H Hr. unfold bind. rewrite H.
  destruct r; [exfalso; eapply Hr; reflexivity | | | ]; reflexivity.
Qed.

Lemma bind_run {A B} (c : M F A) (k : A -> M F B) st r st' :
  c st = (r, st') ->
  bind c k st = match r with Ok a => k a st' | _ => (propagate r, st') end.
Proof. intros H. unfold bind. rewrite H. destruct r; reflexivity. Qed.

Lemma bind_throw {A B} (c : M F A) (k : A -> M F B) st e st' :
  c st = (Throw e, st') -> bind c k st = (Throw e, st').
Proof. intros H. unfold bind. rewrite H. reflexivity. Qed.

Lemma forM_throw {A} n lo (body : nat -> A -> M F A) acc st k acc1 st1 e st2 :
  (k < n)%nat ->
  forM k lo body acc st = (Ok acc1, st1) ->
  body (lo + k)%nat acc1 st1 = (Throw e, st2) ->
  forM n lo body acc st = (Throw e, st2).
Proof.
  intros Hk Hpre Hb.
  apply (forM_fail n lo body acc st k acc1 st1 (Throw e) st2 Hk Hpre Hb). discriminate.
Qed.

Lemma bind_undefined {A B} (c : M F A) (k : A -> M F B) st st' :
  c st = (Undefined, st') -> bind c k st = (Undefined, st').
Proof. intros H. unfold bind. rewrite H. reflexivity. Qed.

Lemma forM_undefined {A} n lo (body : nat -> A -> M F A) acc st k acc1 st1 st2 :
  (k < n)%nat ->
  forM k lo body acc st = (Ok acc1, st1) ->
  body (lo + k)%nat acc1 st1 = (Undefined, st2) ->
  forM n lo body acc st = (Undefined, st2).
Proof.
  intros Hk Hpre Hb.
  apply (forM_fail n lo body acc st k acc1 st1 Undefined st2 Hk Hpre Hb). discriminate.
Qed.

Lemma getNextRecord_float_ok (st : QCState F) rs name vals :
  simData (qcsim st) = FloatData rs ->
  (position (qcsim st) < numSamples (qcsim st))%nat ->
  rs !! position (qcsim st) = Some (name, vals) ->
  getNextRecord_float st = (Ok (name, vals), after_fetch st).
Proof.
  intros Hd Hp Hr. unfold getNextRecord_float, bind, gets. rewrite Hd.
  unfold next_record. destruct (decide _); [|lia]. rewrite Hr. reflexivity.
Qed.

Lemma getNextRecord_int_ok (st : QCState F) rs name vals :
  simData (qcsim st) = IntData rs ->
  (position (qcsim st) < numSamples (qcsim st))%nat ->
  rs !! position (qcsim st) = Some (name, vals) ->
  getNextRecord_int st = (Ok (name, vals), after_fetch st).
Proof.
  intros Hd Hp Hr. unfold getNextRecord_int, bind, gets. rewrite Hd.
  unfold next_record. destruct (decide _); [|lia]. rewrite Hr. reflexivity.
Qed.

Lemma signal_view_lookup_int (rs : list (string * list Z)) i name (vals : list F) :
  signal_view (IntData rs) !! i = Some (name, vals) ->
  exists ivals, rs !! i = Some (name, ivals) /\ vals = map of_Z ivals.
Proof.
  simpl. rewrite list_lookup_fmap. destruct (rs !! i) as [[n v]|]; simpl; [|discriminate].
  intros H. injection H as -> <-. exists v. split; reflexivity.
Qed.

(** The read half on a record that is there. *)
Lemma read_into_vectors_ok (st : QCState F) name vals :
  let s := qcsim st in
  (position s < numSamples s)%nat ->
  signal_view (simData s) !! position s = Some (name, vals) ->
  read_into_vectors s st = (Ok name, after_read st) /\
  (if numberFormat s =? 0
   then intensity_float (after_read st) = vals
   else map of_Z (intensity_int (after_read st)) = vals).
Proof.
  intros s Hp Hr. unfold read_into_vectors.
  unfold bind at 1. unfold set_intensity_float at 1, modify.
  unfold bind at 1. unfold set_intensity_int at 1, modify.
  unfold numberFormat, after_read. fold s. cbn [qcsim intensity_int intensity_float].
  destruct (simData s) as [rs|rs] eqn:Hd.
  - simpl in Hr. simpl (0 =? 0). cbv iota.
    erewrite bind_ok by (apply (getNextRecord_float_ok _ rs name vals); cbn [qcsim]; auto).
    unfold bind, set_intensity_float, modify, ret, after_fetch. cbn. fold s.
    rewrite Hr. split; reflexivity.
  - apply signal_view_lookup_int in Hr. destruct Hr as (ivals & Hr & ->).
    simpl (1 =? 0). cbv iota.
    erewrite bind_ok by (apply (getNextRecord_int_ok _ rs name ivals); cbn [qcsim]; auto).
    unfold bind, set_intensity_int, modify, ret, after_fetch. cbn. fold s.
    rewrite Hr. split; reflexivity.
Qed.

(** The magnitudes of a record whose values are in a member vector. *)
Lemma magnitude_loops_ok (s : Sim F) (st : QCState F) (vals magnitudes : list F) :
  Z.of_nat (numProbes s * numChannels s) < 2 ^ 31 ->
  length vals = (numProbes s * numChannels s)%nat ->
  length magnitudes = numProbes s ->
  (if numberFormat s =? 0
   then intensity_float st = vals
   else map of_Z (intensity_int st) = vals) ->
  magnitude_loops s magnitudes st =
    (Ok (magnitudes_of (numProbes s) (numChannels s) vals), st).
Proof.
  intros Hi Hv Hm Hvec. unfold magnitude_loops.
  set (P := numProbes s) in *. set (C := numChannels s) in *.
  rewrite (forM_pure (fun i a => <[i := probe_magnitude C vals i]> a)).
  - rewrite <- Hm at 1. rewrite for_fill. rewrite Hm. reflexivity.
  - intros i a Hir.
    rewrite (bind_ok _ _ st (sum_squares (take C (drop (i * C) vals))) st); [reflexivity|].
    rewrite (forM_pure (fun j total =>
               fadd total (fmul (aget vals (i * C + j)) (aget vals (i * C + j))))).
    + rewrite (for_fold (fun total x => fadd total (fmul x x)) (fun j => aget vals (i * C + j))).
      rewrite channels_slice by nia. reflexivity.
    + intros j total Hj. cbv zeta.
      assert (Hidx : (i * C + j < P * C)%nat) by nia.
      rewrite to_int_small by lia.
      replace (Z.of_nat i * Z.of_nat C + Z.of_nat j) with (Z.of_nat (i * C + j)) by lia.
      destruct (lookup_lt_is_Some_2 vals (i * C + j) ltac:(lia)) as [x Hx].
      unfold aget. rewrite Hx. simpl.
      erewrite bind_ok; [reflexivity|].
      destruct (numberFormat s =? 0).
      * unfold bind, gets. rewrite Hvec. apply vector_at_ok. assumption.
      * unfold bind at 1, gets. subst vals. rewrite list_lookup_fmap in Hx.
        destruct (intensity_int st !! (i * C + j)%nat) as [y|] eqn:Hy; [|discriminate].
        erewrite bind_ok; [|apply vector_at_ok; eassumption].
        simpl in Hx. injection Hx as <-. reflexivity.
Qed.

Lemma getNextMagnitudes_unfold (magnitudes : list F) (st : QCState F) :
  getNextMagnitudes magnitudes st =
    bind (read_into_vectors (qcsim st)) (fun sampleName =>
      bind (magnitude_loops (qcsim st) magnitudes) (fun magnitudes =>
        ret (magnitudes, sampleName))) st.
Proof. reflexivity. Qed.

Lemma after_read_sim (st : QCState F) :
  qcsim (after_read st) = set_position (S (position (qcsim st))) (qcsim st).
Proof. reflexivity. Qed.

Lemma getNextMagnitudes_ok (st : QCState F) (magnitudes : list F) :
  let s := qcsim st in
  layout_ok s ->
  (position s < numSamples s)%nat ->
  length magnitudes = numProbes s ->
  exists name vals,
    signal_view (simData s) !! position s = Some (name, vals) /\
    getNextMagnitudes magnitudes st =
      (Ok (magnitudes_of (numProbes s) (numChannels s) vals, name), after_read st).
Proof.
  intros s [Hc Hs Hi Hu] Hp Hl.
  destruct (lookup_lt_is_Some_2 (signal_view (simData s)) (position s) ltac:(lia))
    as [[name vals] Hr].
  pose proof (Forall_lookup_1 _ _ _ _ Hs Hr) as Hlen. simpl in Hlen.
  exists name, vals. split; [exact Hr|].
  destruct (read_into_vectors_ok st name vals Hp Hr) as [Hread Hvec].
  rewrite getNextMagnitudes_unfold. fold s.
  erewrite bind_ok by exact Hread.
  erewrite bind_ok by (apply (magnitude_loops_ok s _ vals); assumption).
  reflexivity.
Qed.

End Record_adapter.

(** * The two passes of the magnitude computation *)

Section Magnitude.
Context {F : Type} {FO : FloatOps F}.
Variable SAMPLE_NAME_SIZE : nat.

Lemma after_reads_S k (st : QCState F) :
  after_reads (S k) st = after_read (after_reads k st).
Proof. reflexivity. Qed.

Lemma after_reads_sim k (st : QCState F) :
  qcsim (after_reads k st) = set_position (position (qcsim st) + k) (qcsim st).
Proof.
  induction k as [|k IH].
  - rewrite Nat.add_0_r. simpl. destruct (qcsim st); reflexivity.
  - rewrite after_reads_S. unfold after_read. cbn [qcsim]. rewrite IH.
    unfold set_position; cbn. f_equal. lia.
Qed.

Lemma after_reads_events k (st : QCState F) :
  events (after_reads k st) = events st ++ map EvRead (seq (position (qcsim st)) k).
Proof.
  induction k as [|k IH].
  - simpl. rewrite app_nil_r. reflexivity.
  - rewrite after_reads_S. unfold after_read. cbn [events]. rewrite IH.
    rewrite after_reads_sim. unfold set_position; cbn [position].
    rewrite seq_S, map_app, app_assoc. reflexivity.
Qed.

Lemma after_reads_outFile k (st : QCState F) : outFile (after_reads k st) = outFile st.
Proof.
  induction k as [|k IH]; [reflexivity|].
  rewrite after_reads_S. unfold after_read. cbn [outFile]. exact IH.
Qed.

Lemma name_fits_row_fits (s : Sim F) i :
  (sampleNameSize s <= SAMPLE_NAME_SIZE)%nat -> name_fits s i ->
  row_fits SAMPLE_NAME_SIZE s i.
Proof.
  unfold name_fits, row_fits. intros Hns. destruct (_ !! i); [lia | trivial].
Qed.

Lemma well_formed_row_fits (s : Sim F) i :
  well_formed SAMPLE_NAME_SIZE s -> row_fits SAMPLE_NAME_SIZE s i.
Proof. intros [_ Hn Hs]. apply name_fits_row_fits; [exact Hs | apply Hn]. Qed.

Lemma layout_ok_set_position p (s : Sim F) : layout_ok s -> layout_ok (set_position p s).
Proof. intros [H1 H2 H3 H4]. split; assumption. Qed.

Lemma well_formed_set_position p (s : Sim F) :
  well_formed SAMPLE_NAME_SIZE s -> well_formed SAMPLE_NAME_SIZE (set_position p s).
Proof.
  intros [H1 H2 H3]. split; [apply layout_ok_set_position | exact H2 | exact H3]; assumption.
Qed.

Lemma runnable_set_position p (s : Sim F) :
  runnable SAMPLE_NAME_SIZE s -> runnable SAMPLE_NAME_SIZE (set_position p s).
Proof.
  intros [H1 H2 H3]. split; [apply layout_ok_set_position | exact H2 | exact H3]; assumption.
Qed.

(** A terminated name fits its field. *)
Lemma name_terminated_fits (s : Sim F) i : name_terminated s i -> name_fits s i.
Proof. unfold name_terminated, name_fits. destruct (_ !! i); [lia | trivial]. Qed.

Lemma magnitudes_of_length P C (vals : list F) : length (magnitudes_of P C vals) = P.
Proof. unfold magnitudes_of. rewrite length_map. apply length_seq. Qed.

Lemma magnitudes_of_aget P C (vals : list F) j :
  (j < P)%nat -> aget (magnitudes_of P C vals) j = probe_magnitude C vals j.
Proof.
  intros Hj. unfold aget, magnitudes_of.
  rewrite list_lookup_fmap, lookup_seq_lt by lia. reflexivity.
Qed.

(** The first [k] turns of pass 1: cell [j] of the array holds its old
    content plus the magnitudes at probe [j] of the first [k] records. *)
Lemma pass1_prefix (st : QCState F) (magByProbe : list F) (k : nat) :
  let s := qcsim st in
  layout_ok s ->
  position s = 0%nat ->
  (k <= numSamples s)%nat ->
  length magByProbe = numProbes s ->
  exists mags,
    length mags = numProbes s /\
    forM k 0 (pass1_body s) (magByProbe, calloc (numProbes s)) st =
      (Ok (imap (fun j b0 =>
             fold_left fadd
               (map (fun r => probe_magnitude (numChannels s) r.2 j)
                    (take k (signal_view (simData s)))) b0) magByProbe, mags),
       after_reads k st).
Proof.
  intros s Hlay Hpos Hk Hlen.
  set (recs := signal_view (simData s)).
  set (pm := fun (r : string * list F) j => probe_magnitude (numChannels s) r.2 j).
  destruct (forM_inv
    (fun i (acc : list F * list F) st' =>
       st' = after_reads i st /\ length acc.2 = numProbes s /\
       acc.1 = imap (fun j b0 => fold_left fadd (map (fun r => pm r j) (take i recs)) b0)
                    magByProbe)
    k 0 (pass1_body s) (magByProbe, calloc (numProbes s)) st)
    as ([mbp mags] & st' & Hrun & -> & Hl2 & Hacc).
  - simpl. repeat split.
    + apply length_replicate.
    + apply list_eq; intros j. rewrite list_lookup_imap. destruct (magByProbe !! j); reflexivity.
  - intros i [mbp mags] sti Hi (-> & Hl2 & Hacc). simpl in Hl2, Hacc.
    destruct (getNextMagnitudes_ok (after_reads i st) mags)
      as (name & vals & Hrec & Hget).
    + rewrite after_reads_sim. apply layout_ok_set_position. assumption.
    + rewrite after_reads_sim. simpl. fold s. lia.
    + rewrite after_reads_sim. simpl. assumption.
    + rewrite after_reads_sim in Hrec, Hget. simpl in Hrec, Hget. fold s in Hrec, Hget.
      rewrite Hpos in Hrec. simpl in Hrec. fold recs in Hrec.
      eexists; eexists. split.
      * unfold pass1_body. erewrite bind_ok by exact Hget. reflexivity.
      * simpl. split; [reflexivity|]. split; [apply magnitudes_of_length|].
        assert (Hlm : length mbp = numProbes s) by (subst mbp; rewrite length_imap; exact Hlen).
        rewrite <- Hlm at 1.
        rewrite (for_pointwise_all (fun j x =>
                   fadd x (aget (magnitudes_of (numProbes s) (numChannels s) vals) j)) mbp).
        apply list_eq; intros j. subst mbp. rewrite !list_lookup_imap.
        destruct (magByProbe !! j) as [b0|] eqn:Hb; [|reflexivity]. simpl.
        apply lookup_lt_Some in Hb.
        rewrite magnitudes_of_aget by lia.
        rewrite (take_S_r _ _ _ Hrec), map_app, fold_left_app. reflexivity.
  - simpl in Hl2, Hacc. exists mags. split; [assumption|]. rewrite Hrun, Hacc. reflexivity.
Qed.

Lemma magnitudeByProbe_unfold (magByProbe : list F) (st : QCState F) :
  magnitudeByProbe magByProbe st =
    bind (forM (numSamples (qcsim st)) 0 (pass1_body (qcsim st))
            (magByProbe, calloc (numProbes (qcsim st))))
         (fun acc => ret (for_ (numProbes (qcsim st)) 0 (fun i magByProbe =>
            <[i := fdiv (aget magByProbe i) (of_Z (Z.of_nat (numSamples (qcsim st))))]>
              magByProbe) acc.1)) st.
Proof.
  unfold magnitudeByProbe. unfold bind at 1, gets.
  change (forM (numSamples (qcsim st)) 0 _ (magByProbe, calloc (numProbes (qcsim st))))
    with (forM (numSamples (qcsim st)) 0 (pass1_body (qcsim st))
            (magByProbe, calloc (numProbes (qcsim st)))).
  unfold bind.
  destruct (forM _ _ _ _ st) as [[[a b]| | |] st']; reflexivity.
Qed.

(** Pass 1 returns, having read every record once; cell [j] of its array
    is the old content plus the magnitudes at probe [j] in record order,
    divided by the number of samples. *)
Lemma magnitudeByProbe_ok (st : QCState F) (magByProbe : list F) :
  let s := qcsim st in
  layout_ok s ->
  position s = 0%nat ->
  length magByProbe = numProbes s ->
  magnitudeByProbe magByProbe st =
    (Ok (imap (fun j b0 =>
           fdiv (fold_left fadd
                   (map (fun r => probe_magnitude (numChannels s) r.2 j)
                        (signal_view (simData s))) b0)
                (of_Z (Z.of_nat (numSamples s)))) magByProbe),
     after_reads (numSamples s) st).
Proof.
  intros s Hwf Hpos Hlen. rewrite magnitudeByProbe_unfold. fold s.
  destruct (pass1_prefix st magByProbe (numSamples s)) as (mags & Hl & Hrun).
  { exact Hwf. }
  { exact Hpos. }
  { apply Nat.le_refl. }
  { exact Hlen. }
  fold s in Hrun, Hl. erewrite bind_ok by exact Hrun. unfold ret. f_equal. f_equal. simpl.
  set (mbp := imap _ magByProbe).
  assert (Hlm : length mbp = numProbes s) by (unfold mbp; rewrite length_imap; exact Hlen).
  rewrite <- Hlm at 1.
  rewrite (for_pointwise_all (fun j x => fdiv x (of_Z (Z.of_nat (numSamples s)))) mbp).
  apply list_eq; intros j. unfold mbp. rewrite !list_lookup_imap.
  destruct (magByProbe !! j) as [b0|] eqn:Hb; [|reflexivity]. simpl.
  rewrite firstn_all2; [reflexivity|].
  pose proof (lo_count _ Hwf) as Hc. fold s in Hc. lia.
Qed.

(** Started on a zeroed array, pass 1 returns the probe baselines. *)
Lemma magnitudeByProbe_baseline (st : QCState F) :
  let s := qcsim st in
  layout_ok s ->
  position s = 0%nat ->
  magnitudeByProbe (calloc (numProbes s)) st =
    (Ok (map (baseline (numChannels s) (signal_view (simData s))) (seq 0 (numProbes s))),
     after_reads (numSamples s) st).
Proof.
  intros s Hwf Hpos.
  rewrite (magnitudeByProbe_ok st) by (try assumption; apply length_replicate).
  f_equal. f_equal. fold s. apply list_eq; intros j.
  rewrite list_lookup_imap, list_lookup_fmap. unfold calloc.
  destruct (decide (j < numProbes s)%nat) as [Hj|Hj].
  - rewrite lookup_replicate_2, lookup_seq_lt by lia. simpl.
    unfold baseline, fmean, fsum. rewrite length_map.
    pose proof (lo_count _ Hwf) as Hc. fold s in Hc. rewrite Hc. reflexivity.
  - rewrite (proj1 (lookup_replicate_None _ _ _)), lookup_seq_ge by lia. reflexivity.
Qed.

Lemma insert_take_drop {A} (l1 l0 : list A) i x :
  length l1 = i -> (i < length l0)%nat ->
  <[i := x]> (l1 ++ drop i l0) = (l1 ++ [x]) ++ drop (S i) l0.
Proof.
  intros Hl Hi. rewrite <- Hl at 1.
  rewrite <- (Nat.add_0_r (length l1)), insert_app_r.
  destruct (lookup_lt_is_Some_2 l0 i Hi) as [y Hy].
  rewrite (drop_S _ _ _ Hy). simpl. rewrite <- app_assoc. reflexivity.
Qed.

Lemma magnitudeBySample_unfold (magBySample magByProbe : list F)
    (sampleNames : list string) (st : QCState F) :
  magnitudeBySample SAMPLE_NAME_SIZE magBySample magByProbe sampleNames st =
    bind (forM (numSamples (qcsim st)) 0
            (pass2_body SAMPLE_NAME_SIZE (qcsim st) magByProbe)
            (magBySample, sampleNames, calloc (numProbes (qcsim st))))
         (fun acc => ret (acc.1.1, acc.1.2)) st.
Proof.
  unfold magnitudeBySample. unfold bind at 1, gets.
  change (forM (numSamples (qcsim st)) 0 _
            (magBySample, sampleNames, calloc (numProbes (qcsim st))))
    with (forM (numSamples (qcsim st)) 0
            (pass2_body SAMPLE_NAME_SIZE (qcsim st) magByProbe)
            (magBySample, sampleNames, calloc (numProbes (qcsim st)))).
  unfold bind.
  destruct (forM _ _ _ _ st) as [[[[a b] c]| | |] st']; reflexivity.
Qed.

(** The first [k] turns of pass 2, when the names of the first [k]
    records are terminated inside the name field and fit a row of the
    name table. *)
Lemma pass2_prefix (st : QCState F) (magBySample : list F) (sampleNames : list string) k :
  let s := qcsim st in
  let recs := signal_view (simData s) in
  let B := map (baseline (numChannels s) recs) (seq 0 (numProbes s)) in
  layout_ok s ->
  position s = 0%nat ->
  (k <= numSamples s)%nat ->
  (forall i, (i < k)%nat -> name_terminated s i) ->
  (forall i, (i < k)%nat -> row_fits SAMPLE_NAME_SIZE s i) ->
  length magBySample = numSamples s ->
  length sampleNames = numSamples s ->
  exists mags,
    length mags = numProbes s /\
    forM k 0 (pass2_body SAMPLE_NAME_SIZE s B)
         (magBySample, sampleNames, calloc (numProbes s)) st =
      (Ok (map (fun r => normalized_magnitude (numProbes s) (numChannels s) recs r.2)
               (take k recs) ++ drop k magBySample,
           map fst (take k recs) ++ drop k sampleNames, mags),
       after_reads k st).
Proof.
  intros s recs B Hlay Hpos Hk Hfit Hrow Hlm Hln.
  set (metric := fun r : string * list F =>
                   normalized_magnitude (numProbes s) (numChannels s) recs r.2).
  pose proof (lo_count _ Hlay) as Hc. fold s recs in Hc.
  destruct (forM_inv
    (fun i (acc : list F * list string * list F) st' =>
       st' = after_reads i st /\ length acc.2 = numProbes s /\
       acc.1.1 = map metric (take i recs) ++ drop i magBySample /\
       acc.1.2 = map fst (take i recs) ++ drop i sampleNames)
    k 0 (pass2_body SAMPLE_NAME_SIZE s B)
    (magBySample, sampleNames, calloc (numProbes s)) st)
    as ([[mbs names] mags] & st' & Hrun & -> & Hl2 & Hmbs & Hnames).
  - simpl. repeat split. apply length_replicate.
  - intros i [[mbs names] mags] sti Hi (-> & Hl2 & Hmbs & Hnames). simpl in Hl2, Hmbs, Hnames.
    destruct (getNextMagnitudes_ok (after_reads i st) mags)
      as (name & vals & Hrec & Hget).
    + rewrite after_reads_sim. apply layout_ok_set_position. exact Hlay.
    + rewrite after_reads_sim. simpl. fold s. lia.
    + rewrite after_reads_sim. simpl. assumption.
    + rewrite after_reads_sim in Hrec, Hget. simpl in Hrec, Hget. fold s in Hrec, Hget.
      rewrite Hpos in Hrec. simpl in Hrec. fold recs in Hrec.
      pose proof (Hrow i ltac:(lia)) as Hrw. unfold row_fits in Hrw.
      fold s recs in Hrw. rewrite Hrec in Hrw. simpl in Hrw.
      pose proof (Hfit i ltac:(lia)) as Htm. unfold name_terminated in Htm.
      fold s recs in Htm. rewrite Hrec in Htm. simpl in Htm.
      eexists; eexists. split.
      * unfold pass2_body. erewrite bind_ok by exact Hget. unfold strcpy_row.
        destruct (decide _) as [_|Hno]; [|lia].
        reflexivity.
      * simpl. split; [reflexivity|]. split; [apply magnitudes_of_length|].
        rewrite (take_S_r _ _ _ Hrec), !map_app. simpl.
        assert (Hti : length (take i recs) = i) by (rewrite length_take; lia).
        subst mbs names. split.
        -- rewrite insert_take_drop by (rewrite ?length_map; lia). f_equal. f_equal. f_equal.
           unfold metric, normalized_magnitude, fmean, fsum. simpl.
           rewrite length_map, length_seq. f_equal.
           rewrite (for_fold fadd (fun j => fdiv (aget (magnitudes_of (numProbes s)
                      (numChannels s) vals) j) (aget B j))).
           f_equal. apply map_ext_in. intros j Hj. apply in_seq in Hj.
           rewrite magnitudes_of_aget by lia. f_equal.
           unfold aget, B. rewrite list_lookup_fmap, lookup_seq_lt by lia. reflexivity.
        -- rewrite insert_take_drop by (rewrite ?length_map; lia). reflexivity.
  - simpl in Hl2, Hmbs, Hnames. exists mags. split; [exact Hl2|].
    rewrite Hrun. subst mbs names. reflexivity.
Qed.

(** Pass 2 returns, having read every record once: one metric and one name
    per record, in record order. *)
Lemma magnitudeBySample_ok (st : QCState F) (magBySample : list F) (sampleNames : list string) :
  let s := qcsim st in
  let recs := signal_view (simData s) in
  runnable SAMPLE_NAME_SIZE s ->
  position s = 0%nat ->
  length magBySample = numSamples s ->
  length sampleNames = numSamples s ->
  magnitudeBySample SAMPLE_NAME_SIZE magBySample
      (map (baseline (numChannels s) recs) (seq 0 (numProbes s))) sampleNames st =
    (Ok (map (fun r => normalized_magnitude (numProbes s) (numChannels s) recs r.2) recs,
         map fst recs),
     after_reads (numSamples s) st).
Proof.
  intros s recs Hwf Hpos Hlm Hln. rewrite magnitudeBySample_unfold. fold s recs.
  destruct (pass2_prefix st magBySample sampleNames (numSamples s)) as (mags & _ & Hrun);
    try assumption.
  - apply (rn_layout _ _ Hwf).
  - apply Nat.le_refl.
  - intros i _. apply (rn_terminated _ _ Hwf).
  - intros i _. apply (rn_rows _ _ Hwf).
  - fold s recs in Hrun. erewrite bind_ok by exact Hrun. unfold ret. cbn [fst snd].
    pose proof (lo_count _ (rn_layout _ _ Hwf)) as Hc. fold s recs in Hc.
    rewrite !drop_ge, !app_nil_r, firstn_all2 by lia. reflexivity.
Qed.

Lemma write_lines_ok n (names : list string) (values : list F) (st : QCState F) ls :
  outFile st = Some ls ->
  write_lines n names values st =
    (Ok tt, with_output
              (ls ++ map (fun i => (default EmptyString (names !! i), aget values i)) (seq 0 n))
              st).
Proof.
  unfold write_lines. generalize 0%nat as lo. revert st ls.
  induction n as [|n IH]; intros st ls lo Hout; simpl.
  - rewrite app_nil_r. unfold ret, with_output. rewrite <- Hout. destruct st; reflexivity.
  - unfold bind at 1. unfold fprintf_line at 1, modify. rewrite Hout. simpl.
    erewrite IH by reflexivity. unfold with_output. simpl.
    rewrite <- app_assoc. reflexivity.
Qed.

(** The whole magnitude run on a file whose names can all be copied. *)
Lemma writeMagnitude_ok (st : QCState F) :
  let s := qcsim st in
  runnable SAMPLE_NAME_SIZE s ->
  writeMagnitude SAMPLE_NAME_SIZE st =
    (Ok tt,
     with_output (magnitude_lines (numProbes s) (numChannels s) (simData s))
       (after_reads (numSamples s) (reset_state
         (after_reads (numSamples s) (reset_state st))))).
Proof.
  intros s Hwf. unfold writeMagnitude.
  unfold bind at 1. unfold reset at 1, modify.
  unfold bind at 1, gets.
  assert (Hs1 : qcsim (reset_state st) = set_position 0 s) by reflexivity.
  rewrite Hs1. cbn [numProbes numSamples set_position].
  pose proof (magnitudeByProbe_baseline (reset_state st)) as H1.
  rewrite Hs1 in H1. cbn [numProbes numSamples numChannels simData set_position position] in H1.
  erewrite bind_ok
    by (apply H1; [apply layout_ok_set_position, (rn_layout _ _ Hwf) | reflexivity]).
  set (st1 := after_reads (numSamples s) (reset_state st)).
  unfold bind at 1. unfold reset at 1, modify.
  assert (Hs2 : qcsim (reset_state st1) = set_position 0 s).
  { unfold reset_state. cbn [qcsim]. unfold st1. rewrite after_reads_sim, Hs1. reflexivity. }
  pose proof (magnitudeBySample_ok (reset_state st1) (calloc (numSamples s))
                (replicate (numSamples s) EmptyString)) as H2.
  rewrite Hs2 in H2. cbn [numProbes numSamples numChannels simData set_position position] in H2.
  erewrite bind_ok by (apply H2; [apply (runnable_set_position 0); assumption | reflexivity
                                 | apply length_replicate | apply length_replicate]).
  unfold bind at 1. unfold fopen_w at 1, modify.
  erewrite write_lines_ok by reflexivity.
  f_equal. unfold with_output. cbn [qcsim intensity_int intensity_float events outFile].
  f_equal. f_equal. simpl. unfold magnitude_lines.
  pose proof (lo_count _ (rn_layout _ _ Hwf)) as Hc. fold s in Hc. rewrite <- Hc.
  set (recs := signal_view (simData s)).
  apply list_eq; intros i. rewrite !list_lookup_fmap.
  destruct (recs !! i) as [r|] eqn:Hr.
  - rewrite lookup_seq_lt by (apply lookup_lt_Some in Hr; lia). simpl.
    unfold aget. rewrite !list_lookup_fmap, Hr. reflexivity.
  - rewrite lookup_seq_ge by (apply lookup_ge_None in Hr; lia). reflexivity.
Qed.

End Magnitude.


(** * The single pass of the xydiff computation *)

Section Xydiff.
Context {F : Type} {FO : FloatOps F}.
Variable SAMPLE_NAME_SIZE : nat.

Lemma after_fetches_S k (st : QCState F) :
  after_fetches (S k) st = after_fetch (after_fetches k st).
Proof. reflexivity. Qed.

Lemma after_fetches_sim k (st : QCState F) :
  qcsim (after_fetches k st) = set_position (position (qcsim st) + k) (qcsim st).
Proof.
  induction k as [|k IH].
  - rewrite Nat.add_0_r. simpl. destruct (qcsim st); reflexivity.
  - rewrite after_fetches_S. unfold after_fetch. cbn [qcsim]. rewrite IH.
    unfold set_position; cbn. f_equal. lia.
Qed.

Lemma after_fetches_events k (st : QCState F) :
  events (after_fetches k st) = events st ++ map EvRead (seq (position (qcsim st)) k).
Proof.
  induction k as [|k IH].
  - simpl. rewrite app_nil_r. reflexivity.
  - rewrite after_fetches_S. unfold after_fetch. cbn [events]. rewrite IH.
    rewrite after_fetches_sim. unfold set_position; cbn [position].
    rewrite seq_S, map_app, app_assoc. reflexivity.
Qed.

Lemma after_fetches_outFile k (st : QCState F) : outFile (after_fetches k st) = outFile st.
Proof.
  induction k as [|k IH]; [reflexivity|].
  rewrite after_fetches_S. unfold after_fetch. cbn [outFile]. exact IH.
Qed.

Lemma xyd_loop_float (P : nat) (vals : list F) (st : QCState F) :
  length vals = (P * 2)%nat -> Z.of_nat (P * 2) < 2 ^ 31 ->
  forM P 0 (fun j xydTotal =>
    let index := to_int (Z.of_nat j * Z.of_nat 2) in
    bind (bind (vector_at vals (to_int (index + 1))) (fun b =>
            bind (vector_at vals index) (fun a => ret (fsub b a))))
         (fun xyd => ret (fadd xydTotal xyd))) fzero st
  = (Ok (fsum (map (channel_diff_float vals) (seq 0 P))), st).
Proof.
  intros Hlen Hidx.
  rewrite (forM_pure (fun j t => fadd t (channel_diff_float vals j))).
  - rewrite (for_fold fadd (channel_diff_float vals)). reflexivity.
  - intros j t Hj. cbv zeta.
    rewrite (to_int_small (Z.of_nat j * Z.of_nat 2)) by lia.
    rewrite to_int_small by lia.
    replace (Z.of_nat j * Z.of_nat 2 + 1) with (Z.of_nat (2 * j + 1)) by lia.
    replace (Z.of_nat j * Z.of_nat 2) with (Z.of_nat (2 * j)) by lia.
    destruct (lookup_lt_is_Some_2 vals (2 * j + 1) ltac:(lia)) as [b Hb].
    destruct (lookup_lt_is_Some_2 vals (2 * j) ltac:(lia)) as [a Ha].
    erewrite bind_ok; [reflexivity|].
    erewrite bind_ok by (apply vector_at_ok; exact Hb).
    erewrite bind_ok by (apply vector_at_ok; exact Ha).
    unfold channel_diff_float, aget. rewrite Ha, Hb. reflexivity.
Qed.

Lemma xyd_loop_int (P : nat) (vals : list Z) (st : QCState F) :
  length vals = (P * 2)%nat -> Z.of_nat (P * 2) < 2 ^ 31 -> Forall uint16 vals ->
  forM P 0 (fun j xydTotal =>
    let index := to_int (Z.of_nat j * Z.of_nat 2) in
    bind (bind (vector_at vals (to_int (index + 1))) (fun b =>
            bind (vector_at vals index) (fun a => ret (of_Z (to_int (b - a))))))
         (fun xyd => ret (fadd xydTotal xyd))) fzero st
  = (Ok (fsum (map (channel_diff_int vals) (seq 0 P))), st).
Proof.
  intros Hlen Hidx Hu.
  rewrite (forM_pure (fun j t => fadd t (channel_diff_int vals j))).
  - rewrite (for_fold fadd (channel_diff_int vals)). reflexivity.
  - intros j t Hj. cbv zeta.
    rewrite (to_int_small (Z.of_nat j * Z.of_nat 2)) by lia.
    rewrite to_int_small by lia.
    replace (Z.of_nat j * Z.of_nat 2 + 1) with (Z.of_nat (2 * j + 1)) by lia.
    replace (Z.of_nat j * Z.of_nat 2) with (Z.of_nat (2 * j)) by lia.
    destruct (lookup_lt_is_Some_2 vals (2 * j + 1) ltac:(lia)) as [b Hb].
    destruct (lookup_lt_is_Some_2 vals (2 * j) ltac:(lia)) as [a Ha].
    erewrite bind_ok; [reflexivity|].
    erewrite bind_ok by (apply vector_at_ok; exact Hb).
    erewrite bind_ok by (apply vector_at_ok; exact Ha).
    unfold channel_diff_int, signed_diff. rewrite Ha, Hb. simpl.
    rewrite to_int_diff; [reflexivity | |].
    + exact (Forall_lookup_1 _ _ _ _ Hu Ha).
    + exact (Forall_lookup_1 _ _ _ _ Hu Hb).
Qed.

Lemma xydiff_lines_length P (d : SimData F) :
  length (xydiff_lines P d) = length (signal_view d).
Proof. destruct d; simpl; rewrite !length_map; reflexivity. Qed.

Lemma xydiffBySample_unfold (xydBySample : list F) (sampleNames : list string) st :
  xydiffBySample SAMPLE_NAME_SIZE xydBySample sampleNames st =
    forM (numSamples (qcsim st)) 0 (xydiff_body SAMPLE_NAME_SIZE (qcsim st))
         (xydBySample, sampleNames) st.
Proof. reflexivity. Qed.

(** The first [k] turns of the pass: one mean channel difference and one
    name per record read, in record order. *)
Lemma xydiff_prefix (st : QCState F) (xydBySample : list F) (sampleNames : list string) k :
  let s := qcsim st in
  let lines := xydiff_lines (numProbes s) (simData s) in
  layout_ok s ->
  numChannels s = 2%nat ->
  position s = 0%nat ->
  (k <= numSamples s)%nat ->
  (forall i, (i < k)%nat -> name_terminated s i) ->
  (forall i, (i < k)%nat -> row_fits SAMPLE_NAME_SIZE s i) ->
  length xydBySample = numSamples s ->
  length sampleNames = numSamples s ->
  forM k 0 (xydiff_body SAMPLE_NAME_SIZE s) (xydBySample, sampleNames) st =
    (Ok (map snd (take k lines) ++ drop k xydBySample,
         map fst (take k lines) ++ drop k sampleNames),
     after_fetches k st).
Proof.
  intros s lines Hlay HC Hpos Hk Hfit Hrow Hlx Hln.
  pose proof (lo_count _ Hlay) as Hc. fold s in Hc.
  pose proof (lo_index _ Hlay) as Hidx. fold s in Hidx. rewrite HC in Hidx.
  assert (Hll : length lines = numSamples s)
    by (unfold lines; rewrite xydiff_lines_length; exact Hc).
  destruct (forM_inv
    (fun i (acc : list F * list string) st' =>
       st' = after_fetches i st /\
       acc.1 = map snd (take i lines) ++ drop i xydBySample /\
       acc.2 = map fst (take i lines) ++ drop i sampleNames)
    k 0 (xydiff_body SAMPLE_NAME_SIZE s) (xydBySample, sampleNames) st)
    as ([xyd names] & st' & Hrun & -> & Hxyd & Hnames).
  - simpl. repeat split.
  - intros i [xyd names] sti Hi (-> & Hxyd & Hnames). simpl in Hxyd, Hnames.
    assert (Hsi : qcsim (after_fetches i st) = set_position i s)
      by (rewrite after_fetches_sim; fold s; rewrite Hpos; reflexivity).
    assert (Hti : length (take i lines) = i) by (rewrite length_take; lia).
    assert (Hstep : forall name x, lines !! i = Some (name, x) ->
              (<[i := x]> xyd, <[i := name]> names).1 =
                map snd (take (S i) lines) ++ drop (S i) xydBySample /\
              (<[i := x]> xyd, <[i := name]> names).2 =
                map fst (take (S i) lines) ++ drop (S i) sampleNames).
    { intros name x Hl. rewrite (take_S_r _ _ _ Hl), !map_app. simpl. subst xyd names.
      split; rewrite insert_take_drop by (rewrite ?length_map; lia); reflexivity. }
    pose proof (Hfit i ltac:(lia)) as Hnm. unfold name_terminated in Hnm.
    pose proof (Hrow i ltac:(lia)) as Hrw. unfold row_fits in Hrw.
    pose proof (lo_sizes _ Hlay) as Hsz. pose proof (lo_uint16 _ Hlay) as Hu.
    fold s in Hnm, Hrw, Hsz, Hu.
    unfold xydiff_body. unfold lines, xydiff_lines in Hstep.
    destruct (simData s) as [rs|rs] eqn:Hd; simpl in Hc, Hnm, Hrw, Hsz;
      unfold numberFormat; rewrite Hd; simpl.
    + destruct (lookup_lt_is_Some_2 rs i ltac:(lia)) as [[name vals] Hr].
      rewrite Hr in Hnm, Hrw. apply (fun H => Forall_lookup_1 _ _ _ _ H Hr) in Hsz.
      simpl in Hnm, Hrw, Hsz. rewrite HC in Hsz.
      erewrite bind_ok.
      2:{ erewrite bind_ok
            by (apply (getNextRecord_float_ok _ rs name vals); rewrite Hsi; unfold set_position;
                cbn [simData position numSamples sampleNameSize]; auto; lia).
          reflexivity. }
      unfold strcpy_row. destruct (decide _); [|lia].
      unfold bind at 1, ret at 1.
      rewrite HC. erewrite bind_ok by (apply xyd_loop_float; assumption).
      eexists; eexists. split; [reflexivity|]. split; [reflexivity|].
      apply Hstep. rewrite list_lookup_fmap, Hr. simpl.
      unfold xydiff_of, fmean. rewrite length_map, length_seq. reflexivity.
    + rewrite length_map in Hc.
      destruct (lookup_lt_is_Some_2 rs i ltac:(lia)) as [[name vals] Hr].
      assert (Hr' : map (fun r : string * list Z => (r.1, map of_Z r.2)) rs !! i
                    = Some (name, map of_Z vals)) by (rewrite list_lookup_fmap, Hr; reflexivity).
      rewrite Hr' in Hnm, Hrw. apply (fun H => Forall_lookup_1 _ _ _ _ H Hr') in Hsz.
      simpl in Hnm, Hrw, Hsz. rewrite HC, length_map in Hsz.
      pose proof (Forall_lookup_1 _ _ _ _ Hu Hr) as Hu16. simpl in Hu16.
      erewrite bind_ok.
      2:{ erewrite bind_ok
            by (apply (getNextRecord_int_ok _ rs name vals); rewrite Hsi; unfold set_position;
                cbn [simData position numSamples sampleNameSize]; auto; lia).
          reflexivity. }
      unfold strcpy_row. destruct (decide _); [|lia].
      unfold bind at 1, ret at 1.
      rewrite HC. erewrite bind_ok by (apply xyd_loop_int; assumption).
      eexists; eexists. split; [reflexivity|]. split; [reflexivity|].
      apply Hstep. rewrite list_lookup_fmap, Hr. simpl.
      unfold xydiff_of, fmean. rewrite length_map, length_seq. reflexivity.
  - simpl in Hxyd, Hnames. rewrite Hrun. subst xyd names. reflexivity.
Qed.

(** The pass returns, having read every record once: one mean channel
    difference and one name per record, in record order. *)
Lemma xydiffBySample_ok (st : QCState F) (xydBySample : list F) (sampleNames : list string) :
  let s := qcsim st in
  let lines := xydiff_lines (numProbes s) (simData s) in
  runnable SAMPLE_NAME_SIZE s ->
  numChannels s = 2%nat ->
  position s = 0%nat ->
  length xydBySample = numSamples s ->
  length sampleNames = numSamples s ->
  xydiffBySample SAMPLE_NAME_SIZE xydBySample sampleNames st =
    (Ok (map snd lines, map fst lines), after_fetches (numSamples s) st).
Proof.
  intros s lines Hwf HC Hpos Hlx Hln. rewrite xydiffBySample_unfold.
  rewrite (xydiff_prefix st xydBySample sampleNames (numSamples (qcsim st))); try assumption.
  - fold s lines.
    assert (Hll : length lines = numSamples s).
    { unfold lines. rewrite xydiff_lines_length. apply (lo_count _ (rn_layout _ _ Hwf)). }
    rewrite !drop_ge, !app_nil_r, firstn_all2 by lia. reflexivity.
  - apply (rn_layout _ _ Hwf).
  - apply Nat.le_refl.
  - intros i _. apply (rn_terminated _ _ Hwf).
  - intros i _. apply (rn_rows _ _ Hwf).
Qed.

(** The whole xydiff run on a two-channel file whose names can all be
    copied. *)
Lemma writeXydiff_ok (st : QCState F) :
  let s := qcsim st in
  runnable SAMPLE_NAME_SIZE s ->
  numChannels s = 2%nat ->
  writeXydiff SAMPLE_NAME_SIZE st =
    (Ok tt,
     with_output (xydiff_lines (numProbes s) (simData s))
       (after_fetches (numSamples s) (reset_state st))).
Proof.
  intros s Hwf HC. unfold writeXydiff.
  unfold bind at 1, gets. fold s. rewrite HC.
  change (negb (2 =? 2)%nat) with false. cbv iota.
  unfold bind at 1. unfold reset at 1, modify.
  pose proof (xydiffBySample_ok (reset_state st) (calloc (numSamples s))
                (replicate (numSamples s) EmptyString)) as H2.
  assert (Hs1 : qcsim (reset_state st) = set_position 0 s) by reflexivity.
  rewrite Hs1 in H2. cbn [numProbes numSamples numChannels simData set_position position] in H2.
  erewrite bind_ok by (apply H2; [apply (runnable_set_position _ 0); assumption | assumption
                        | reflexivity | apply length_replicate | apply length_replicate]).
  unfold bind at 1. unfold fopen_w at 1, modify.
  erewrite write_lines_ok by reflexivity.
  f_equal. unfold with_output. cbn [qcsim intensity_int intensity_float events outFile].
  f_equal. simpl.
  set (lines := xydiff_lines (numProbes s) (simData s)).
  assert (Hll : length lines = numSamples s).
  { unfold lines. rewrite xydiff_lines_length. apply (lo_count _ (rn_layout _ _ Hwf)). }
  rewrite <- Hll. f_equal.
  apply list_eq; intros i. rewrite !list_lookup_fmap.
  destruct (lines !! i) as [[n x]|] eqn:Hr.
  - rewrite lookup_seq_lt by (apply lookup_lt_Some in Hr; lia). simpl.
    unfold aget. rewrite !list_lookup_fmap, Hr. reflexivity.
  - rewrite lookup_seq_ge by (apply lookup_ge_None in Hr; lia). reflexivity.
Qed.

End Xydiff.


(** * Facts about binary32 *)

Section Binary32_facts.
Import Binary32.

Lemma div_by_zero_not_finite x z : is_zero z = true -> is_finite (div x z) = false.
Proof. destruct z; try discriminate. intros _. destruct x; reflexivity. Qed.

Lemma add_not_finite_l x y : is_finite x = false -> is_finite (add x y) = false.
Proof.
  destruct x as [| sx | |]; try discriminate; intros _; destruct y as [| sy | |];
    try reflexivity.
  destruct sx, sy; reflexivity.
Qed.

Lemma add_not_finite_r x y : is_finite y = false -> is_finite (add x y) = false.
Proof.
  destruct y as [| sy | |]; try discriminate; intros _; destruct x as [| sx | |];
    try reflexivity.
  destruct sx, sy; reflexivity.
Qed.

Lemma div_not_finite_l x y : is_finite x = false -> is_finite (div x y) = false.
Proof.
  destruct x as [| sx | |]; try discriminate; intros _; destruct y; reflexivity.
Qed.

(** A sum that meets a NaN or an infinity never comes back to a number. *)
Lemma fold_add_not_finite_acc (l : list float) a :
  is_finite a = false -> is_finite (fold_left add l a) = false.
Proof.
  revert a; induction l as [|x l IH]; intros a Ha; simpl; [exact Ha|].
  apply IH. apply add_not_finite_l. exact Ha.
Qed.

Lemma fold_add_not_finite (l : list float) a x :
  In x l -> is_finite x = false -> is_finite (fold_left add l a) = false.
Proof.
  revert a; induction l as [|y l IH]; intros a Hin Hx; [destruct Hin|].
  simpl. destruct Hin as [->|Hin].
  - apply fold_add_not_finite_acc. apply add_not_finite_r. exact Hx.
  - apply IH; assumption.
Qed.

Lemma digits2_size m : digits2_pos m = Pos.size m.
Proof. induction m; simpl; congruence. Qed.

Lemma iter_xO_Z m k : Z.pos (Pos.iter xO m k) = Z.pos m * 2 ^ Z.pos k.
Proof.
  induction k using Pos.peano_ind.
  - simpl. lia.
  - rewrite Pos.iter_succ. rewrite Pos2Z.inj_xO, IHk, Pos2Z.inj_succ, Z.pow_succ_r by lia. lia.
Qed.

Lemma iter_xO_digits m k :
  Z.pos (digits2_pos (Pos.iter xO m k)) = Z.pos (digits2_pos m) + Z.pos k.
Proof.
  induction k using Pos.peano_ind.
  - simpl. lia.
  - rewrite Pos.iter_succ. simpl. rewrite Pos2Z.inj_succ, IHk. lia.
Qed.

Lemma digits_bound m : Z.pos m < 2 ^ 24 -> Z.pos (digits2_pos m) <= 24.
Proof.
  intros H. rewrite digits2_size.
  destruct (Z_le_gt_dec (Z.pos (Pos.size m)) 24) as [|Hgt]; [assumption|exfalso].
  pose proof (Pos.size_le m) as Hle.
  assert (2 ^ 25 <= 2 ^ Z.pos (Pos.size m)) by (apply Z.pow_le_mono_r; lia).
  assert (Z.pos (2 ^ Pos.size m) = 2 ^ Z.pos (Pos.size m))
    by (rewrite Pos2Z.inj_pow; reflexivity).
  assert (Z.pos (2 ^ Pos.size m) <= Z.pos m~0) by (apply Pos2Z.pos_le_pos; exact Hle).
  lia.
Qed.

(** Rounding leaves a 24-bit mantissa with an exponent in range alone. *)
Lemma round_aux_canonical s m e :
  Z.pos (digits2_pos m) = 24 -> -149 <= e <= 104 ->
  binary_round_aux 24 128 s (Z.pos m) e loc_Exact = S754_finite s m e.
Proof.
  intros Hd He. unfold binary_round_aux, shr_fexp, fexp, emin.
  cbn [Zdigits2 shr_record_of_loc]. rewrite Hd.
  replace (Z.max (24 + e - 24) (3 - 128 - 24) - e) with 0 by lia.
  cbn [shr shr_m loc_of_shr_record round_nearest_even Zdigits2]. rewrite Hd.
  replace (Z.max (24 + e - 24) (3 - 128 - 24) - e) with 0 by lia.
  cbn [shr shr_m shr_record_of_loc].
  destruct (Z.leb_spec e (128 - 24)); [reflexivity | lia].
Qed.

Lemma of_int_pos s m :
  Z.pos m < 2 ^ 24 ->
  exists m' e, binary_round prec emax s m 0 = S754_finite s m' e /\
    -23 <= e <= 0 /\ Z.pos m' = Z.pos m * 2 ^ (- e) /\ Z.pos (digits2_pos m') = 24.
Proof.
  intros Hm. pose proof (digits_bound m Hm) as Hd.
  unfold binary_round, fexp, emin, prec, emax, shl_align.
  assert (Hpos : 0 < Z.pos (digits2_pos m)) by lia.
  replace (Z.max (Z.pos (digits2_pos m) + 0 - 24) (3 - 128 - 24))
    with (Z.pos (digits2_pos m) - 24) by lia.
  destruct (Z.pos (digits2_pos m) - 24 - 0) as [|k|k] eqn:Hk; try lia.
  - exists m, 0. rewrite (round_aux_canonical s m 0) by lia. repeat split; try lia.
  - exists (Pos.iter xO m k), (Z.pos (digits2_pos m) - 24).
    rewrite round_aux_canonical.
    + split; [reflexivity|]. split; [lia|]. split.
      * rewrite iter_xO_Z. f_equal. f_equal. lia.
      * rewrite iter_xO_digits. lia.
    + rewrite iter_xO_digits. lia.
    + lia.
Qed.

(** Every integer of magnitude below 2^24 converts to the float that
    denotes it. *)
Lemma of_int_exact z : - 2 ^ 24 < z < 2 ^ 24 -> to_Z (of_int z) = Some z.
Proof.
  intros Hz. unfold of_int, binary_normalize.
  destruct z as [|m|m]; [reflexivity | |].
  - destruct (of_int_pos false m ltac:(lia)) as (m' & e & -> & He & Hm' & _).
    unfold to_Z. destruct (Z.leb_spec 0 e).
    + replace e with 0 in * by lia. f_equal. simpl in Hm'. lia.
    + rewrite Hm'. rewrite Z.mod_mul by lia. simpl (0 =? 0).
      cbv iota. f_equal. apply Z.div_mul. lia.
  - destruct (of_int_pos true m ltac:(lia)) as (m' & e & -> & He & Hm' & _).
    unfold to_Z. destruct (Z.leb_spec 0 e).
    + replace e with 0 in * by lia. f_equal. simpl in Hm'. lia.
    + rewrite Hm'. rewrite Z.mod_mul by lia. simpl (0 =? 0).
      cbv iota. f_equal.
      replace (Z.neg m') with (- Z.pos m * 2 ^ (- e)) by lia.
      rewrite Z.div_mul by lia. lia.
Qed.

Lemma shr_1_even (M : Z) : 0 <= M ->
  shr_1 (Build_shr_record (M * 2) false false) = Build_shr_record M false false.
Proof.
  intros HM. destruct M as [|p|p]; [reflexivity | | lia].
  replace (Z.pos p * 2) with (Z.pos p~0) by lia. reflexivity.
Qed.

Lemma pow2_xI n : 2 ^ Z.pos n~1 = 2 ^ Z.pos n * 2 ^ Z.pos n * 2.
Proof.
  replace (Z.pos n~1) with (Z.pos n + Z.pos n + 1) by lia.
  rewrite !Z.pow_add_r by lia. reflexivity.
Qed.

Lemma pow2_xO n : 2 ^ Z.pos n~0 = 2 ^ Z.pos n * 2 ^ Z.pos n.
Proof.
  replace (Z.pos n~0) with (Z.pos n + Z.pos n) by lia.
  rewrite Z.pow_add_r by lia. reflexivity.
Qed.

Lemma iter_shr_1_exact (n : positive) (M : Z) : 0 <= M ->
  SpecFloat.iter_pos shr_1 n (Build_shr_record (M * 2 ^ Z.pos n) false false) =
  Build_shr_record M false false.
Proof.
  revert M; induction n as [n IH|n IH|]; intros M HM.
  - rewrite pow2_xI.
    replace (M * (2 ^ Z.pos n * 2 ^ Z.pos n * 2)) with ((M * 2 ^ Z.pos n * 2 ^ Z.pos n) * 2) by ring.
    cbn [SpecFloat.iter_pos]. rewrite shr_1_even by nia. rewrite IH by nia. apply IH. exact HM.
  - rewrite pow2_xO.
    replace (M * (2 ^ Z.pos n * 2 ^ Z.pos n)) with ((M * 2 ^ Z.pos n) * 2 ^ Z.pos n) by ring.
    cbn [SpecFloat.iter_pos]. rewrite IH by nia. apply IH. exact HM.
  - replace (M * 2 ^ 1) with (M * 2) by lia. apply shr_1_even. exact HM.
Qed.

(** The 24-bit mantissa of a positive integer below 2^24. *)
Lemma normal_mantissa w :
  Z.pos w < 2 ^ 24 ->
  exists m, Z.pos m = Z.pos w * 2 ^ (24 - Z.pos (digits2_pos w)) /\
            Z.pos (digits2_pos m) = 24.
Proof.
  intros Hw. pose proof (digits_bound w Hw) as Hd.
  destruct (24 - Z.pos (digits2_pos w)) as [|q|q] eqn:Hq; try lia.
  - exists w. split; [lia | lia].
  - exists (Pos.iter xO w q). split; [apply iter_xO_Z|]. rewrite iter_xO_digits. lia.
Qed.

Lemma binary_round_exact s M E w :
  Z.pos w < 2 ^ 24 -> -23 <= E <= 0 -> Z.pos M = Z.pos w * 2 ^ (- E) ->
  exists m, binary_round 24 128 s M E = S754_finite s m (Z.pos (digits2_pos w) - 24) /\
            Z.pos m = Z.pos w * 2 ^ (24 - Z.pos (digits2_pos w)) /\
            Z.pos (digits2_pos m) = 24.
Proof.
  intros Hw HE HM. pose proof (digits_bound w Hw) as Hd.
  destruct (normal_mantissa w Hw) as (m & Hm & Hdm).
  exists m. split; [|split; assumption].
  assert (HdM : Z.pos (digits2_pos M) = Z.pos (digits2_pos w) - E).
  { destruct E as [|p|p]; try lia.
    - change (- 0) with 0 in HM. rewrite Z.pow_0_r, Z.mul_1_r in HM.
      injection HM as ->. lia.
    - change (- Z.neg p) with (Z.pos p) in HM.
      rewrite <- iter_xO_Z in HM. injection HM as ->.
      rewrite iter_xO_digits. lia. }
  unfold binary_round, fexp, emin. rewrite HdM.
  replace (Z.max (Z.pos (digits2_pos w) - E + E - 24) (3 - 128 - 24))
    with (Z.pos (digits2_pos w) - 24) by lia.
  unfold shl_align.
  destruct (Z.pos (digits2_pos w) - 24 - E) as [|q|q] eqn:Hq.
  - assert (E = Z.pos (digits2_pos w) - 24) by lia. subst E.
    assert (M = m) by (apply Pos2Z.inj; rewrite HM, Hm; f_equal; f_equal; lia). subst M.
    apply round_aux_canonical; lia.
  - unfold binary_round_aux, shr_fexp, fexp, emin. cbn [Zdigits2 shr_record_of_loc].
    rewrite HdM.
    replace (Z.max (Z.pos (digits2_pos w) - E + E - 24) (3 - 128 - 24) - E) with (Z.pos q) by lia.
    cbn [shr].
    replace (Z.pos M) with (Z.pos m * 2 ^ Z.pos q).
    2:{ rewrite HM, Hm, <- Z.mul_assoc, <- Z.pow_add_r by lia. f_equal. f_equal. lia. }
    rewrite iter_shr_1_exact by lia.
    cbn [shr_m loc_of_shr_record round_nearest_even Zdigits2]. rewrite Hdm.
    replace (Z.max (24 + (E + Z.pos q) - 24) (3 - 128 - 24) - (E + Z.pos q)) with 0 by lia.
    cbn [shr shr_m shr_record_of_loc].
    destruct (Z.leb_spec (E + Z.pos q) (128 - 24)); [|lia].
    f_equal. lia.
  - assert (Pos.iter xO M q = m).
    { apply Pos2Z.inj. rewrite iter_xO_Z, HM, Hm, <- Z.mul_assoc, <- Z.pow_add_r by lia.
      f_equal. f_equal. lia. }
    subst m. apply round_aux_canonical; lia.
Qed.

(** The float of a nonzero integer below 2^24 in magnitude. *)
Lemma of_int_canonical z :
  z <> 0 -> - 2 ^ 24 < z < 2 ^ 24 ->
  exists m e, of_int z = S754_finite (z <? 0) m e /\
              -23 <= e <= 0 /\ Z.pos m = Z.abs z * 2 ^ (- e).
Proof.
  intros Hz Hb. unfold of_int, binary_normalize, prec, emax.
  destruct z as [|w|w]; [contradiction| |].
  - destruct (binary_round_exact false w 0 w) as (m & -> & Hm & Hd); [lia | lia | simpl; lia |].
    pose proof (digits_bound w ltac:(lia)).
    eexists; eexists. split; [reflexivity|]. split; [lia|].
    rewrite Hm. f_equal. f_equal. lia.
  - destruct (binary_round_exact true w 0 w) as (m & -> & Hm & Hd); [lia | lia | simpl; lia |].
    pose proof (digits_bound w ltac:(lia)).
    eexists; eexists. split; [reflexivity|]. split; [lia|].
    rewrite Hm. f_equal. f_equal. lia.
Qed.

(** Rounding an integer that is given with trailing zero bits yields its
    float. *)
Lemma binary_normalize_exact M E z :
  -23 <= E <= 0 -> M = z * 2 ^ (- E) -> - 2 ^ 24 < z < 2 ^ 24 ->
  binary_normalize 24 128 M E false = of_int z.
Proof.
  intros HE HM Hz. assert (Hp : 0 < 2 ^ (- E)) by (apply Z.pow_pos_nonneg; lia).
  unfold of_int, binary_normalize, prec, emax.
  destruct z as [|w|w].
  - subst M. reflexivity.
  - destruct M as [|M|M]; try nia.
    destruct (binary_round_exact false M E w) as (m & -> & Hm & _); [lia | lia | lia |].
    destruct (binary_round_exact false w 0 w) as (m' & -> & Hm' & _); [lia | lia | simpl; lia |].
    f_equal. apply Pos2Z.inj. lia.
  - destruct M as [|M|M]; try nia.
    destruct (binary_round_exact true M E w) as (m & -> & Hm & _); [lia | lia | lia |].
    destruct (binary_round_exact true w 0 w) as (m' & -> & Hm' & _); [lia | lia | simpl; lia |].
    f_equal. apply Pos2Z.inj. lia.
Qed.

Lemma aligned_mantissa (s : bool) m e ez z :
  ez <= e <= 0 -> Z.pos m = Z.abs z * 2 ^ (- e) -> s = (z <? 0) ->
  cond_Zopp s (Z.pos (fst (shl_align m e ez))) = z * 2 ^ (- ez).
Proof.
  intros He Hm Hs. unfold shl_align.
  assert (Hval : Z.pos (fst (match ez - e with
                             | Z.neg d => (Pos.iter xO m d, ez)
                             | _ => (m, e)
                             end)) = Z.abs z * 2 ^ (- ez)).
  { destruct (ez - e) as [|d|d] eqn:Hd; try lia; cbn [fst].
    - rewrite Hm. f_equal. f_equal. lia.
    - rewrite iter_xO_Z, Hm, <- Z.mul_assoc, <- Z.pow_add_r by lia. f_equal. f_equal. lia. }
  rewrite Hval. subst s. unfold cond_Zopp.
  destruct (Z.ltb_spec z 0); lia.
Qed.

(** The float sum of two small integers is the float of their sum. *)
Lemma add_of_int a b :
  - 2 ^ 24 < a < 2 ^ 24 -> - 2 ^ 24 < b < 2 ^ 24 -> - 2 ^ 24 < a + b < 2 ^ 24 ->
  add (of_int a) (of_int b) = of_int (a + b).
Proof.
  intros Ha Hb Hab.
  destruct (Z.eq_dec a 0) as [->|Hna].
  { rewrite Z.add_0_l. change (of_int 0) with (S754_zero false).
    destruct (Z.eq_dec b 0) as [->|Hnb]; [reflexivity|].
    destruct (of_int_canonical b Hnb Hb) as (m & e & -> & _). reflexivity. }
  destruct (Z.eq_dec b 0) as [->|Hnb].
  { rewrite Z.add_0_r. change (of_int 0) with (S754_zero false).
    destruct (of_int_canonical a Hna Ha) as (m & e & -> & _). reflexivity. }
  destruct (of_int_canonical a Hna Ha) as (ma & ea & -> & Hea & Hma).
  destruct (of_int_canonical b Hnb Hb) as (mb & eb & -> & Heb & Hmb).
  unfold add, SFadd, prec, emax.
  rewrite (aligned_mantissa _ ma ea (Z.min ea eb) a) by (try reflexivity; try assumption; lia).
  rewrite (aligned_mantissa _ mb eb (Z.min ea eb) b) by (try reflexivity; try assumption; lia).
  apply binary_normalize_exact; [lia | ring | exact Hab].
Qed.

(** A float sum of small integers whose partial sums stay below 2^24 is
    the float of their sum: nothing is rounded. *)
Lemma fold_add_of_int (D : Z) (l : list Z) (a : Z) :
  0 <= D ->
  Forall (fun x => Z.abs x <= D) l ->
  Z.abs a + D * Z.of_nat (length l) < 2 ^ 24 ->
  fold_left add (map of_int l) (of_int a) = of_int (fold_left Z.add l a).
Proof.
  intros HD. revert a; induction l as [|x l IH]; intros a Hl Ha; [reflexivity|].
  apply Forall_cons in Hl. destruct Hl as [Hx Hl].
  simpl length in Ha. rewrite Nat2Z.inj_succ in Ha.
  simpl. rewrite add_of_int by nia. apply IH; [exact Hl | nia].
Qed.

Lemma signed_diff_bound (vals : list Z) (i : nat) :
  Forall uint16 vals -> Z.abs (signed_diff vals i) <= 65535.
Proof.
  intros Hu. unfold signed_diff.
  assert (Hk : forall k, 0 <= default 0 (vals !! k) < 65536).
  { intros k. destruct (vals !! k) as [v|] eqn:Hv; simpl; [|lia].
    exact (Forall_lookup_1 _ _ _ _ Hu Hv). }
  pose proof (Hk (2 * i + 1)%nat). pose proof (Hk (2 * i)%nat). lia.
Qed.

(** With at most 256 probes the accumulation of xydiff rounds nothing:
    the value is the float quotient of the integer sum by the count. *)
Lemma xydiff_of_int_exact (P : nat) (vals : list Z) :
  (P <= 256)%nat ->
  Forall uint16 vals ->
  xydiff_of P (channel_diff_int vals) =
    div (of_int (Zsum (map (signed_diff vals) (seq 0 P)))) (of_int (Z.of_nat P)).
Proof.
  intros HP Hu. unfold xydiff_of, fmean, fsum, channel_diff_int. cbn [fdiv fadd fzero of_Z ops].
  rewrite length_map, length_seq. f_equal.
  rewrite <- (map_map (signed_diff vals) of_int).
  change (S754_zero false) with (of_int 0).
  rewrite (fold_add_of_int 65535); [reflexivity | lia | |].
  - apply List.Forall_forall. intros x Hx. apply in_map_iff in Hx.
    destruct Hx as (i & <- & _). apply signed_diff_bound. exact Hu.
  - rewrite length_map, length_seq. simpl Z.abs. lia.
Qed.

End Binary32_facts.

(** * binary32: a fixed-point file multiplied by a power of two

    Rounding keeps the leading 24 digits of a mantissa and never looks at
    the exponent, as long as the result is a normal number.  So every
    intermediate value of the magnitude run on the file multiplied by
    2^d is the value of the original run with d added to its exponent
    (2d for the squares), and the quotients are the same floats. *)

Section Binary32_scaling.
Import Binary32.

Lemma digits_spec m :
  2 ^ (Z.pos (digits2_pos m) - 1) <= Z.pos m < 2 ^ Z.pos (digits2_pos m).
Proof.
  rewrite digits2_size. pose proof (Pos.size_gt m) as Hgt. pose proof (Pos.size_le m) as Hle.
  apply Pos2Z.pos_lt_pos in Hgt. apply Pos2Z.pos_le_pos in Hle.
  rewrite Pos2Z.inj_pow in Hgt, Hle.
  replace (Z.pos (Pos.size m)) with (Z.pos (Pos.size m) - 1 + 1) in Hle at 1 by lia.
  rewrite Z.pow_add_r in Hle by lia. lia.
Qed.

Lemma digits_unique m k :
  2 ^ (k - 1) <= Z.pos m < 2 ^ k -> Z.pos (digits2_pos m) = k.
Proof.
  intros [Hlo Hhi]. pose proof (digits_spec m) as [Hl Hh].
  set (d := Z.pos (digits2_pos m)) in *.
  assert (0 < k).
  { destruct (Z_lt_le_dec 0 k); [assumption|].
    assert (2 ^ k <= 2 ^ 0) by (destruct (Z_lt_le_dec k 0);
      [rewrite Z.pow_neg_r by lia; simpl; lia | apply Z.pow_le_mono_r; lia]).
    simpl in *. lia. }
  destruct (Z_lt_le_dec d k) as [Hlt|Hge].
  - assert (2 ^ d <= 2 ^ (k - 1)) by (apply Z.pow_le_mono_r; lia). lia.
  - destruct (Z_lt_le_dec k d) as [Hlt|Hle]; [|lia].
    assert (2 ^ k <= 2 ^ (d - 1)) by (apply Z.pow_le_mono_r; lia). lia.
Qed.

Lemma shr_m_shr_1 mrs : 0 <= shr_m mrs -> shr_m (shr_1 mrs) = shr_m mrs / 2.
Proof.
  destruct mrs as [m r s]. simpl. intros Hm.
  destruct m as [|[p|p|]|p]; simpl; try lia; try reflexivity.
  - rewrite Pos2Z.inj_xI. apply Z.div_unique with (r := 1); lia.
  - rewrite Pos2Z.inj_xO. apply Z.div_unique with (r := 0); lia.
Qed.

Lemma shr_m_nonneg_shr_1 mrs : 0 <= shr_m mrs -> 0 <= shr_m (shr_1 mrs).
Proof. intros H. rewrite shr_m_shr_1 by exact H. apply Z.div_pos; lia. Qed.

Lemma shr_m_iter n mrs :
  0 <= shr_m mrs -> shr_m (SpecFloat.iter_pos shr_1 n mrs) = shr_m mrs / 2 ^ Z.pos n.
Proof.
  revert mrs; induction n as [n IH|n IH|]; intros mrs Hm; cbn [SpecFloat.iter_pos].
  - assert (H1 : 0 <= shr_m (shr_1 mrs)) by (apply shr_m_nonneg_shr_1; exact Hm).
    assert (H2 : 0 <= shr_m (SpecFloat.iter_pos shr_1 n (shr_1 mrs)))
      by (rewrite IH by exact H1; apply Z.div_pos; lia).
    rewrite IH, IH, shr_m_shr_1 by assumption.
    rewrite !Z.div_div by lia. f_equal. rewrite pow2_xI. ring.
  - assert (H2 : 0 <= shr_m (SpecFloat.iter_pos shr_1 n mrs))
      by (rewrite IH by exact Hm; apply Z.div_pos; lia).
    rewrite IH, IH by assumption.
    rewrite Z.div_div by lia. f_equal. rewrite pow2_xO. ring.
  - rewrite shr_m_shr_1 by exact Hm. reflexivity.
Qed.

Lemma fexp_normal x : -125 <= x -> fexp 24 128 x = x - 24.
Proof. unfold fexp, emin. lia. Qed.

Lemma shr_m_of_loc M l : shr_m (shr_record_of_loc M l) = M.
Proof. destruct l as [|[]]; reflexivity. Qed.

(** Shifting right by [n] keeps the leading 24 digits of a mantissa of
    [24 + n] digits. *)
Lemma shr_leading mrs n E :
  0 <= n -> 2 ^ (23 + n) <= shr_m mrs < 2 ^ (24 + n) ->
  shr mrs E n = ((shr mrs 0 n).1, E + n) /\
  2 ^ 23 <= shr_m (shr mrs 0 n).1 < 2 ^ 24.
Proof.
  intros Hn [Hlo Hhi]. destruct n as [|q|q]; [| |lia].
  - cbn [shr fst]. rewrite Z.add_0_r in *. split; [f_equal; lia | lia].
  - cbn [shr fst]. split; [reflexivity|].
    rewrite shr_m_iter by (pose proof (Z.pow_pos_nonneg 2 (23 + Z.pos q)); lia).
    rewrite !Z.pow_add_r in * by lia.
    assert (0 < 2 ^ Z.pos q) by (apply Z.pow_pos_nonneg; lia).
    split.
    + apply Z.div_le_lower_bound; lia.
    + apply Z.div_lt_upper_bound; lia.
Qed.

Lemma Zdigits2_spec M :
  0 < M -> 2 ^ (Zdigits2 M - 1) <= M < 2 ^ Zdigits2 M.
Proof. destruct M as [|p|p]; try lia. intros _. apply digits_spec. Qed.

Lemma Zdigits2_unique M k :
  0 < M -> 2 ^ (k - 1) <= M < 2 ^ k -> Zdigits2 M = k.
Proof. destruct M as [|p|p]; try lia. intros _. apply digits_unique. Qed.

Lemma Zdigits2_ge M k : 0 <= k -> 2 ^ k <= M -> k + 1 <= Zdigits2 M.
Proof.
  intros Hk HM. assert (0 < M) by (pose proof (Z.pow_pos_nonneg 2 k); lia).
  pose proof (Zdigits2_spec M H) as [_ Hhi].
  destruct (Z_lt_le_dec (Zdigits2 M) (k + 1)) as [Hlt|]; [|lia].
  assert (2 ^ Zdigits2 M <= 2 ^ k) by (apply Z.pow_le_mono_r; lia). lia.
Qed.

Lemma round_nearest_even_bounds m l :
  m <= round_nearest_even m l <= m + 1.
Proof.
  destruct l as [|[]]; cbn [round_nearest_even]; try lia.
  destruct (Z.even m); lia.
Qed.

(** The shape of a rounded result.  A mantissa of at least 24 digits is
    rounded to 24 digits; which digits, and by how much the exponent
    grows, does not depend on the exponent as long as the result is not
    subnormal. *)
Lemma round_aux_shape s M l :
  2 ^ 23 <= M ->
  exists m k,
    Z.pos (digits2_pos m) = 24 /\
    Zdigits2 M - 24 <= k <= Zdigits2 M - 23 /\
    forall E, -100 <= E ->
      binary_round_aux 24 128 s M E l =
      if E + k <=? 104 then S754_finite s m (E + k) else S754_infinity s.
Proof.
  intros HM. assert (HM0 : 0 < M) by lia.
  pose proof (Zdigits2_spec M HM0) as HD.
  pose proof (Zdigits2_ge M 23 ltac:(lia) HM) as HD24.
  set (D := Zdigits2 M) in *.
  set (mrs0 := shr_record_of_loc M l).
  assert (H0 : 2 ^ (23 + (D - 24)) <= shr_m mrs0 < 2 ^ (24 + (D - 24))).
  { unfold mrs0. rewrite shr_m_of_loc.
    replace (23 + (D - 24)) with (D - 1) by lia.
    replace (24 + (D - 24)) with D by lia. exact HD. }
  set (mrs1 := (shr mrs0 0 (D - 24)).1).
  assert (H1 : 2 ^ 23 <= shr_m mrs1 < 2 ^ 24)
    by (apply (shr_leading mrs0 (D - 24) 0); [lia | exact H0]).
  set (m1 := round_nearest_even (shr_m mrs1) (loc_of_shr_record mrs1)).
  pose proof (round_nearest_even_bounds (shr_m mrs1) (loc_of_shr_record mrs1)) as Hm1.
  fold m1 in Hm1.
  assert (Hm1pos : 0 < m1) by lia.
  pose proof (Zdigits2_spec m1 Hm1pos) as HD1.
  set (D1 := Zdigits2 m1) in *.
  assert (HD1r : D1 = 24 \/ (D1 = 25 /\ m1 = 2 ^ 24)).
  { destruct (Z_lt_le_dec m1 (2 ^ 24)) as [Hlt|Hge].
    - left. apply Zdigits2_unique; [exact Hm1pos | simpl; lia].
    - right. split; [|lia]. apply Zdigits2_unique; [exact Hm1pos|].
      change (25 - 1) with 24. change (2 ^ 25) with (2 * 2 ^ 24). lia. }
  set (mrs2 := (shr (Build_shr_record m1 false false) 0 (D1 - 24)).1).
  assert (H2 : 2 ^ 23 <= shr_m mrs2 < 2 ^ 24).
  { apply (shr_leading (Build_shr_record m1 false false) (D1 - 24) 0); [lia|].
    cbn [shr_m]. replace (23 + (D1 - 24)) with (D1 - 1) by lia.
    replace (24 + (D1 - 24)) with D1 by lia. exact HD1. }
  destruct (shr_m mrs2) as [|m|m] eqn:Em; try lia.
  exists m, ((D - 24) + (D1 - 24)). split; [|split].
  - apply digits_unique. exact H2.
  - lia.
  - intros E HE. unfold binary_round_aux, shr_fexp. fold D.
    rewrite (fexp_normal (D + E)) by lia.
    replace (D + E - 24 - E) with (D - 24) by lia.
    fold mrs0.
    destruct (shr_leading mrs0 (D - 24) E ltac:(lia) H0) as [-> _].
    fold mrs1. cbn [shr_record_of_loc]. fold m1. fold D1.
    rewrite (fexp_normal (D1 + (E + (D - 24)))) by lia.
    replace (D1 + (E + (D - 24)) - 24 - (E + (D - 24))) with (D1 - 24) by lia.
    destruct (shr_leading (Build_shr_record m1 false false) (D1 - 24) (E + (D - 24)))
      as [-> _].
    { lia. }
    { cbn [shr_m]. replace (23 + (D1 - 24)) with (D1 - 1) by lia.
      replace (24 + (D1 - 24)) with D1 by lia. exact HD1. }
    fold mrs2. rewrite Em.
    replace (E + (D - 24) + (D1 - 24)) with (E + (D - 24 + (D1 - 24))) by lia.
    reflexivity.
Qed.

Lemma round_aux_scalb s M E l d :
  2 ^ 23 <= M -> -100 <= E -> 0 <= d ->
  binary_round_aux 24 128 s M (E + d) l = scalb d (binary_round_aux 24 128 s M E l).
Proof.
  intros HM HE Hd. destruct (round_aux_shape s M l HM) as (m & k & _ & Hk & Hshape).
  rewrite (Hshape E HE), (Hshape (E + d)) by lia.
  replace (E + d + k) with (E + k + d) by lia.
  destruct (Z.leb_spec (E + k) 104); cbn [scalb].
  - reflexivity.
  - destruct (Z.leb_spec (E + k + d) 104); [lia | reflexivity].
Qed.

(** A rounded nonnegative result whose exponent cannot fall below [lo]. *)
Lemma round_aux_regular M E l lo :
  2 ^ 23 <= M -> -100 <= E -> lo <= E + (Zdigits2 M - 24) ->
  exists m e, Z.pos (digits2_pos m) = 24 /\ lo <= e /\
    binary_round_aux 24 128 false M E l =
    if e <=? 104 then S754_finite false m e else S754_infinity false.
Proof.
  intros HM HE Hlo. destruct (round_aux_shape false M l HM) as (m & k & Hm & Hk & Hshape).
  exists m, (E + k). split; [exact Hm|]. split; [lia|]. apply Hshape. exact HE.
Qed.

Lemma shl_align_fst m e ez :
  ez <= e -> Z.pos (shl_align m e ez).1 = Z.pos m * 2 ^ (e - ez).
Proof.
  intros H. unfold shl_align. destruct (ez - e) as [|p|p] eqn:E; cbn [fst].
  - replace (e - ez) with 0 by lia. simpl. lia.
  - lia.
  - rewrite iter_xO_Z. replace (e - ez) with (Z.pos p) by lia. reflexivity.
Qed.

Lemma shl_align_shift m e ez d :
  (shl_align m (e + d) (ez + d)).1 = (shl_align m e ez).1.
Proof. unfold shl_align. replace (ez + d - (e + d)) with (ez - e) by lia. destruct (ez - e); reflexivity. Qed.

(** The sum of two positive normal numbers, before rounding. *)
Lemma add_finite mx ex my ey :
  Z.pos (digits2_pos mx) = 24 -> Z.pos (digits2_pos my) = 24 ->
  exists M, 2 ^ (23 + (Z.max ex ey - Z.min ex ey)) <= M /\
    forall d, add (S754_finite false mx (ex + d)) (S754_finite false my (ey + d)) =
              binary_round_aux 24 128 false M (Z.min ex ey + d) loc_Exact.
Proof.
  intros Hx Hy.
  pose proof (digits_spec mx) as Hmx. pose proof (digits_spec my) as Hmy.
  rewrite Hx in Hmx. rewrite Hy in Hmy. change (24 - 1) with 23 in *.
  set (ez := Z.min ex ey).
  set (ax := (shl_align mx ex ez).1). set (ay := (shl_align my ey ez).1).
  assert (Hax : Z.pos ax = Z.pos mx * 2 ^ (ex - ez)) by (apply shl_align_fst; lia).
  assert (Hay : Z.pos ay = Z.pos my * 2 ^ (ey - ez)) by (apply shl_align_fst; lia).
  assert (Hpx : 1 <= 2 ^ (ex - ez)) by (pose proof (Z.pow_pos_nonneg 2 (ex - ez)); lia).
  assert (Hpy : 1 <= 2 ^ (ey - ez)) by (pose proof (Z.pow_pos_nonneg 2 (ey - ez)); lia).
  assert (Hbig : 2 ^ (23 + (Z.max ex ey - ez)) <= Z.pos (ax + ay)).
  { rewrite Z.pow_add_r by lia. rewrite Pos2Z.inj_add, Hax, Hay.
    assert (Hez : ez = Z.min ex ey) by reflexivity.
    destruct (Z_le_gt_dec ex ey).
    - replace (Z.max ex ey - ez) with (ey - ez) by lia.
      assert (2 ^ 23 * 2 ^ (ey - ez) <= Z.pos my * 2 ^ (ey - ez))
        by (apply Z.mul_le_mono_nonneg_r; lia).
      pose proof (Z.mul_pos_pos (Z.pos mx) (2 ^ (ex - ez))). lia.
    - replace (Z.max ex ey - ez) with (ex - ez) by lia.
      assert (2 ^ 23 * 2 ^ (ex - ez) <= Z.pos mx * 2 ^ (ex - ez))
        by (apply Z.mul_le_mono_nonneg_r; lia).
      pose proof (Z.mul_pos_pos (Z.pos my) (2 ^ (ey - ez))). lia. }
  exists (Z.pos (ax + ay)). split; [exact Hbig|].
  intros d. unfold add. cbn [fadd]. unfold SFadd.
  replace (Z.min (ex + d) (ey + d)) with (ez + d) by lia.
  rewrite !shl_align_shift. fold ax ay. cbn [cond_Zopp].
  change (Z.pos ax + Z.pos ay) with (Z.pos (ax + ay)).
  unfold binary_normalize, binary_round, prec, emax.
  assert (HD : 24 <= Z.pos (digits2_pos (ax + ay))).
  { apply (Zdigits2_ge (Z.pos (ax + ay)) 23); [lia|].
    etransitivity; [|exact Hbig]. apply Z.pow_le_mono_r; lia. }
  unfold shl_align.
  destruct (fexp 24 128 (Z.pos (digits2_pos (ax + ay)) + (ez + d)) - (ez + d)) as [|p|p] eqn:E;
    try reflexivity.
  unfold fexp, emin in E. lia.
Qed.

Lemma add_scalb d x y :
  0 <= d -> regular x -> regular y ->
  regular (add x y) /\ add (scalb d x) (scalb d y) = scalb d (add x y).
Proof.
  intros Hd Hx Hy.
  destruct x as [[]|[]| |[] mx ex]; try contradiction;
  destruct y as [[]|[]| |[] my ey]; try contradiction;
    try (split; [exact I | reflexivity]);
    try (split; [exact I | cbn [scalb]; destruct (_ <=? _); reflexivity]);
    try (split; [first [exact Hx | exact Hy]
                | unfold add, SFadd, scalb; destruct (_ <=? _); reflexivity]).
  destruct Hx as [Hx Hex], Hy as [Hy Hey].
  destruct (add_finite mx ex my ey Hx Hy) as (M & HM & Hadd).
  assert (HM23 : 2 ^ 23 <= M).
  { etransitivity; [|exact HM]. apply Z.pow_le_mono_r; lia. }
  assert (HD : 23 + (Z.max ex ey - Z.min ex ey) + 1 <= Zdigits2 M)
    by (apply Zdigits2_ge; [lia | exact HM]).
  destruct (round_aux_shape false M loc_Exact HM23) as (m & k & Hm & Hk & Hshape).
  pose proof (Hadd 0) as H0. rewrite !Z.add_0_r in H0.
  rewrite (Hshape (Z.min ex ey)) in H0 by lia.
  pose proof (Hadd d) as H1. rewrite (Hshape (Z.min ex ey + d)) in H1 by lia.
  rewrite H0. split.
  - destruct (_ <=? _); [|exact I]. split; [exact Hm | lia].
  - cbn [scalb].
    destruct (Z.leb_spec (ex + d) 104), (Z.leb_spec (ey + d) 104);
      [rewrite H1| | |];
      destruct (Z.leb_spec (Z.min ex ey + k) 104); cbn [scalb];
      repeat match goal with |- context [?a <=? 104] => destruct (Z.leb_spec a 104) end;
      try reflexivity; try lia; f_equal; lia.
Qed.

Lemma mul_square_scalb d x :
  0 <= d -> regular x ->
  regular (mul x x) /\ mul (scalb d x) (scalb d x) = scalb (2 * d) (mul x x).
Proof.
  intros Hd Hx.
  destruct x as [[]|[]| |[] mx ex]; try contradiction;
    try (split; [exact I | reflexivity]).
  destruct Hx as [Hx Hex].
  pose proof (digits_spec mx) as Hmx. rewrite Hx in Hmx. change (24 - 1) with 23 in Hmx.
  set (M := Z.pos (mx * mx)).
  assert (HM : 2 ^ 46 <= M).
  { unfold M. rewrite Pos2Z.inj_mul. change (2 ^ 46) with (2 ^ 23 * 2 ^ 23).
    apply Z.mul_le_mono_nonneg; lia. }
  assert (HM23 : 2 ^ 23 <= M) by (change (2 ^ 46) with (2 ^ 23 * 2 ^ 23) in HM; lia).
  assert (HD : 47 <= Zdigits2 M) by (apply (Zdigits2_ge M 46); [lia | exact HM]).
  destruct (round_aux_shape false M loc_Exact HM23) as (m & k & Hm & Hk & Hshape).
  assert (H0 : mul (S754_finite false mx ex) (S754_finite false mx ex) =
               if ex + ex + k <=? 104 then S754_finite false m (ex + ex + k)
               else S754_infinity false)
    by (apply Hshape; lia).
  rewrite H0. split.
  - destruct (_ <=? _); [|exact I]. split; [exact Hm | lia].
  - cbn [scalb]. destruct (Z.leb_spec (ex + d) 104).
    + assert (H1 : mul (S754_finite false mx (ex + d)) (S754_finite false mx (ex + d)) =
               if ex + d + (ex + d) + k <=? 104
               then S754_finite false m (ex + d + (ex + d) + k)
               else S754_infinity false)
        by (apply Hshape; lia).
      rewrite H1.
      destruct (Z.leb_spec (ex + ex + k) 104); cbn [scalb];
      repeat match goal with |- context [?a <=? 104] => destruct (Z.leb_spec a 104) end;
      try reflexivity; try lia; f_equal; lia.
    + change (mul (S754_infinity false) (S754_infinity false)) with (S754_infinity false).
      destruct (Z.leb_spec (ex + ex + k) 104); cbn [scalb];
      repeat match goal with |- context [?a <=? 104] => destruct (Z.leb_spec a 104) end;
      try reflexivity; lia.
Qed.

Lemma sqrt_core_scalb m e d :
  Z.pos (digits2_pos m) = 24 -> -23 <= e -> 0 <= d ->
  exists q e' l, 2 ^ 23 <= q /\ -23 <= e' /\
    SFsqrt_core_binary 24 128 (Z.pos m) e = (q, e', l) /\
    SFsqrt_core_binary 24 128 (Z.pos m) (e + 2 * d) = (q, e' + d, l).
Proof.
  intros Hm He Hd.
  pose proof (digits_spec m) as Hb. rewrite Hm in Hb. change (24 - 1) with 23 in Hb.
  unfold SFsqrt_core_binary. cbn [Zdigits2]. rewrite Hm.
  rewrite !Z.div2_div.
  rewrite (fexp_normal ((24 + e + 1) / 2)) by (Z.div_mod_to_equations; lia).
  rewrite (fexp_normal ((24 + (e + 2 * d) + 1) / 2)) by (Z.div_mod_to_equations; lia).
  replace (Z.min ((24 + (e + 2 * d) + 1) / 2 - 24) ((e + 2 * d) / 2))
    with (Z.min ((24 + e + 1) / 2 - 24) (e / 2) + d) by (Z.div_mod_to_equations; lia).
  assert (Hs : e - 2 * Z.min ((24 + e + 1) / 2 - 24) (e / 2) = 23 \/
               e - 2 * Z.min ((24 + e + 1) / 2 - 24) (e / 2) = 24)
    by (Z.div_mod_to_equations; lia).
  assert (He' : -23 <= Z.min ((24 + e + 1) / 2 - 24) (e / 2))
    by (Z.div_mod_to_equations; lia).
  set (e' := Z.min ((24 + e + 1) / 2 - 24) (e / 2)) in *.
  replace (e + 2 * d - 2 * (e' + d)) with (e - 2 * e') by lia.
  set (m' := match e - 2 * e' with
             | 0 => Z.pos m | Z.pos _ => Z.shiftl (Z.pos m) (e - 2 * e') | Z.neg _ => 0 end).
  assert (Hm' : 2 ^ 46 <= m').
  { unfold m'. destruct Hs as [-> | ->]; rewrite Z.shiftl_mul_pow2 by lia.
    - change (2 ^ 46) with (2 ^ 23 * 2 ^ 23). lia.
    - change (2 ^ 46) with (2 ^ 23 * 2 ^ 23). change (2 ^ 24) with (2 ^ 23 * 2). lia. }
  destruct (Z.sqrtrem m') as [q r] eqn:Eq.
  assert (Hq : q = Z.sqrt m') by (rewrite <- Z.sqrtrem_sqrt, Eq; reflexivity).
  eexists q, e', _. split; [|split; [|split; reflexivity]].
  - rewrite Hq. apply Z.sqrt_le_square; [lia | lia |].
    change (2 ^ 23 * 2 ^ 23) with (2 ^ 46). exact Hm'.
  - exact He'.
Qed.

Lemma sqrt_scalb d t :
  0 <= d -> regular t -> is_finite (scalb (2 * d) t) = true ->
  regular (sqrt t) /\ sqrt (scalb (2 * d) t) = scalb d (sqrt t).
Proof.
  intros Hd Ht Hfin.
  destruct t as [[]|[]| |[] m e]; try contradiction; try discriminate;
    try (split; [exact I | reflexivity]).
  destruct Ht as [Hm He]. cbn [scalb] in *.
  destruct (Z.leb_spec (e + 2 * d) 104); [|discriminate].
  destruct (sqrt_core_scalb m e d Hm He Hd) as (q & e' & l & Hq & He' & H0 & H1).
  assert (Hs0 : sqrt (S754_finite false m e) = binary_round_aux 24 128 false q e' l)
    by (unfold sqrt, SFsqrt, prec, emax; rewrite H0; reflexivity).
  assert (Hs1 : sqrt (S754_finite false m (e + 2 * d)) =
                binary_round_aux 24 128 false q (e' + d) l)
    by (unfold sqrt, SFsqrt, prec, emax; rewrite H1; reflexivity).
  rewrite Hs0, Hs1. split.
  - destruct (round_aux_regular q e' l (-23) Hq) as (m1 & e1 & Hm1 & He1 & ->).
    + lia.
    + pose proof (Zdigits2_ge q 23 ltac:(lia) Hq). lia.
    + destruct (_ <=? _); [|exact I]. split; assumption.
  - apply round_aux_scalb; lia.
Qed.

Lemma div_core_scalb ma ea mn en :
  Z.pos (digits2_pos ma) = 24 -> Z.pos (digits2_pos mn) = 24 -> -76 <= ea - en ->
  exists q e' l, 2 ^ 23 <= q /\ -100 <= e' /\
    forall d, 0 <= d ->
      SFdiv_core_binary 24 128 (Z.pos ma) (ea + d) (Z.pos mn) en = (q, e' + d, l).
Proof.
  intros Ha Hn He.
  pose proof (digits_spec ma) as Hba. rewrite Ha in Hba. change (24 - 1) with 23 in Hba.
  pose proof (digits_spec mn) as Hbn. rewrite Hn in Hbn. change (24 - 1) with 23 in Hbn.
  destruct (Z.div_eucl (Z.shiftl (Z.pos ma) 24) (Z.pos mn)) as [q r] eqn:Eq.
  assert (Hq : q = Z.shiftl (Z.pos ma) 24 / Z.pos mn) by (unfold Z.div; rewrite Eq; reflexivity).
  exists q, (ea - en - 24), (new_location (Z.pos mn) r). split; [|split].
  - rewrite Hq, Z.shiftl_mul_pow2 by lia. apply Z.div_le_lower_bound; [lia|].
    change (2 ^ 24) with (2 * 2 ^ 23) in *. nia.
  - lia.
  - intros d Hd. unfold SFdiv_core_binary. cbn [Zdigits2]. rewrite Ha, Hn.
    rewrite (fexp_normal (24 + (ea + d) - (24 + en))) by lia.
    replace (Z.min (24 + (ea + d) - (24 + en) - 24) (ea + d - en)) with (ea - en - 24 + d) by lia.
    replace (ea + d - en - (ea - en - 24 + d)) with 24 by lia.
    rewrite Eq. reflexivity.
Qed.

Lemma div_scalb_l d a mn en :
  0 <= d -> regular a -> Z.pos (digits2_pos mn) = 24 -> en <= 53 ->
  is_finite (scalb d a) = true ->
  div (scalb d a) (S754_finite false mn en) = scalb d (div a (S754_finite false mn en)).
Proof.
  intros Hd Ha Hn Hen Hfin.
  destruct a as [[]|[]| |[] ma ea]; try contradiction; try discriminate;
    try reflexivity.
  destruct Ha as [Ha Hea]. cbn [scalb] in *.
  destruct (Z.leb_spec (ea + d) 104); [|discriminate].
  destruct (div_core_scalb ma ea mn en Ha Hn ltac:(lia)) as (q & e' & l & Hq & He' & Hcore).
  pose proof (Hcore 0 ltac:(lia)) as H0. rewrite !Z.add_0_r in H0.
  pose proof (Hcore d Hd) as H1.
  unfold div, SFdiv, prec, emax. rewrite H0, H1. cbn [xorb].
  apply round_aux_scalb; assumption.
Qed.

Lemma div_scalb_both d x y :
  is_finite (scalb d x) = true -> is_finite (scalb d y) = true ->
  div (scalb d x) (scalb d y) = div x y.
Proof.
  intros Hx Hy.
  destruct x as [sx|sx| |sx mx ex]; try discriminate;
  destruct y as [sy|sy| |sy my ey]; try discriminate; cbn [scalb] in *;
    repeat match goal with
           | H : context [?a <=? 104] |- _ => destruct (Z.leb_spec a 104); [|discriminate]
           end;
    try reflexivity.
  unfold div, SFdiv, SFdiv_core_binary.
  replace (Zdigits2 (Z.pos mx) + (ex + d) - (Zdigits2 (Z.pos my) + (ey + d)))
    with (Zdigits2 (Z.pos mx) + ex - (Zdigits2 (Z.pos my) + ey)) by lia.
  replace (ex + d - (ey + d)) with (ex - ey) by lia.
  reflexivity.
Qed.

Lemma of_int_scalb v d :
  0 <= v -> 0 <= d -> v * 2 ^ d < 2 ^ 24 ->
  regular (of_int v) /\ of_int (v * 2 ^ d) = scalb d (of_int v).
Proof.
  intros Hv Hd Hb. destruct v as [|w|w]; [split; [exact I | reflexivity] | | lia].
  assert (Hp : 0 < 2 ^ d) by (apply Z.pow_pos_nonneg; lia).
  assert (Hw : Z.pos w < 2 ^ 24) by nia.
  destruct (Z.pos w * 2 ^ d) as [|w'|w'] eqn:Ew; try lia.
  destruct (binary_round_exact false w 0 w Hw ltac:(lia)) as (m & Hr & Hm & Hdm);
    [simpl; lia|].
  destruct (binary_round_exact false w' 0 w' Hb ltac:(lia)) as (m' & Hr' & Hm' & Hdm');
    [simpl; lia|].
  pose proof (digits_spec w) as Hsw.
  assert (Hdw : Z.pos (digits2_pos w') = Z.pos (digits2_pos w) + d).
  { apply digits_unique. rewrite <- Ew.
    replace (Z.pos (digits2_pos w) + d - 1) with (Z.pos (digits2_pos w) - 1 + d) by lia.
    rewrite !Z.pow_add_r by lia. nia. }
  pose proof (digits_bound w Hw) as Hle. pose proof (digits_bound w' Hb) as Hle'.
  assert (m' = m) as ->.
  { apply Pos2Z.inj_pos. rewrite Hm', Hm, <- Ew, Hdw.
    assert (2 ^ (24 - Z.pos (digits2_pos w)) =
            2 ^ d * 2 ^ (24 - (Z.pos (digits2_pos w) + d))) as ->
      by (rewrite <- Z.pow_add_r by lia; f_equal; lia).
    ring. }
  unfold of_int, binary_normalize, prec, emax. rewrite Hr, Hr'. split.
  - split; [exact Hdm | lia].
  - cbn [scalb]. destruct (Z.leb_spec (Z.pos (digits2_pos w) - 24 + d) 104); [|lia].
    f_equal. lia.
Qed.

Lemma of_int_count n :
  0 < n < 2 ^ 32 ->
  exists m e, of_int n = S754_finite false m e /\ Z.pos (digits2_pos m) = 24 /\ e <= 9.
Proof.
  intros Hn. destruct n as [|w|w]; try lia.
  destruct (Z_lt_le_dec (Z.pos w) (2 ^ 24)) as [Hlt|Hge].
  - destruct (binary_round_exact false w 0 w Hlt ltac:(lia)) as (m & Hr & _ & Hdm);
      [simpl; lia|].
    pose proof (digits_bound w Hlt).
    exists m, (Z.pos (digits2_pos w) - 24). split; [exact Hr|]. split; [exact Hdm | lia].
  - assert (HD : 25 <= Z.pos (digits2_pos w)) by (apply (Zdigits2_ge (Z.pos w) 24); lia).
    assert (HD' : Z.pos (digits2_pos w) <= 32).
    { pose proof (digits_spec w) as [Hlo _].
      destruct (Z_lt_le_dec 32 (Z.pos (digits2_pos w))) as [Hgt|]; [|lia].
      assert (2 ^ 32 <= 2 ^ (Z.pos (digits2_pos w) - 1)) by (apply Z.pow_le_mono_r; lia).
      lia. }
    assert (H23 : 2 ^ 23 <= Z.pos w) by (change (2 ^ 24) with (2 * 2 ^ 23) in Hge; lia).
    destruct (round_aux_shape false (Z.pos w) loc_Exact H23) as (m & k & Hm & Hk & Hshape).
    cbn [Zdigits2] in Hk.
    exists m, k. split; [|split; [exact Hm | lia]].
    unfold of_int, binary_normalize, binary_round, prec, emax, shl_align.
    rewrite (fexp_normal (Z.pos (digits2_pos w) + 0)) by lia.
    destruct (Z.pos (digits2_pos w) + 0 - 24 - 0) eqn:E; try lia.
    rewrite (Hshape 0) by lia. rewrite Z.add_0_l.
    destruct (Z.leb_spec k 104); [reflexivity | lia].
Qed.

Lemma sqrt_finite x : is_finite (sqrt x) = true -> is_finite x = true.
Proof. destruct x as [|[]| |]; simpl; try reflexivity; discriminate. Qed.

Lemma div_finite_l x y : is_finite (div x y) = true -> is_finite x = true.
Proof.
  intros H. destruct (is_finite x) eqn:E; [reflexivity|].
  rewrite (div_not_finite_l x y E) in H. discriminate.
Qed.

Lemma fold_add_finite (l : list float) a x :
  In x l -> is_finite (fold_left add l a) = true -> is_finite x = true.
Proof.
  intros Hin H. destruct (is_finite x) eqn:E; [reflexivity|].
  rewrite (fold_add_not_finite l a x Hin E) in H. discriminate.
Qed.

Lemma signals_scalb d (vals : list Z) :
  0 <= d -> Forall (fun v => 0 <= v /\ 2 ^ d * v < 2 ^ 24) vals ->
  Forall regular (map of_int vals) /\
  map of_int (map (Z.mul (2 ^ d)) vals) = map (scalb d) (map of_int vals).
Proof.
  intros Hd. induction 1 as [|v vals [Hv Hb] _ [IH1 IH2]]; [split; [constructor | reflexivity]|].
  destruct (of_int_scalb v d Hv Hd ltac:(lia)) as [Hr Hs].
  split; [constructor; assumption|].
  cbn [map]. rewrite Z.mul_comm, Hs, IH2. reflexivity.
Qed.

Lemma sum_squares_scalb d (xs : list float) :
  0 <= d -> Forall regular xs ->
  regular (sum_squares xs) /\
  sum_squares (map (scalb d) xs) = scalb (2 * d) (sum_squares xs).
Proof.
  intros Hd Hxs. unfold sum_squares.
  change (@fzero float ops) with (scalb (2 * d) (S754_zero false)) at 2.
  assert (Ha : regular (S754_zero false)) by exact I.
  change (@fzero float ops) with (S754_zero false).
  revert Ha. generalize (S754_zero false) as a.
  induction Hxs as [|x xs Hx _ IH]; intros a Ha; [split; [exact Ha | reflexivity]|].
  cbn [map fold_left fadd fmul ops].
  destruct (mul_square_scalb d x Hd Hx) as [Hr Hm].
  destruct (add_scalb (2 * d) a (mul x x) ltac:(lia) Ha Hr) as [Hr' Ha'].
  rewrite Hm, Ha'. apply IH. exact Hr'.
Qed.

Lemma fsum_scalb d (xs : list float) :
  0 <= d -> Forall regular xs ->
  regular (fsum xs) /\ fsum (map (scalb d) xs) = scalb d (fsum xs).
Proof.
  intros Hd Hxs. unfold fsum.
  change (@fzero float ops) with (scalb d (S754_zero false)) at 2.
  assert (Ha : regular (S754_zero false)) by exact I.
  change (@fzero float ops) with (S754_zero false).
  revert Ha. generalize (S754_zero false) as a.
  induction Hxs as [|x xs Hx _ IH]; intros a Ha; [split; [exact Ha | reflexivity]|].
  cbn [map fold_left fadd ops].
  destruct (add_scalb d a x Hd Ha Hx) as [Hr' Ha'].
  rewrite Ha'. apply IH. exact Hr'.
Qed.

Lemma probe_magnitude_scalb d C (sig : list float) i :
  0 <= d -> Forall regular sig ->
  is_finite (probe_magnitude C (map (scalb d) sig) i) = true ->
  regular (probe_magnitude C sig i) /\
  probe_magnitude C (map (scalb d) sig) i = scalb d (probe_magnitude C sig i).
Proof.
  intros Hd Hsig. unfold probe_magnitude. cbn [fsqrt ops].
  change (map (scalb d) sig) with (scalb d <$> sig).
  rewrite <- fmap_drop, <- fmap_take.
  change (scalb d <$> take C (drop (i * C) sig))
    with (map (scalb d) (take C (drop (i * C) sig))).
  assert (Hch : Forall regular (take C (drop (i * C) sig)))
    by (apply Forall_take, Forall_drop; exact Hsig).
  destruct (sum_squares_scalb d _ Hd Hch) as [Hr ->].
  intros Hfin. apply sqrt_scalb; [exact Hd | exact Hr | apply sqrt_finite; exact Hfin].
Qed.

Section Scaled_view.
Variables (d : Z) (C : nat) (recs : list (string * list float)).
Hypothesis Hd : 0 <= d.
Hypothesis Hrecs : forall r, In r recs -> Forall regular r.2.
Hypothesis Hcount : Z.of_nat (length recs) < 2 ^ 32.

Lemma baseline_scalb i :
  is_finite (baseline C (scalb_view d recs) i) = true ->
  baseline C (scalb_view d recs) i = scalb d (baseline C recs i) /\
  forall r, In r recs ->
    probe_magnitude C (map (scalb d) r.2) i = scalb d (probe_magnitude C r.2 i).
Proof.
  unfold baseline, fmean, scalb_view. rewrite !length_map, map_map. cbn [snd fdiv of_Z ops].
  intros Hfin.
  pose proof (div_finite_l _ _ Hfin) as Hsum.
  assert (Hpm : forall r, In r recs ->
            regular (probe_magnitude C r.2 i) /\
            probe_magnitude C (map (scalb d) r.2) i = scalb d (probe_magnitude C r.2 i)).
  { intros r Hr. apply probe_magnitude_scalb; [exact Hd | apply Hrecs; exact Hr |].
    apply (fold_add_finite _ _ _ (in_map (fun r => probe_magnitude C (map (scalb d) r.2) i) _ _ Hr) Hsum). }
  split; [|intros r Hr; apply Hpm; exact Hr].
  assert (Hmap : map (fun r => probe_magnitude C (map (scalb d) r.2) i) recs =
                 map (scalb d) (map (fun r => probe_magnitude C r.2 i) recs)).
  { rewrite map_map. apply map_ext_in. intros r Hr. apply Hpm. exact Hr. }
  rewrite Hmap in Hsum |- *.
  assert (Hreg : Forall regular (map (fun r => probe_magnitude C r.2 i) recs)).
  { apply List.Forall_forall. intros x Hx. apply in_map_iff in Hx as (r & <- & Hr).
    apply Hpm. exact Hr. }
  destruct (fsum_scalb d _ Hd Hreg) as [Hrs Hs].
  rewrite Hs in Hsum |- *.
  destruct recs as [|r0 rs] eqn:E.
  - reflexivity.
  - destruct (of_int_count (Z.of_nat (length (r0 :: rs)))) as (m & e & -> & Hm & He).
    { cbn [length] in *. lia. }
    apply div_scalb_l; [exact Hd | exact Hrs | exact Hm | lia | exact Hsum].
Qed.

Lemma normalized_magnitude_scalb P r :
  In r recs ->
  (forall i, (i < P)%nat -> is_finite (baseline C (scalb_view d recs) i) = true) ->
  normalized_magnitude P C (scalb_view d recs) (map (scalb d) r.2) = normalized_magnitude P C recs r.2.
Proof.
  intros Hr HB. unfold normalized_magnitude, fmean.
  rewrite !length_map. f_equal. f_equal.
  apply map_ext_in. intros i Hi. apply in_seq in Hi.
  destruct (baseline_scalb i (HB i ltac:(lia))) as [HBi Hpm].
  pose proof (HB i ltac:(lia)) as Hfin.
  assert (Hpmfin : is_finite (probe_magnitude C (map (scalb d) r.2) i) = true).
  { unfold baseline, fmean, scalb_view in Hfin. rewrite map_map in Hfin.
    apply div_finite_l in Hfin.
    apply (fold_add_finite _ _ _
             (in_map (fun r => probe_magnitude C (map (scalb d) r.2) i) _ _ Hr) Hfin). }
  rewrite HBi in Hfin |- *. rewrite (Hpm r Hr) in Hpmfin |- *.
  cbn [fdiv ops]. apply div_scalb_both; assumption.
Qed.

End Scaled_view.

Lemma signal_view_scalb d (recs : list (string * list Z)) :
  0 <= d ->
  Forall (fun r : string * list Z => Forall uint16 r.2) recs ->
  Forall (fun r : string * list Z => Forall uint16 r.2)
    (map (fun r => (r.1, map (Z.mul (2 ^ d)) r.2)) recs) ->
  (forall r, In r (signal_view (IntData recs)) -> Forall regular r.2) /\
  signal_view (IntData (map (fun r => (r.1, map (Z.mul (2 ^ d)) r.2)) recs)) =
  scalb_view d (signal_view (IntData recs)).
Proof.
  intros Hd H H'. unfold scalb_view. cbn [signal_view of_Z ops].
  rewrite !map_map. cbn [fst snd].
  assert (Hr : forall r, In r recs ->
            Forall regular (map of_int r.2) /\
            map of_int (map (Z.mul (2 ^ d)) r.2) = map (scalb d) (map of_int r.2)).
  { intros r Hin. apply signals_scalb; [exact Hd|].
    rewrite List.Forall_forall in H, H'.
    pose proof (H r Hin) as Hu.
    pose proof (H' _ (in_map (fun r => (r.1, map (Z.mul (2 ^ d)) r.2)) _ _ Hin)) as Hu'.
    cbn [snd] in Hu'. rewrite List.Forall_forall in Hu, Hu'.
    apply List.Forall_forall. intros v Hv.
    pose proof (Hu v Hv) as [H0 _].
    pose proof (Hu' _ (in_map (Z.mul (2 ^ d)) _ _ Hv)) as [_ H1].
    split; [exact H0|]. change (2 ^ 24) with 16777216. lia. }
  split.
  - intros r Hin. apply in_map_iff in Hin as (r0 & <- & Hin). apply Hr. exact Hin.
  - apply map_ext_in. intros r Hin. f_equal. apply Hr. exact Hin.
Qed.

Lemma writeMagnitude_scalb (NS : nat) (st st' : QCState float)
    (recs : list (string * list Z)) (d : Z) :
  let s := qcsim st in
  let s' := qcsim st' in
  runnable NS s ->
  runnable NS s' ->
  numProbes s' = numProbes s ->
  numChannels s' = numChannels s ->
  simData s = IntData recs ->
  simData s' = IntData (map (fun r => (r.1, map (Z.mul (2 ^ d)) r.2)) recs) ->
  0 <= d ->
  Z.of_nat (numSamples s) < 2 ^ 32 ->
  (forall i, (i < numProbes s)%nat ->
     is_finite (baseline (numChannels s) (signal_view (simData s')) i) = true) ->
  fst (writeMagnitude NS st') = Ok tt /\
  fst (writeMagnitude NS st) = Ok tt /\
  outFile (snd (writeMagnitude NS st')) = outFile (snd (writeMagnitude NS st)).
Proof.
  intros s s' Hwf Hwf' HP HC Hdata Hdata' Hd HN HB.
  rewrite (writeMagnitude_ok NS st Hwf), (writeMagnitude_ok NS st' Hwf').
  fold s s'. split; [reflexivity|]. split; [reflexivity|].
  cbn [snd]. unfold with_output. cbn [outFile]. f_equal.
  destruct Hwf as [[Hcount _ _ Hu] _ _], Hwf' as [[_ _ _ Hu'] _ _].
  rewrite Hdata in Hu. rewrite Hdata' in Hu'.
  destruct (signal_view_scalb d recs Hd Hu Hu') as [Hreg Hview].
  unfold magnitude_lines. rewrite HP, HC. rewrite Hdata' in HB |- *.
  rewrite Hview in HB |- *. rewrite Hdata in Hcount |- *.
  unfold scalb_view at 2.
  rewrite map_map. apply map_ext_in. intros r Hr. cbn [fst snd]. f_equal.
  apply normalized_magnitude_scalb; try assumption.
  rewrite Hcount. exact HN.
Qed.

End Binary32_scaling.

(** * Facts about exact arithmetic *)

Section Exact_facts.
Import Exact.
Local Open Scope R_scope.

Lemma sum_squares_acc_scaled (k : R) (l : list R) (a : R) :
  fold_left (fun total x => total + x * x) (map (Rmult k) l) (k * k * a) =
  k * k * fold_left (fun total x => total + x * x) l a.
Proof.
  revert a; induction l as [|x l IH]; intros a; simpl; [reflexivity|].
  replace (k * k * a + k * x * (k * x)) with (k * k * (a + x * x)) by ring.
  apply IH.
Qed.

Lemma sum_squares_scaled (k : R) (l : list R) :
  sum_squares (map (Rmult k) l) = k * k * sum_squares l.
Proof.
  unfold sum_squares. simpl. rewrite <- sum_squares_acc_scaled.
  f_equal. ring.
Qed.

Lemma sum_squares_acc_nonneg (l : list R) (a : R) :
  0 <= a -> 0 <= fold_left (fun total x => total + x * x) l a.
Proof.
  revert a; induction l as [|x l IH]; intros a Ha; simpl; [exact Ha|].
  apply IH. pose proof (Rle_0_sqr x) as Hx. unfold Rsqr in Hx. lra.
Qed.

Lemma probe_magnitude_scaled (k : R) (C : nat) (vals : list R) (i : nat) :
  0 < k ->
  probe_magnitude C (map (Rmult k) vals) i = k * probe_magnitude C vals i.
Proof.
  intros Hk. unfold probe_magnitude. simpl.
  change (map (Rmult k) vals) with (Rmult k <$> vals).
  rewrite <- fmap_drop, <- fmap_take.
  change (Rmult k <$> take C (drop (i * C) vals))
    with (map (Rmult k) (take C (drop (i * C) vals))).
  rewrite sum_squares_scaled.
  rewrite sqrt_mult_alt by nra.
  rewrite sqrt_square by lra. reflexivity.
Qed.

Lemma fsum_acc_scaled (k : R) (l : list R) (a : R) :
  fold_left Rplus (map (Rmult k) l) (k * a) = k * fold_left Rplus l a.
Proof.
  revert a; induction l as [|x l IH]; intros a; simpl; [reflexivity|].
  rewrite <- Rmult_plus_distr_l. apply IH.
Qed.

Lemma baseline_scaled (k : R) (C : nat) (recs : list (string * list R)) (i : nat) :
  0 < k ->
  baseline C (scale_view k recs) i = k * baseline C recs i.
Proof.
  intros Hk. unfold baseline, fmean, fsum, scale_view. simpl.
  rewrite !length_map, map_map. simpl.
  rewrite (map_ext _ (fun r => k * probe_magnitude C r.2 i))
    by (intros r; apply probe_magnitude_scaled; exact Hk).
  rewrite <- (map_map (fun r => probe_magnitude C r.2 i) (Rmult k)).
  rewrite <- (Rmult_0_r k) at 1. rewrite fsum_acc_scaled.
  unfold Rdiv. rewrite Rmult_assoc. reflexivity.
Qed.

(** In exact arithmetic the normalized magnitude of a sample does not
    change when every value of the file is multiplied by [k > 0]. *)
Lemma normalized_magnitude_scaled (k : R) (P C : nat) (recs : list (string * list R))
    (vals : list R) :
  0 < k ->
  (forall i, (i < P)%nat -> baseline C recs i <> 0) ->
  normalized_magnitude P C (scale_view k recs) (map (Rmult k) vals) =
  normalized_magnitude P C recs vals.
Proof.
  intros Hk HB. unfold normalized_magnitude, fmean, fsum.
  rewrite !length_map. f_equal. f_equal.
  apply map_ext_in. intros i Hi. apply in_seq in Hi.
  rewrite probe_magnitude_scaled, baseline_scaled by exact Hk.
  cbn [fdiv ops]. field. split; [apply HB; lia | lra].
Qed.

End Exact_facts.

(** * The two encodings under [getNextMagnitudes] *)

Section Encoding.
Context {F : Type} {FO : FloatOps F}.

(** Two loops whose bodies leave their states alone and agree on what
    they return, agree on what they return. *)
Lemma forM_agree {A} n lo (b1 b2 : nat -> A -> M F A) acc (st1 st2 : QCState F) :
  (forall i acc, exists r, b1 i acc st1 = (r, st1) /\ b2 i acc st2 = (r, st2)) ->
  exists r, forM n lo b1 acc st1 = (r, st1) /\ forM n lo b2 acc st2 = (r, st2).
Proof.
  intros H. revert lo acc; induction n as [|n IH]; intros lo acc; simpl.
  - exists (Ok acc). split; reflexivity.
  - destruct (H lo acc) as (r & H1 & H2).
    rewrite (bind_run _ _ _ _ _ H1), (bind_run _ _ _ _ _ H2).
    destruct r as [a| e | c m |]; [apply IH | | | ]; eexists; split; reflexivity.
Qed.

Lemma forM_preserves {A} (Q : A -> Prop) n lo (body : nat -> A -> M F A) acc st r st' :
  (forall i acc st r st', Q acc -> body i acc st = (Ok r, st') -> Q r) ->
  Q acc -> forM n lo body acc st = (Ok r, st') -> Q r.
Proof.
  intros H. revert lo acc st; induction n as [|n IH]; intros lo acc st HQ Hrun; simpl in Hrun.
  - injection Hrun as <- _. exact HQ.
  - unfold bind at 1 in Hrun.
    destruct (body lo acc st) as [[a| | |] st1] eqn:Hb; try discriminate.
    apply (IH _ _ _ (H _ _ _ _ _ HQ Hb) Hrun).
Qed.

Lemma signal_agree (vi : list Z) (index : Z) (st1 st2 : QCState F) :
  intensity_float st1 = map of_Z vi ->
  intensity_int st2 = vi ->
  exists r,
    bind (gets intensity_float) (fun v => vector_at v index) st1 = (r, st1) /\
    bind (gets intensity_int) (fun v =>
      bind (vector_at v index) (fun x => ret (of_Z x))) st2 = (r, st2).
Proof.
  intros Hf Hi. unfold bind at 1 2, gets. rewrite Hf, Hi. unfold vector_at.
  destruct (index <? 0).
  - exists (Throw OutOfRange). split; reflexivity.
  - rewrite list_lookup_fmap. destruct (vi !! Z.to_nat index) as [x|]; simpl.
    + exists (Ok (of_Z x)). split; reflexivity.
    + exists (Throw OutOfRange). split; reflexivity.
Qed.

(** The loops over probes and channels return the same on a float vector
    and on the integer vector it was converted from. *)
Lemma magnitude_loops_agree (sf si : Sim F) (vi : list Z) (magnitudes : list F)
    (st1 st2 : QCState F) :
  numProbes sf = numProbes si ->
  numChannels sf = numChannels si ->
  numberFormat sf = 0 ->
  numberFormat si = 1 ->
  intensity_float st1 = map of_Z vi ->
  intensity_int st2 = vi ->
  exists r,
    magnitude_loops sf magnitudes st1 = (r, st1) /\
    magnitude_loops si magnitudes st2 = (r, st2).
Proof.
  intros HP HC Hff Hfi Hf Hi. unfold magnitude_loops. rewrite HP, HC, Hff, Hfi.
  apply forM_agree. intros i a.
  match goal with
  | |- exists r, bind (forM _ 0 ?b1 fzero) _ st1 = _ /\ bind (forM _ 0 ?b2 fzero) _ st2 = _ =>
      destruct (forM_agree (numChannels si) 0 b1 b2 fzero st1 st2) as (r & H1 & H2)
  end.
  - intros j t. cbv zeta. simpl (0 =? 0). simpl (1 =? 0). cbv iota.
    destruct (signal_agree vi
                (to_int (Z.of_nat i * Z.of_nat (numChannels si) + Z.of_nat j)) st1 st2 Hf Hi)
      as (r & H1 & H2).
    rewrite (bind_run _ _ _ _ _ H1), (bind_run _ _ _ _ _ H2).
    destruct r as [x| e | c m |]; eexists; split; reflexivity.
  - rewrite (bind_run _ _ _ _ _ H1), (bind_run _ _ _ _ _ H2).
    destruct r as [x| e | c m |]; eexists; split; reflexivity.
Qed.

Lemma magnitude_loops_length (s : Sim F) (magnitudes : list F) st m st' :
  magnitude_loops s magnitudes st = (Ok m, st') -> length m = length magnitudes.
Proof.
  unfold magnitude_loops. intros Hrun.
  apply (forM_preserves (fun a => length a = length magnitudes) _ _ _ _ _ _ _) in Hrun;
    [exact Hrun | | reflexivity].
  intros i acc st0 r st1 HQ Hb. unfold bind at 1 in Hb.
  destruct (forM _ _ _ _ st0) as [[t| | |] st2]; try discriminate.
  injection Hb as <- _. rewrite length_insert. exact HQ.
Qed.

Lemma bind_modify {A} (f : QCState F -> QCState F) (k : unit -> M F A) st :
  bind (modify f) k st = k tt (f st).
Proof. reflexivity. Qed.

(** Every outcome of the read half. *)
Lemma read_into_vectors_run (st : QCState F) :
  let s := qcsim st in
  read_into_vectors s st =
    match (if decide (position s < numSamples s)%nat
           then signal_view (simData s) !! position s else None) with
    | Some (name, _) => (Ok name, after_read st)
    | None => (Throw EndOfData, cleared st)
    end.
Proof.
  intros s. unfold read_into_vectors.
  unfold set_intensity_float at 1. rewrite bind_modify.
  unfold set_intensity_int at 1. rewrite bind_modify.
  unfold numberFormat, after_read, cleared. fold s. cbn [qcsim intensity_int intensity_float events outFile].
  destruct (simData s) as [rs|rs] eqn:Hd.
  - simpl (0 =? 0). cbv iota.
    unfold getNextRecord_float. unfold bind at 2. unfold gets at 1.
    unfold bind at 1. cbn beta. cbn [qcsim]. rewrite Hd.
    unfold next_record. cbn [qcsim]. simpl signal_view.
    destruct (decide (position s < numSamples s)%nat); [|reflexivity].
    destruct (rs !! position s) as [[name vals]|]; reflexivity.
  - simpl (1 =? 0). cbv iota.
    unfold getNextRecord_int. unfold bind at 2. unfold gets at 1.
    unfold bind at 1. cbn beta. cbn [qcsim]. rewrite Hd.
    unfold next_record. cbn [qcsim]. simpl signal_view.
    destruct (decide (position s < numSamples s)%nat); [|reflexivity].
    rewrite list_lookup_fmap.
    destruct (rs !! position s) as [[name vals]|]; reflexivity.
Qed.

(** The read half delivers the same name, or the same exception, from a
    file of integers and from the file of the converted values. *)
Lemma read_into_vectors_agree (P C N ns p : nat) (rs : list (string * list Z))
    (ii ii' : list Z) (fi fi' : list F) (ev ev' : list Event)
    (out out' : option (list (string * F))) :
  let si := mkSim P C N ns (IntData rs) p in
  let sf := mkSim P C N ns (FloatData (map (fun r => (r.1, map of_Z r.2)) rs)) p in
  (exists name vals st1 st2,
     read_into_vectors sf (mkQC sf ii' fi' ev' out') = (Ok name, st1) /\
     read_into_vectors si (mkQC si ii fi ev out) = (Ok name, st2) /\
     intensity_float st1 = map of_Z vals /\ intensity_int st2 = vals) \/
  (exists e st1 st2,
     read_into_vectors sf (mkQC sf ii' fi' ev' out') = (Throw e, st1) /\
     read_into_vectors si (mkQC si ii fi ev out) = (Throw e, st2)).
Proof.
  intros si sf.
  pose proof (read_into_vectors_run (mkQC sf ii' fi' ev' out')) as Hf.
  pose proof (read_into_vectors_run (mkQC si ii fi ev out)) as Hi.
  cbn [qcsim] in Hf, Hi. rewrite Hf, Hi. clear Hf Hi. unfold si, sf. cbn [position numSamples simData sampleNameSize signal_view].
  destruct (decide (p < N)%nat); [|right; do 3 eexists; split; reflexivity].
  rewrite list_lookup_fmap.
  destruct (rs !! p) as [[name vals]|] eqn:Hr; simpl;
    [|right; do 3 eexists; split; reflexivity].
  left. exists name, vals. do 2 eexists. split; [reflexivity|]. split; [reflexivity|].
  unfold after_read. cbn. rewrite list_lookup_fmap, Hr. split; reflexivity.
Qed.

End Encoding.

(** * The metrics computed by a run *)

Ltac solve_layout :=
  split; simpl;
  [ reflexivity
  | repeat constructor
  | lia
  | repeat (constructor; simpl; try (unfold uint16; lia)) ].

Ltac solve_names :=
  let i := fresh "i" in
  intros i; unfold name_fits; simpl;
  repeat (destruct i as [|i]; simpl; [lia|]); exact I.

Ltac solve_wf := split; [solve_layout | solve_names | simpl; unfold Examples.NAME_SIZE; lia].

Ltac solve_terminated :=
  let i := fresh "i" in
  intros i; unfold name_terminated; simpl;
  repeat (destruct i as [|i]; simpl; [lia|]); exact I.

Ltac solve_rows :=
  let i := fresh "i" in
  intros i; unfold row_fits, Examples.NAME_SIZE; simpl;
  repeat (destruct i as [|i]; simpl; [lia|]); exact I.

Ltac solve_runnable := split; [solve_layout | solve_terminated | solve_rows].

Section Claims.
Import Binary32 Examples.

Lemma scenario_well_formed : well_formed NAME_SIZE scenario.
Proof. solve_wf. Qed.

Lemma scenario_runnable : runnable NAME_SIZE scenario.
Proof. solve_runnable. Qed.

(** C1.  On every file whose layout is right and whose names can be
    copied (each shorter than the name field of the file and no longer
    than a row of the name table: [runnable]), the magnitude run returns
    normally; it first forms, in pass 1, the baseline B[i] of every probe as the mean over all
    samples of the Euclidean magnitude of the probe's channels, and then
    writes for every sample the mean over the probes of its magnitude at
    the probe divided by B[i].  For the file with S1 = [(3,4),(0,0)] and
    S2 = [(0,0),(6,8)] the baselines are 2.5 and 5 and both samples get
    1.0. *)
Theorem C1_magnitude_two_pass :
  (forall (F : Type) (FO : FloatOps F) (NS : nat) (st : QCState F),
     let s := qcsim st in
     let recs := signal_view (simData s) in
     runnable NS s ->
     fst (bind reset (fun _ => magnitudeByProbe (calloc (numProbes s))) st) =
       Ok (map (fun i =>
                  fmean (map (fun r => fsqrt (sum_squares
                                (take (numChannels s) (drop (i * numChannels s) r.2)))) recs))
               (seq 0 (numProbes s))) /\
     fst (writeMagnitude NS st) = Ok tt /\
     outFile (snd (writeMagnitude NS st)) =
       Some (map (fun r =>
               (r.1, fmean (map (fun i =>
                        fdiv (probe_magnitude (numChannels s) r.2 i)
                             (baseline (numChannels s) recs i))
                      (seq 0 (numProbes s))))) recs)) /\
  fst (bind reset (fun _ => magnitudeByProbe (calloc 2)) (fresh scenario)) =
    Ok [dyadic 5 (-1); dyadic 5 0] /\
  outFile (snd (writeMagnitude NAME_SIZE (fresh scenario))) =
    Some [("S1"%string, dyadic 1 0); ("S2"%string, dyadic 1 0)].
Proof.
  split; [|split; vm_compute; reflexivity].
  intros F FO NS st s recs Hwf. split; [|split].
  - unfold bind, reset, modify.
    pose proof (magnitudeByProbe_baseline (reset_state st)) as H.
    simpl in H. fold s in H. rewrite H.
    + reflexivity.
    + apply layout_ok_set_position, (rn_layout _ _ Hwf).
    + reflexivity.
  - rewrite (writeMagnitude_ok NS st Hwf). reflexivity.
  - rewrite (writeMagnitude_ok NS st Hwf). reflexivity.
Qed.

Lemma C1_witness :
  fst (writeMagnitude NAME_SIZE (fresh scenario)) = Ok tt.
Proof.
  exact (proj1 (proj2 (proj1 C1_magnitude_two_pass _ _ NAME_SIZE (fresh scenario)
                         scenario_runnable))).
Defined.

Lemma xydiff_lines_names {F} {FO : FloatOps F} P (d : SimData F) :
  map fst (xydiff_lines P d) = map fst (signal_view d).
Proof.
  destruct d as [rs|rs]; simpl; rewrite ?map_map; apply map_ext; intros r; reflexivity.
Qed.

Lemma scenario_float_runnable : runnable NAME_SIZE scenario_float.
Proof. solve_runnable. Qed.

(** C2.  On every file with exactly two channels whose layout is right
    and whose names can be copied ([runnable]), the xydiff run returns
    normally and writes, for the i-th record read, the name of that record and the
    mean over the probes of channel 1 minus channel 0, taken on the stored
    values themselves (float difference of the floats, integer difference
    of the integers; no square, no square root).  For the file with
    S1 = [(3,4),(0,0)] and S2 = [(0,0),(6,8)] the values are 0.5 and 1.0. *)
Theorem C2_xydiff_mean_difference :
  (forall (F : Type) (FO : FloatOps F) (NS : nat) (st : QCState F),
     let s := qcsim st in
     runnable NS s ->
     numChannels s = 2%nat ->
     fst (writeXydiff NS st) = Ok tt /\
     outFile (snd (writeXydiff NS st)) =
       Some (match simData s with
             | FloatData rs =>
                 map (fun r => (r.1, fmean (map (fun i =>
                        fsub (aget r.2 (2 * i + 1)) (aget r.2 (2 * i)))
                        (seq 0 (numProbes s))))) rs
             | IntData rs =>
                 map (fun r => (r.1, fmean (map (fun i =>
                        of_Z (default 0 (r.2 !! (2 * i + 1)%nat) - default 0 (r.2 !! (2 * i)%nat)))
                        (seq 0 (numProbes s))))) rs
             end) /\
     (forall i name x,
        (default [] (outFile (snd (writeXydiff NS st)))) !! i = Some (name, x) ->
        fst <$> signal_view (simData s) !! i = Some name)) /\
  outFile (snd (writeXydiff NAME_SIZE (fresh scenario))) =
    Some [("S1"%string, dyadic 1 (-1)); ("S2"%string, dyadic 1 0)] /\
  outFile (snd (writeXydiff NAME_SIZE (fresh scenario_float))) =
    Some [("S1"%string, dyadic 1 (-1)); ("S2"%string, dyadic 1 0)].
Proof.
  split; [|split; vm_compute; reflexivity].
  intros F FO NS st s Hwf HC.
  rewrite (writeXydiff_ok NS st Hwf HC). fold s. simpl fst. simpl snd.
  unfold with_output. cbn [outFile]. split; [reflexivity|]. split.
  - destruct (simData s); reflexivity.
  - intros i name x Hi. simpl in Hi.
    rewrite <- list_lookup_fmap.
    change (list_fmap _ _ fst) with (@map (string * list F) string fst).
    rewrite <- xydiff_lines_names with (P := numProbes s).
    rewrite list_lookup_fmap, Hi. reflexivity.
Qed.

Lemma C2_witness :
  fst (writeXydiff NAME_SIZE (fresh scenario)) = Ok tt.
Proof.
  exact (proj1 (proj1 C2_xydiff_mean_difference _ _ NAME_SIZE (fresh scenario)
                  scenario_runnable eq_refl)).
Defined.

(** C3, as the code behaves.  A file without samples makes the magnitude
    run return normally with an empty output file, and a file without
    probes makes it return normally with one line per sample whose value is
    NaN: no error is reported and the output file is created. *)
Lemma C3_counterexample :
  (fst (writeMagnitude NAME_SIZE (fresh no_samples)) = Ok tt /\
   outFile (snd (writeMagnitude NAME_SIZE (fresh no_samples))) = Some []) /\
  (fst (writeMagnitude NAME_SIZE (fresh no_probes)) = Ok tt /\
   outFile (snd (writeMagnitude NAME_SIZE (fresh no_probes))) =
     Some [("S1"%string, S754_nan); ("S2"%string, S754_nan)]).
Proof. repeat split; vm_compute; reflexivity. Qed.

(** C3, amended.  On every file with no probe or no sample, whose layout
    is right and whose names can be copied ([runnable]), the magnitude run
    returns normally and writes one line per record, in record order,
    each with the value NaN (so no line at all when there is no
    sample). *)
Theorem C3_degenerate_files_write_nan (NS : nat) (st : QCState float) :
  let s := qcsim st in
  runnable NS s ->
  numProbes s = 0%nat \/ numSamples s = 0%nat ->
  fst (writeMagnitude NS st) = Ok tt /\
  outFile (snd (writeMagnitude NS st)) =
    Some (map (fun r => (r.1, S754_nan)) (signal_view (simData s))).
Proof.
  intros s Hwf Hdeg. rewrite (writeMagnitude_ok NS st Hwf). fold s.
  split; [reflexivity|]. unfold with_output. cbn [snd outFile]. f_equal.
  unfold magnitude_lines.
  destruct Hdeg as [HP|HN].
  - rewrite HP. apply map_ext. intros r. reflexivity.
  - pose proof (lo_count _ (rn_layout _ _ Hwf)) as Hc. fold s in Hc. rewrite HN in Hc.
    destruct (signal_view (simData s)); [reflexivity | discriminate].
Qed.

Lemma no_probes_runnable : runnable NAME_SIZE no_probes.
Proof. solve_runnable. Qed.

Lemma C3_witness :
  outFile (snd (writeMagnitude NAME_SIZE (fresh no_probes))) =
    Some [("S1"%string, S754_nan); ("S2"%string, S754_nan)].
Proof.
  exact (proj2 (C3_degenerate_files_write_nan NAME_SIZE (fresh no_probes)
                  no_probes_runnable (or_introl eq_refl))).
Defined.

(** C4.  When the channel count is not two, the xydiff run prints its
    message and exits with code 1 in the state it was called in: the
    source was neither reset nor read and no output file was opened.  When
    the channel count is two the check passes and the run goes on with the
    reset, the pass over the records and the output. *)
Theorem C4_xydiff_needs_two_channels
    (F : Type) (FO : FloatOps F) (NS : nat) (st : QCState F) :
  let s := qcsim st in
  (numChannels s <> 2%nat -> writeXydiff NS st = (Exit 1 xydiff_error, st)) /\
  (numChannels s = 2%nat ->
   writeXydiff NS st =
     bind reset (fun _ =>
       bind (xydiffBySample NS (calloc (numSamples s))
               (replicate (numSamples s) EmptyString))
            (fun '(xydArray, sampleNames) =>
               bind fopen_w (fun _ =>
                 write_lines (numSamples s) sampleNames xydArray))) st).
Proof.
  intros s. unfold s. unfold writeXydiff.
  split; intros HC; unfold bind at 1, gets.
  - destruct (Nat.eqb_spec (numChannels (qcsim st)) 2) as [H|H]; [contradiction|]. reflexivity.
  - rewrite HC. reflexivity.
Qed.

Lemma C4_witness :
  writeXydiff NAME_SIZE (fresh three_channels) = (Exit 1 xydiff_error, fresh three_channels).
Proof.
  apply (proj1 (C4_xydiff_needs_two_channels _ _ NAME_SIZE (fresh three_channels))).
  simpl. lia.
Defined.

(** C6.  The magnitudes of a record do not depend on its encoding: a
    record read as 16-bit integers and the record with the same values
    stored as floats give the same outcome of [getNextMagnitudes], the same
    array and name when it returns and the same exception when it does
    not; the array returned is as long as the array passed in. *)
Theorem C6_encoding_agnostic (F : Type) (FO : FloatOps F) (P C N ns p : nat)
    (rs : list (string * list Z)) (ii ii' : list Z) (fi fi' : list F)
    (ev ev' : list Event) (out out' : option (list (string * F))) (magnitudes : list F) :
  let st_int := mkQC (mkSim P C N ns (IntData rs) p) ii fi ev out in
  let st_float :=
    mkQC (mkSim P C N ns (FloatData (map (fun r => (r.1, map of_Z r.2)) rs)) p)
         ii' fi' ev' out' in
  fst (getNextMagnitudes magnitudes st_float) = fst (getNextMagnitudes magnitudes st_int) /\
  (forall m name,
     fst (getNextMagnitudes magnitudes st_int) = Ok (m, name) ->
     length m = length magnitudes).
Proof.
  intros st_int st_float. unfold st_int, st_float.
  rewrite !getNextMagnitudes_unfold. cbn [qcsim]. split.
  - destruct (read_into_vectors_agree P C N ns p rs ii ii' fi fi' ev ev' out out')
      as [(name & vals & st1 & st2 & H1 & H2 & Hf & Hi) | (e & st1 & st2 & H1 & H2)].
    + rewrite (bind_run _ _ _ _ _ H1), (bind_run _ _ _ _ _ H2).
      destruct (magnitude_loops_agree
                  (mkSim P C N ns (FloatData (map (fun r => (r.1, map of_Z r.2)) rs)) p)
                  (mkSim P C N ns (IntData rs) p) vals magnitudes st1 st2)
        as (r & Hl1 & Hl2); try reflexivity; try assumption.
      rewrite (bind_run _ _ _ _ _ Hl1), (bind_run _ _ _ _ _ Hl2).
      destruct r; reflexivity.
    + rewrite (bind_run _ _ _ _ _ H1), (bind_run _ _ _ _ _ H2). reflexivity.
  - intros m name Hrun. unfold bind at 1 in Hrun.
    destruct (read_into_vectors _ _) as [[nm| | |] st1]; try discriminate.
    unfold bind at 1 in Hrun.
    destruct (magnitude_loops _ _ st1) as [[m'| | |] st2] eqn:Hl; try discriminate.
    simpl in Hrun. injection Hrun as <- _.
    apply (magnitude_loops_length _ _ _ _ _ Hl).
Qed.

Lemma magnitude_lines_names {F} {FO : FloatOps F} P C (d : SimData F) :
  map fst (magnitude_lines P C d) = map fst (signal_view d).
Proof. unfold magnitude_lines. rewrite map_map. reflexivity. Qed.

(** C7.  When the baseline of some probe is zero, the magnitude run on a
    file whose layout is right and whose names can be copied ([runnable])
    still returns normally and writes one line for every record, in record
    order: no probe is skipped and nothing aborts.  For every sample the
    quotient at that probe is NaN or an infinity, and so is the metric
    written for the sample. *)
Theorem C7_zero_baseline_is_not_finite (NS : nat) (st : QCState float) (i : nat) :
  let s := qcsim st in
  let recs := signal_view (simData s) in
  runnable NS s ->
  (i < numProbes s)%nat ->
  is_zero (baseline (numChannels s) recs i) = true ->
  fst (writeMagnitude NS st) = Ok tt /\
  exists lines,
    outFile (snd (writeMagnitude NS st)) = Some lines /\
    map fst lines = map fst recs /\
    Forall (fun r : string * list float =>
      is_finite (div (probe_magnitude (numChannels s) r.2 i)
                     (baseline (numChannels s) recs i)) = false) recs /\
    Forall (fun l : string * float => is_finite l.2 = false) lines.
Proof.
  intros s recs Hwf Hi Hz. rewrite (writeMagnitude_ok NS st Hwf). fold s.
  split; [reflexivity|].
  exists (magnitude_lines (numProbes s) (numChannels s) (simData s)).
  split; [reflexivity|]. split; [apply magnitude_lines_names|]. split.
  - apply List.Forall_forall. intros r _. apply div_by_zero_not_finite. exact Hz.
  - unfold magnitude_lines. fold recs. apply List.Forall_forall. intros l Hl.
    apply in_map_iff in Hl. destruct Hl as (r & <- & _). simpl.
    unfold normalized_magnitude, fmean. apply div_not_finite_l.
    unfold fsum.
    apply (fold_add_not_finite _ _
             (div (probe_magnitude (numChannels s) r.2 i)
                  (baseline (numChannels s) recs i))).
    + apply in_map_iff. exists i. split; [reflexivity|]. apply in_seq. lia.
    + apply div_by_zero_not_finite. exact Hz.
Qed.

Lemma dead_probe_well_formed : well_formed NAME_SIZE dead_probe.
Proof. solve_wf. Qed.

Lemma dead_probe_runnable : runnable NAME_SIZE dead_probe.
Proof. solve_runnable. Qed.

Lemma C7_witness :
  exists lines,
    outFile (snd (writeMagnitude NAME_SIZE (fresh dead_probe))) = Some lines /\
    map fst lines = ["S1"%string; "S2"%string] /\
    Forall (fun r : string * list float =>
      is_finite (div (probe_magnitude 2 r.2 0)
                     (baseline 2 (signal_view (simData dead_probe)) 0)) = false)
      (signal_view (simData dead_probe)) /\
    Forall (fun l : string * float => is_finite l.2 = false) lines.
Proof.
  exact (proj2 (C7_zero_baseline_is_not_finite NAME_SIZE (fresh dead_probe) 0
                  dead_probe_runnable ltac:(simpl; lia) eq_refl)).
Defined.

Lemma pass1_run {F} {FO : FloatOps F} (st : QCState F) :
  let s := qcsim st in
  layout_ok s ->
  bind reset (fun _ => magnitudeByProbe (calloc (numProbes s))) st =
    (Ok (map (baseline (numChannels s) (signal_view (simData s))) (seq 0 (numProbes s))),
     after_reads (numSamples s) (reset_state st)).
Proof.
  intros s Hwf. unfold reset. rewrite bind_modify.
  pose proof (magnitudeByProbe_baseline (reset_state st)) as H.
  simpl in H. apply H; [apply layout_ok_set_position; exact Hwf | reflexivity].
Qed.

(** C8.  On a file whose layout is right and whose names can be copied
    (each shorter than the name field and no longer than a row of the name
    table), a magnitude run returns normally; it resets the source, reads
    the records 0 .. N-1 once each, resets the source again and reads the
    records 0 .. N-1 once each, and touches the source in no other way.
    Pass 1 run twice on the same handle, each time after its reset, reads
    the same records in the same order and returns the same baselines. *)
Theorem C8_two_passes_of_N_reads (F : Type) (FO : FloatOps F) (NS : nat) (st : QCState F) :
  let s := qcsim st in
  let reads := map EvRead (seq 0 (numSamples s)) in
  let pass1 := bind reset (fun _ => magnitudeByProbe (calloc (numProbes s))) in
  runnable NS s ->
  fst (writeMagnitude NS st) = Ok tt /\
  events (snd (writeMagnitude NS st)) =
    events st ++ [EvReset] ++ reads ++ [EvReset] ++ reads /\
  exists B st1 st2,
    pass1 st = (Ok B, st1) /\
    pass1 st1 = (Ok B, st2) /\
    events st1 = events st ++ [EvReset] ++ reads /\
    events st2 = events st1 ++ [EvReset] ++ reads.
Proof.
  intros s reads pass1 Hwf. split; [|split].
  - rewrite (writeMagnitude_ok NS st Hwf). reflexivity.
  - rewrite (writeMagnitude_ok NS st Hwf). fold s. cbn [snd]. unfold with_output. cbn [events].
    rewrite !after_reads_events. unfold reset_state at 1 3. cbn [events qcsim position set_position].
    rewrite after_reads_events. unfold reset_state. cbn [events qcsim position set_position].
    fold reads. rewrite <- !app_assoc. reflexivity.
  - set (st1 := after_reads (numSamples s) (reset_state st)).
    assert (Hs1 : qcsim st1 = set_position (numSamples s) s).
    { unfold st1. rewrite after_reads_sim. reflexivity. }
    exists (map (baseline (numChannels s) (signal_view (simData s))) (seq 0 (numProbes s))).
    exists st1, (after_reads (numSamples s) (reset_state st1)).
    split; [apply (pass1_run st (rn_layout _ _ Hwf))|]. split.
    + pose proof (pass1_run st1) as H. rewrite Hs1 in H. simpl in H.
      apply H. apply layout_ok_set_position. exact (rn_layout _ _ Hwf).
    + split.
      * unfold st1. rewrite after_reads_events. unfold reset_state.
        cbn [events qcsim position set_position]. rewrite <- app_assoc. reflexivity.
      * rewrite after_reads_events. unfold reset_state at 1 2.
        cbn [events qcsim position set_position].
        rewrite <- app_assoc. reflexivity.
Qed.

Lemma C8_witness :
  fst (writeMagnitude NAME_SIZE (fresh scenario)) = Ok tt /\
  events (snd (writeMagnitude NAME_SIZE (fresh scenario))) =
    [EvReset; EvRead 0; EvRead 1; EvReset; EvRead 0; EvRead 1].
Proof.
  pose proof (C8_two_passes_of_N_reads _ _ NAME_SIZE (fresh scenario) scenario_runnable)
    as (Hok & Hev & _).
  split; [exact Hok | exact Hev].
Defined.

Lemma copy_defined_dec {F} {FO : FloatOps F} NS (s : Sim F) i :
  {copy_defined NS s i} + {~ copy_defined NS s i}.
Proof.
  unfold copy_defined, name_terminated, row_fits.
  destruct (signal_view (simData s) !! i) as [r|].
  - apply (decide _).
  - left. split; exact I.
Qed.

Lemma copies_or_first_undefined {F} {FO : FloatOps F} NS (s : Sim F) n :
  (forall i, (i < n)%nat -> copy_defined NS s i) \/
  (exists k, (k < n)%nat /\ ~ copy_defined NS s k /\
             forall i, (i < k)%nat -> copy_defined NS s i).
Proof.
  induction n as [|n [IH|(k & Hk & Hbad & Hfit)]].
  - left. intros i Hi. lia.
  - destruct (copy_defined_dec NS s n) as [Hn|Hn].
    + left. intros i Hi. destruct (decide (i = n)) as [->|Hne]; [exact Hn|]. apply IH. lia.
    + right. exists n. split; [lia|]. split; [exact Hn | exact IH].
  - right. exists k. split; [lia|]. split; [exact Hbad | exact Hfit].
Qed.

(** Among the records whose names cannot be copied there is a first one. *)
Lemma first_undefined_copy {F} {FO : FloatOps F} NS (s : Sim F) n :
  (exists i, (i < n)%nat /\ ~ copy_defined NS s i) ->
  exists k, (k < n)%nat /\ ~ copy_defined NS s k /\
            forall i, (i < k)%nat -> copy_defined NS s i.
Proof.
  intros (i & Hi & Hn).
  destruct (copies_or_first_undefined NS s n) as [Hall|Hk]; [|exact Hk].
  exfalso. apply Hn, Hall, Hi.
Qed.

Lemma not_copy_defined {F} {FO : FloatOps F} NS (s : Sim F) i :
  ~ copy_defined NS s i ->
  exists name vals,
    signal_view (simData s) !! i = Some (name, vals) /\
    ~ ((String.length name < sampleNameSize s)%nat /\ (String.length name <= NS)%nat).
Proof.
  unfold copy_defined, name_terminated, row_fits.
  destruct (signal_view (simData s) !! i) as [[name vals]|].
  - intros H. exists name, vals. split; [reflexivity | exact H].
  - intros H. exfalso. apply H. split; exact I.
Qed.

(** When every name of the declared records can be copied, the file is
    one on which the runs are defined. *)
Lemma copies_runnable {F} {FO : FloatOps F} NS (s : Sim F) :
  layout_ok s ->
  (forall i, (i < numSamples s)%nat -> copy_defined NS s i) ->
  runnable NS s.
Proof.
  intros Hlay Hall.
  assert (Hout : forall i, (numSamples s <= i)%nat -> signal_view (simData s) !! i = None).
  { intros i Hi. apply lookup_ge_None_2. rewrite (lo_count _ Hlay). exact Hi. }
  split; [exact Hlay | |]; intros i;
    (destruct (decide (i < numSamples s)%nat) as [Hi|Hi];
     [ apply (Hall i Hi)
     | unfold name_terminated, row_fits; rewrite Hout by lia; exact I ]).
Qed.

(** The turn of pass 2 that meets a name that cannot be copied: the record
    is read, and [strcpy] leaves the buffer or the row. *)
Lemma pass2_body_undefined {F} {FO : FloatOps F} NS (sim : Sim F) B (st : QCState F) i
    mbs names mags name vals :
  let s := qcsim st in
  layout_ok s ->
  (position s < numSamples s)%nat ->
  length mags = numProbes s ->
  signal_view (simData s) !! position s = Some (name, vals) ->
  ~ ((String.length name < sampleNameSize sim)%nat /\ (String.length name <= NS)%nat) ->
  pass2_body NS sim B i (mbs, names, mags) st = (Undefined, after_read st).
Proof.
  intros s Hlay Hp Hl Hrec Hlong.
  destruct (getNextMagnitudes_ok st mags Hlay Hp Hl) as (name' & vals' & Hrec' & Hget).
  fold s in Hrec'. rewrite Hrec in Hrec'. injection Hrec' as <- <-.
  unfold pass2_body. erewrite bind_ok by exact Hget.
  unfold strcpy_row. destruct (decide _) as [Hyes|_]; [contradiction|]. reflexivity.
Qed.

(** The magnitude run completes pass 1 and is undefined in pass 2, at the
    first record whose name cannot be copied. *)
Lemma writeMagnitude_undefined {F} {FO : FloatOps F} NS (st : QCState F) k :
  let s := qcsim st in
  layout_ok s ->
  (k < numSamples s)%nat ->
  ~ copy_defined NS s k ->
  (forall i, (i < k)%nat -> copy_defined NS s i) ->
  fst (writeMagnitude NS st) = Undefined.
Proof.
  intros s Hlay Hk Hbad Hcopy.
  destruct (not_copy_defined NS s k Hbad) as (name & vals & Hrec & Hlong).
  unfold writeMagnitude.
  unfold bind at 1. unfold reset at 1, modify.
  unfold bind at 1, gets.
  assert (Hs1 : qcsim (reset_state st) = set_position 0 s) by reflexivity.
  rewrite Hs1. cbn [numProbes numSamples set_position].
  pose proof (magnitudeByProbe_baseline (reset_state st)) as H1.
  rewrite Hs1 in H1. cbn [numProbes numSamples numChannels simData set_position position] in H1.
  erewrite bind_ok
    by (apply H1; [apply layout_ok_set_position; assumption | reflexivity]).
  set (st1 := after_reads (numSamples s) (reset_state st)).
  unfold bind at 1. unfold reset at 1, modify.
  assert (Hs2 : qcsim (reset_state st1) = set_position 0 s).
  { unfold reset_state. cbn [qcsim]. unfold st1. rewrite after_reads_sim, Hs1. reflexivity. }
  destruct (pass2_prefix NS (reset_state st1) (calloc (numSamples s))
              (replicate (numSamples s) EmptyString) k) as (mags & Hlm & Hpre).
  { rewrite Hs2. apply layout_ok_set_position. exact Hlay. }
  { rewrite Hs2. reflexivity. }
  { rewrite Hs2. simpl. lia. }
  { rewrite Hs2. intros i Hi. apply (proj1 (Hcopy i Hi)). }
  { rewrite Hs2. intros i Hi. apply (proj2 (Hcopy i Hi)). }
  { rewrite Hs2. apply length_replicate. }
  { rewrite Hs2. apply length_replicate. }
  rewrite Hs2 in Hpre, Hlm.
  cbn [numProbes numSamples numChannels simData set_position position] in Hpre, Hlm.
  erewrite bind_undefined; [reflexivity|].
  rewrite magnitudeBySample_unfold. rewrite Hs2.
  cbn [numProbes numSamples set_position].
  apply bind_undefined.
  apply (forM_undefined _ _ _ _ _ k _ _ _ Hk Hpre).
  assert (Hsk : qcsim (after_reads k (reset_state st1)) = set_position k s)
    by (rewrite after_reads_sim, Hs2; reflexivity).
  apply (pass2_body_undefined NS _ _ _ _ _ _ _ name vals); rewrite ?Hsk.
  - apply layout_ok_set_position. exact Hlay.
  - simpl. lia.
  - exact Hlm.
  - exact Hrec.
  - exact Hlong.
Qed.

(** The same turn in [xydiffBySample]. *)
Lemma xydiff_body_undefined {F} {FO : FloatOps F} NS (sim : Sim F) (st : QCState F) i acc
    name vals :
  let s := qcsim st in
  numberFormat sim = numberFormat s ->
  (position s < numSamples s)%nat ->
  signal_view (simData s) !! position s = Some (name, vals) ->
  ~ ((String.length name < sampleNameSize sim)%nat /\ (String.length name <= NS)%nat) ->
  xydiff_body NS sim i acc st = (Undefined, after_fetch st).
Proof.
  intros s Hfmt Hp Hr Hlong. destruct acc as [xyd names]. unfold xydiff_body.
  rewrite Hfmt. unfold numberFormat.
  destruct (simData s) as [rs|rs] eqn:Hd.
  - simpl in Hr. simpl (0 =? 0). cbv iota.
    erewrite bind_ok.
    2:{ erewrite bind_ok
          by (apply (getNextRecord_float_ok _ rs name vals); assumption).
        reflexivity. }
    unfold strcpy_row. destruct (decide _) as [Hyes|_]; [contradiction|]. reflexivity.
  - apply signal_view_lookup_int in Hr. destruct Hr as (ivals & Hr & ->).
    simpl (1 =? 0). cbv iota.
    erewrite bind_ok.
    2:{ erewrite bind_ok
          by (apply (getNextRecord_int_ok _ rs name ivals); assumption).
        reflexivity. }
    unfold strcpy_row. destruct (decide _) as [Hyes|_]; [contradiction|]. reflexivity.
Qed.

(** The xydiff run is undefined at the first record whose name cannot be
    copied. *)
Lemma writeXydiff_undefined {F} {FO : FloatOps F} NS (st : QCState F) k :
  let s := qcsim st in
  layout_ok s ->
  numChannels s = 2%nat ->
  (k < numSamples s)%nat ->
  ~ copy_defined NS s k ->
  (forall i, (i < k)%nat -> copy_defined NS s i) ->
  fst (writeXydiff NS st) = Undefined.
Proof.
  intros s Hlay HC Hk Hbad Hcopy.
  destruct (not_copy_defined NS s k Hbad) as (name & vals & Hrec & Hlong).
  unfold writeXydiff. unfold bind at 1, gets. fold s. rewrite HC.
  change (negb (2 =? 2)%nat) with false. cbv iota.
  unfold reset at 1. rewrite bind_modify.
  assert (Hs0 : qcsim (reset_state st) = set_position 0 s) by reflexivity.
  pose proof (xydiff_prefix NS (reset_state st) (calloc (numSamples s))
                (replicate (numSamples s) EmptyString) k) as Hpre.
  rewrite Hs0 in Hpre. cbn [numProbes numChannels numSamples simData set_position] in Hpre.
  specialize (Hpre (layout_ok_set_position 0 s Hlay) HC eq_refl ltac:(lia)
                   (fun i Hi => proj1 (Hcopy i Hi)) (fun i Hi => proj2 (Hcopy i Hi))
                   (length_replicate _ _) (length_replicate _ _)).
  erewrite bind_undefined; [reflexivity|].
  rewrite xydiffBySample_unfold. rewrite Hs0. cbn [numSamples set_position].
  apply (forM_undefined _ _ _ _ _ k _ _ _ Hk Hpre).
  apply (xydiff_body_undefined NS _ _ _ _ name vals);
    rewrite ?after_fetches_sim; simpl; fold s;
    [reflexivity | lia | exact Hrec | exact Hlong].
Qed.

Lemma wide_name_field_layout : layout_ok wide_name_field.
Proof. solve_layout. Qed.

Lemma full_name_field_layout : layout_ok full_name_field.
Proof. solve_layout. Qed.

(** C9, as the code behaves.  No length is checked and no error raised.
    In the first file the second name has 44 characters, more than the 40
    of a row of the name table: neither run ends with an error.  In the
    second file every name fits the bound of the header, a name field of
    two bytes, and fills it: no name is recorded.  In both files the copy
    of the name leaves its buffers, so that the runs are undefined. *)
Lemma C9_counterexample :
  ((exists r, signal_view (simData wide_name_field) !! 1%nat = Some r /\
              (NAME_SIZE < String.length r.1)%nat) /\
   fst (writeMagnitude NAME_SIZE (fresh wide_name_field)) = Undefined /\
   fst (writeXydiff NAME_SIZE (fresh wide_name_field)) = Undefined) /\
  ((forall i, name_fits full_name_field i) /\
   fst (writeMagnitude NAME_SIZE (fresh full_name_field)) = Undefined /\
   fst (writeXydiff NAME_SIZE (fresh full_name_field)) = Undefined).
Proof.
  split; split.
  - eexists. split; [reflexivity|]. unfold NAME_SIZE. simpl. lia.
  - split; vm_compute; reflexivity.
  - solve_names.
  - split; vm_compute; reflexivity.
Qed.

(** C9, amended.  QC.cpp makes no check of the length of a sample name and
    raises no error for any name: on a file whose layout is right neither
    the magnitude run nor (on two channels) the xydiff run ends with an
    exception or with an exit, whatever the names are.  When every name is
    shorter than the name field of the file and no longer than a row of
    the name table, both runs return normally and write every name to the
    output as it stands in the file, in record order. *)
Theorem C9_sample_names_unchecked (F : Type) (FO : FloatOps F) (NS : nat) (st : QCState F) :
  let s := qcsim st in
  let recs := signal_view (simData s) in
  layout_ok s ->
  ((forall e, fst (writeMagnitude NS st) <> Throw e) /\
   (forall code msg, fst (writeMagnitude NS st) <> Exit code msg) /\
   (numChannels s = 2%nat ->
    (forall e, fst (writeXydiff NS st) <> Throw e) /\
    (forall code msg, fst (writeXydiff NS st) <> Exit code msg))) /\
  ((forall i, name_terminated s i) ->
   (forall i, row_fits NS s i) ->
   (fst (writeMagnitude NS st) = Ok tt /\
    exists lines,
      outFile (snd (writeMagnitude NS st)) = Some lines /\ map fst lines = map fst recs) /\
   (numChannels s = 2%nat ->
    fst (writeXydiff NS st) = Ok tt /\
    exists lines,
      outFile (snd (writeXydiff NS st)) = Some lines /\ map fst lines = map fst recs)).
Proof.
  intros s recs Hlay. split.
  - assert (Hm : fst (writeMagnitude NS st) = Ok tt \/ fst (writeMagnitude NS st) = Undefined).
    { destruct (copies_or_first_undefined NS s (numSamples s))
        as [Hall|(k & Hk & Hbad & Hcopy)].
      - left. rewrite (writeMagnitude_ok NS st (copies_runnable NS s Hlay Hall)). reflexivity.
      - right. apply (writeMagnitude_undefined NS st k); assumption. }
    assert (Hx : numChannels s = 2%nat ->
                 fst (writeXydiff NS st) = Ok tt \/ fst (writeXydiff NS st) = Undefined).
    { intros HC.
      destruct (copies_or_first_undefined NS s (numSamples s))
        as [Hall|(k & Hk & Hbad & Hcopy)].
      - left. rewrite (writeXydiff_ok NS st (copies_runnable NS s Hlay Hall) HC). reflexivity.
      - right. apply (writeXydiff_undefined NS st k); assumption. }
    split; [|split].
    + intros e. destruct Hm as [-> | ->]; discriminate.
    + intros c m. destruct Hm as [-> | ->]; discriminate.
    + intros HC. split; [intros e | intros c m]; destruct (Hx HC) as [-> | ->]; discriminate.
  - intros Hterm Hrow. assert (Hwf : runnable NS s) by (split; assumption). split.
    + rewrite (writeMagnitude_ok NS st Hwf). fold s. split; [reflexivity|].
      eexists. split; [reflexivity|]. apply magnitude_lines_names.
    + intros HC. rewrite (writeXydiff_ok NS st Hwf HC). fold s. split; [reflexivity|].
      eexists. split; [reflexivity|]. apply xydiff_lines_names.
Qed.

Lemma C9_witness :
  fst (writeMagnitude NAME_SIZE (fresh scenario)) = Ok tt /\
  exists lines,
    outFile (snd (writeMagnitude NAME_SIZE (fresh scenario))) = Some lines /\
    map fst lines = ["S1"%string; "S2"%string].
Proof.
  exact (proj1 (proj2 (C9_sample_names_unchecked _ _ NAME_SIZE (fresh scenario)
                         (rn_layout _ _ scenario_runnable))
                  (rn_terminated _ _ scenario_runnable) (rn_rows _ _ scenario_runnable))).
Defined.

Lemma fold_add_IZR (l : list Z) (a : Z) :
  fold_left Rplus (map IZR l) (IZR a) = IZR (fold_left Z.add l a).
Proof.
  revert a; induction l as [|x l IH]; intros a; simpl; [reflexivity|].
  rewrite <- plus_IZR. apply IH.
Qed.

Lemma descending_runnable : runnable NAME_SIZE descending.
Proof. solve_runnable. Qed.

(** C10.  In the fixed-point path of xydiff the difference of two 16-bit
    values is the signed integer [b - a], not wrapped, and its conversion
    to float denotes exactly that integer, negative when channel 0 reads
    more than channel 1.  The value written for a sample is the sum of
    these floats, accumulated in float from 0.0, divided by the probe
    count.  In exact arithmetic that is the integer sum of the signed
    differences divided by the probe count; in binary32, with at most 256
    probes, the accumulation rounds nothing and the value is the float
    quotient of the integer sum by the probe count.  A probe reading
    (5, 2) contributes -3.  The values written are stated for files whose
    layout is right and whose names can be copied ([runnable]). *)
Theorem C10_signed_integer_difference :
  (forall a b : Z, uint16 a -> uint16 b ->
     to_int (b - a) = b - a /\ to_Z (of_int (to_int (b - a))) = Some (b - a)) /\
  (forall (F : Type) (FO : FloatOps F) (NS : nat) (st : QCState F) rs,
     let s := qcsim st in
     runnable NS s -> numChannels s = 2%nat -> simData s = IntData rs ->
     outFile (snd (writeXydiff NS st)) =
       Some (map (fun r =>
               (r.1, fdiv (fold_left fadd (map (fun i => of_Z (signed_diff r.2 i))
                                               (seq 0 (numProbes s))) fzero)
                          (of_Z (Z.of_nat (numProbes s))))) rs)) /\
  (forall (P : nat) (vals : list Z),
     xydiff_of (FO := Exact.ops) P (channel_diff_int (FO := Exact.ops) vals) =
       (IZR (Zsum (map (signed_diff vals) (seq 0 P))) / IZR (Z.of_nat P))%R) /\
  (forall (NS : nat) (st : QCState float) rs,
     let s := qcsim st in
     runnable NS s -> numChannels s = 2%nat -> simData s = IntData rs ->
     (numProbes s <= 256)%nat ->
     outFile (snd (writeXydiff NS st)) =
       Some (map (fun r =>
               (r.1, div (of_int (Zsum (map (signed_diff r.2) (seq 0 (numProbes s)))))
                         (of_int (Z.of_nat (numProbes s))))) rs)) /\
  outFile (snd (writeXydiff NAME_SIZE (fresh descending))) =
    Some [("S1"%string, of_int (-3))].
Proof.
  split; [|split; [|split; [|split]]].
  - intros a b Ha Hb. rewrite (to_int_diff a b Ha Hb). split; [reflexivity|].
    apply of_int_exact. unfold uint16 in *. lia.
  - intros F FO NS st rs s Hwf HC Hd.
    rewrite (writeXydiff_ok NS st Hwf HC). fold s. rewrite Hd. cbn [snd].
    unfold with_output. cbn [outFile]. f_equal. simpl.
    apply map_ext. intros r. unfold xydiff_of, fmean, fsum.
    rewrite length_map, length_seq. reflexivity.
  - intros P vals. unfold xydiff_of, fmean, fsum, channel_diff_int. simpl.
    rewrite length_map, length_seq. f_equal.
    rewrite <- (map_map (signed_diff vals) IZR). apply fold_add_IZR.
  - intros NS st rs s Hwf HC Hd HP.
    rewrite (writeXydiff_ok NS st Hwf HC). fold s. rewrite Hd. cbn [snd].
    unfold with_output. cbn [outFile]. f_equal. simpl.
    pose proof (lo_uint16 _ (rn_layout _ _ Hwf)) as Hu. fold s in Hu. rewrite Hd in Hu.
    apply map_ext_in. intros r Hr. f_equal.
    apply xydiff_of_int_exact; [exact HP|].
    exact (proj1 (List.Forall_forall _ _) Hu r Hr).
  - vm_compute. reflexivity.
Qed.

Lemma C10_witness :
  outFile (snd (writeXydiff NAME_SIZE (fresh descending))) =
    Some [("S1"%string, fdiv (fold_left fadd [of_Z (-3)] fzero) (of_Z 1))].
Proof.
  exact (proj1 (proj2 C10_signed_integer_difference) _ _ NAME_SIZE (fresh descending)
           [("S1"%string, [5; 2])] descending_runnable eq_refl eq_refl).
Defined.

Lemma small_runnable : runnable NAME_SIZE small.
Proof. solve_runnable. Qed.

Lemma small_times_3_runnable : runnable NAME_SIZE small_times_3.
Proof. solve_runnable. Qed.

(** C5, as the code behaves.  In binary32 the metric is not invariant
    under scaling.  Multiplying the file S1 = [(1,1)], S2 = [(1,3)] by 3
    changes the value written for S1 in its last bit, and multiplying the
    one-value file [1.0] by 2^64 changes its value from 1.0 to NaN; the
    baselines are nonzero in all four files. *)
Lemma C5_counterexample :
  (simData small_times_3 =
     IntData (map (fun r => (r.1, map (Z.mul 3) r.2)) [("S1"%string, [1; 1]); ("S2"%string, [1; 3])]) /\
   is_zero (baseline 2 (signal_view (simData small)) 0) = false /\
   is_zero (baseline 2 (signal_view (simData small_times_3)) 0) = false /\
   outFile (snd (writeMagnitude NAME_SIZE (fresh small))) =
     Some [("S1"%string, S754_finite false 10368889 (-24));
           ("S2"%string, S754_finite false 11592771 (-23))] /\
   outFile (snd (writeMagnitude NAME_SIZE (fresh small_times_3))) =
     Some [("S1"%string, S754_finite false 10368890 (-24));
           ("S2"%string, S754_finite false 11592771 (-23))]) /\
  (signal_view (simData unit_float_times_2p64) =
     scale_view (dyadic 1 64) (signal_view (simData unit_float)) /\
   is_zero (baseline 1 (signal_view (simData unit_float)) 0) = false /\
   is_zero (baseline 1 (signal_view (simData unit_float_times_2p64)) 0) = false /\
   outFile (snd (writeMagnitude NAME_SIZE (fresh unit_float))) =
     Some [("S1"%string, dyadic 1 0)] /\
   outFile (snd (writeMagnitude NAME_SIZE (fresh unit_float_times_2p64))) =
     Some [("S1"%string, S754_nan)]).
Proof. repeat split; vm_compute; reflexivity. Qed.

#[local] Existing Instance Exact.ops.

(** C5, amended.  Multiplying every value of a file whose layout is right
    and whose names can be copied ([runnable]) by the same factor leaves
    the lines written by the magnitude run unchanged
    - in exact arithmetic, for every factor k > 0, when every baseline is
      nonzero;
    - in the binary32 arithmetic of the code, for a fixed-point file of
      fewer than 2^32 samples and a factor 2^d, when no baseline of the
      multiplied file is an infinity or a NaN. *)
Theorem C5_scale_invariance :
  (forall (NS : nat) (st st' : QCState R) (k : R),
     let s := qcsim st in
     let s' := qcsim st' in
     runnable NS s ->
     runnable NS s' ->
     numProbes s' = numProbes s ->
     numChannels s' = numChannels s ->
     signal_view (simData s') = scale_view (FO := Exact.ops) k (signal_view (simData s)) ->
     (0 < k)%R ->
     (forall i, (i < numProbes s)%nat ->
        baseline (FO := Exact.ops) (numChannels s) (signal_view (simData s)) i <> 0%R) ->
     fst (writeMagnitude NS st') = Ok tt /\
     fst (writeMagnitude NS st) = Ok tt /\
     outFile (snd (writeMagnitude NS st')) = outFile (snd (writeMagnitude NS st))) /\
  (forall (NS : nat) (st st' : QCState float) (recs : list (string * list Z)) (d : Z),
     let s := qcsim st in
     let s' := qcsim st' in
     runnable NS s ->
     runnable NS s' ->
     numProbes s' = numProbes s ->
     numChannels s' = numChannels s ->
     simData s = IntData recs ->
     simData s' = IntData (map (fun r => (r.1, map (Z.mul (2 ^ d)) r.2)) recs) ->
     0 <= d ->
     Z.of_nat (numSamples s) < 2 ^ 32 ->
     (forall i, (i < numProbes s)%nat ->
        is_finite (baseline (numChannels s) (signal_view (simData s')) i) = true) ->
     fst (writeMagnitude NS st') = Ok tt /\
     fst (writeMagnitude NS st) = Ok tt /\
     outFile (snd (writeMagnitude NS st')) = outFile (snd (writeMagnitude NS st))).
Proof.
  split.
  - intros NS st st' k s s' Hwf Hwf' HP HC Hview Hk HB.
    rewrite (writeMagnitude_ok NS st Hwf), (writeMagnitude_ok NS st' Hwf').
    fold s s'. split; [reflexivity|]. split; [reflexivity|].
    cbn [snd]. unfold with_output. cbn [outFile]. f_equal.
    unfold magnitude_lines. rewrite Hview, HP, HC. unfold scale_view at 2.
    rewrite map_map. apply map_ext. intros r. simpl. f_equal.
    apply normalized_magnitude_scaled; assumption.
  - intros NS st st' recs d. apply writeMagnitude_scalb.
Qed.

Lemma exact_small_well_formed : well_formed NAME_SIZE exact_small.
Proof. solve_wf. Qed.

Lemma exact_small_runnable : runnable NAME_SIZE exact_small.
Proof. solve_runnable. Qed.

Lemma exact_small_doubled_runnable : runnable NAME_SIZE exact_small_doubled.
Proof. solve_runnable. Qed.

Lemma small_times_4_runnable : runnable NAME_SIZE small_times_4.
Proof. solve_runnable. Qed.

Lemma C5_witness :
  outFile (snd (writeMagnitude NAME_SIZE (fresh exact_small_doubled))) =
  outFile (snd (writeMagnitude NAME_SIZE (fresh exact_small))) /\
  outFile (snd (writeMagnitude NAME_SIZE (fresh small_times_4))) =
  outFile (snd (writeMagnitude NAME_SIZE (fresh small))).
Proof.
  split.
  - refine (proj2 (proj2 (proj1 C5_scale_invariance NAME_SIZE (fresh exact_small)
              (fresh exact_small_doubled) 2%R exact_small_runnable
              exact_small_doubled_runnable eq_refl eq_refl eq_refl _ _))).
    + lra.
    + intros i Hi. simpl in Hi. assert (i = 0%nat) as -> by lia.
      unfold baseline, fmean, fsum, probe_magnitude, sum_squares. simpl.
      replace (0 + 3 * 3 + 4 * 4)%R with (5 * 5)%R by ring.
      rewrite sqrt_square by lra. change (Z.of_nat 1) with 1%Z. lra.
  - refine (proj2 (proj2 (proj2 C5_scale_invariance NAME_SIZE (fresh small)
              (fresh small_times_4) [("S1"%string, [1; 1]); ("S2"%string, [1; 3])] 2
              small_runnable small_times_4_runnable
              eq_refl eq_refl eq_refl eq_refl _ _ _))).
    + lia.
    + simpl. lia.
    + intros i Hi. simpl in Hi. assert (i = 0%nat) as -> by lia.
      vm_compute. reflexivity.
Defined.

(** X1.  The name table of QC has rows of SAMPLE_NAME_SIZE + 1 bytes, and
    both runs copy every name into it with [strcpy], unchecked (lines 74,
    100, 177 and 209).  On a file whose layout is right and whose names
    all fit the name field of the file, a name longer than
    SAMPLE_NAME_SIZE, which needs a name field wider than a row, makes the
    magnitude run and (on two channels) the xydiff run write past the
    row: undefined behaviour (met at that name, or before it at a name
    that fills the name field and is read past the end of its buffer). *)
Theorem X1_strcpy_overruns_name_table (F : Type) (FO : FloatOps F) (NS : nat)
    (st : QCState F) :
  let s := qcsim st in
  layout_ok s ->
  (forall i, name_fits s i) ->
  (exists i, (i < numSamples s)%nat /\ ~ row_fits NS s i) ->
  (NS < sampleNameSize s)%nat /\
  fst (writeMagnitude NS st) = Undefined /\
  (numChannels s = 2%nat -> fst (writeXydiff NS st) = Undefined).
Proof.
  intros s Hlay Hfit (i & Hi & Hbad).
  assert (Hex : exists i, (i < numSamples s)%nat /\ ~ copy_defined NS s i).
  { exists i. split; [exact Hi|]. intros [_ Hrow]. apply Hbad, Hrow. }
  destruct (first_undefined_copy NS s _ Hex) as (k & Hk & Hno & Hcopy).
  split; [|split].
  - pose proof (Hfit i) as Hnm. unfold name_fits in Hnm. unfold row_fits in Hbad.
    destruct (signal_view (simData s) !! i) as [r|]; [lia|].
    exfalso. apply Hbad. exact I.
  - apply (writeMagnitude_undefined NS st k); assumption.
  - intros HC. apply (writeXydiff_undefined NS st k); assumption.
Qed.

Lemma X1_witness :
  (NAME_SIZE < sampleNameSize wide_name_field)%nat /\
  fst (writeMagnitude NAME_SIZE (fresh wide_name_field)) = Undefined /\
  (numChannels wide_name_field = 2%nat ->
   fst (writeXydiff NAME_SIZE (fresh wide_name_field)) = Undefined).
Proof.
  apply (X1_strcpy_overruns_name_table _ _ NAME_SIZE (fresh wide_name_field)
           wide_name_field_layout).
  - intros i. unfold name_fits. simpl.
    destruct i as [|[|i]]; simpl; first [lia | exact I].
  - exists 1%nat. split; [simpl; lia|]. unfold row_fits, NAME_SIZE. simpl. lia.
Defined.

(** X17.  The buffer a name is read into has [sampleNameSize] bytes (lines
    175 and 200), one fewer than a name that fills the name field needs
    with its terminator, whereas a row of the name table has
    SAMPLE_NAME_SIZE + 1.  On a file whose layout is right, a record among
    the declared ones whose name has [sampleNameSize] characters makes the
    magnitude run and (on two channels) the xydiff run leave a buffer in
    [strcpy] (lines 177 and 209), even when the name fits a row:
    undefined behaviour. *)
Theorem X17_full_name_field_is_overread (F : Type) (FO : FloatOps F) (NS : nat)
    (st : QCState F) :
  let s := qcsim st in
  layout_ok s ->
  (exists i r, (i < numSamples s)%nat /\ signal_view (simData s) !! i = Some r /\
               String.length r.1 = sampleNameSize s) ->
  fst (writeMagnitude NS st) = Undefined /\
  (numChannels s = 2%nat -> fst (writeXydiff NS st) = Undefined).
Proof.
  intros s Hlay (i & r & Hi & Hr & Hlen).
  assert (Hex : exists i, (i < numSamples s)%nat /\ ~ copy_defined NS s i).
  { exists i. split; [exact Hi|]. intros [Hterm _]. unfold name_terminated in Hterm.
    rewrite Hr in Hterm. lia. }
  destruct (first_undefined_copy NS s _ Hex) as (k & Hk & Hno & Hcopy).
  split.
  - apply (writeMagnitude_undefined NS st k); assumption.
  - intros HC. apply (writeXydiff_undefined NS st k); assumption.
Qed.

Lemma X17_witness :
  fst (writeMagnitude NAME_SIZE (fresh full_name_field)) = Undefined /\
  (numChannels full_name_field = 2%nat ->
   fst (writeXydiff NAME_SIZE (fresh full_name_field)) = Undefined).
Proof.
  apply (X17_full_name_field_is_overread _ _ NAME_SIZE (fresh full_name_field)
           full_name_field_layout).
  exists 0%nat, ("S1"%string, [dyadic 1 0; dyadic 2 0]).
  split; [simpl; lia|]. split; [vm_compute; reflexivity | reflexivity].
Defined.

End Claims.


(** * Further properties of the runs *)

Section Footprint.
Import Binary32 Examples.

Lemma after_fetches_vectors {F} {FO : FloatOps F} k (st : QCState F) :
  intensity_int (after_fetches k st) = intensity_int st /\
  intensity_float (after_fetches k st) = intensity_float st.
Proof.
  induction k as [|k IH]; [split; reflexivity|].
  rewrite after_fetches_S. unfold after_fetch. cbn [intensity_int intensity_float]. exact IH.
Qed.

(** X2.  On a two-channel file whose layout is right and whose names can
    be copied ([runnable]) the xydiff run returns normally and is a single
    pass: one reset, then every record read once, in order, which leaves
    the cursor behind the last record.  It works on vectors of its own
    (lines 202-203) and leaves the member vectors of the object as they
    were. *)
Theorem X2_xydiff_single_pass (F : Type) (FO : FloatOps F) (NS : nat) (st : QCState F) :
  let s := qcsim st in
  let st' := snd (writeXydiff NS st) in
  runnable NS s ->
  numChannels s = 2%nat ->
  fst (writeXydiff NS st) = Ok tt /\
  events st' = events st ++ [EvReset] ++ map EvRead (seq 0 (numSamples s)) /\
  position (qcsim st') = numSamples s /\
  intensity_int st' = intensity_int st /\
  intensity_float st' = intensity_float st.
Proof.
  intros s st' Hwf HC. unfold st'. rewrite (writeXydiff_ok NS st Hwf HC). fold s.
  split; [reflexivity|].
  cbn [snd]. unfold with_output. cbn [events qcsim intensity_int intensity_float].
  rewrite after_fetches_events, after_fetches_sim.
  destruct (after_fetches_vectors (numSamples s) (reset_state st)) as [-> ->].
  unfold reset_state. cbn [events qcsim position set_position intensity_int intensity_float].
  rewrite <- app_assoc. repeat split.
Qed.

Lemma X2_witness :
  fst (writeXydiff NAME_SIZE (fresh scenario)) = Ok tt /\
  events (snd (writeXydiff NAME_SIZE (fresh scenario))) =
    [EvReset; EvRead 0; EvRead 1] /\
  position (qcsim (snd (writeXydiff NAME_SIZE (fresh scenario)))) = 2%nat /\
  intensity_int (snd (writeXydiff NAME_SIZE (fresh scenario))) = [] /\
  intensity_float (snd (writeXydiff NAME_SIZE (fresh scenario))) = [].
Proof.
  exact (X2_xydiff_single_pass _ _ NAME_SIZE (fresh scenario) scenario_runnable eq_refl).
Defined.

(** X3.  Every run begins with a reset of the source and opens its output
    afresh, so what a run writes does not depend on the runs made before
    it on the same object: a magnitude run after a magnitude run, an
    xydiff run after a magnitude run and a magnitude run after an xydiff
    run return normally and write what they write on a new object, on
    every file whose layout is right and whose names can be copied
    ([runnable]). *)
Theorem X3_runs_start_afresh (F : Type) (FO : FloatOps F) (NS : nat) (st : QCState F) :
  let s := qcsim st in
  let after_magnitude := snd (writeMagnitude NS st) in
  let after_xydiff := snd (writeXydiff NS st) in
  runnable NS s ->
  (fst (writeMagnitude NS after_magnitude) = Ok tt /\
   outFile (snd (writeMagnitude NS after_magnitude)) = outFile after_magnitude) /\
  (numChannels s = 2%nat ->
   (fst (writeXydiff NS after_magnitude) = Ok tt /\
    outFile (snd (writeXydiff NS after_magnitude)) = outFile after_xydiff) /\
   (fst (writeMagnitude NS after_xydiff) = Ok tt /\
    outFile (snd (writeMagnitude NS after_xydiff)) = outFile after_magnitude)).
Proof.
  intros s st1 st2 Hwf.
  pose proof (writeMagnitude_ok NS st Hwf) as H1. fold s in H1.
  assert (Hs1 : qcsim st1 = set_position (numSamples s) s).
  { unfold st1. rewrite H1. cbn [snd]. unfold with_output. cbn [qcsim].
    rewrite after_reads_sim. unfold reset_state. cbn [qcsim]. rewrite after_reads_sim.
    reflexivity. }
  assert (Ho1 : outFile st1 =
                Some (magnitude_lines (numProbes s) (numChannels s) (simData s)))
    by (unfold st1; rewrite H1; reflexivity).
  assert (Hwf1 : runnable NS (qcsim st1))
    by (rewrite Hs1; apply runnable_set_position; exact Hwf).
  split.
  - rewrite (writeMagnitude_ok NS st1 Hwf1), Hs1, Ho1. split; reflexivity.
  - intros HC.
    pose proof (writeXydiff_ok NS st Hwf HC) as H2. fold s in H2.
    assert (Hs2 : qcsim st2 = set_position (numSamples s) s).
    { unfold st2. rewrite H2. cbn [snd]. unfold with_output. cbn [qcsim].
      rewrite after_fetches_sim. reflexivity. }
    assert (Ho2 : outFile st2 = Some (xydiff_lines (numProbes s) (simData s)))
      by (unfold st2; rewrite H2; reflexivity).
    assert (Hwf2 : runnable NS (qcsim st2))
      by (rewrite Hs2; apply runnable_set_position; exact Hwf).
    assert (HC1 : numChannels (qcsim st1) = 2%nat) by (rewrite Hs1; exact HC).
    split.
    + rewrite (writeXydiff_ok NS st1 Hwf1 HC1), Hs1, Ho2. split; reflexivity.
    + rewrite (writeMagnitude_ok NS st2 Hwf2), Hs2, Ho1. split; reflexivity.
Qed.

Lemma X3_witness :
  outFile (snd (writeXydiff NAME_SIZE (snd (writeMagnitude NAME_SIZE (fresh scenario))))) =
  outFile (snd (writeXydiff NAME_SIZE (fresh scenario))).
Proof.
  exact (proj2 (proj1 (proj2 (X3_runs_start_afresh _ _ NAME_SIZE (fresh scenario)
                                scenario_runnable) eq_refl))).
Defined.

End Footprint.

(** ** Symmetries of the two metrics *)

Section Symmetries.
Import Binary32 Examples.

Lemma pairs_ind {V} (Q : list V -> Prop) :
  Q [] -> (forall a, Q [a]) -> (forall a b l, Q l -> Q (a :: b :: l)) ->
  forall l, Q l.
Proof.
  intros H0 H1 H2 l.
  assert (H : Q l /\ forall a, Q (a :: l)).
  { induction l as [|b l [IHl IHa]]; [split; [exact H0 | exact H1]|].
    split; [apply IHa|]. intros a. apply H2. exact IHl. }
  apply H.
Qed.

Lemma swap_channels_length {V} (l : list V) : length (swap_channels l) = length l.
Proof.
  induction l as [|a|a b l IH] using pairs_ind; try reflexivity.
  simpl. rewrite IH. reflexivity.
Qed.

Lemma swap_channels_map {V W} (f : V -> W) (l : list V) :
  swap_channels (map f l) = map f (swap_channels l).
Proof.
  induction l as [|a|a b l IH] using pairs_ind; try reflexivity.
  simpl. rewrite IH. reflexivity.
Qed.

Lemma swap_channels_lookup {V} (l : list V) i :
  (2 * i + 1 < length l)%nat ->
  swap_channels l !! (2 * i)%nat = l !! (2 * i + 1)%nat /\
  swap_channels l !! (2 * i + 1)%nat = l !! (2 * i)%nat.
Proof.
  revert l; induction i as [|i IH]; intros l Hl.
  - destruct l as [|a [|b rest]]; simpl in Hl; try lia. split; reflexivity.
  - destruct l as [|a [|b rest]]; simpl in Hl; try lia.
    replace (2 * S i)%nat with (S (S (2 * i))) by lia.
    replace (S (S (2 * i)) + 1)%nat with (S (S (2 * i + 1))) by lia.
    simpl. apply IH. lia.
Qed.

Lemma swap_channels_probe {V} (l : list V) i :
  take 2 (drop (i * 2) (swap_channels l)) = swap_channels (take 2 (drop (i * 2) l)).
Proof.
  revert l; induction i as [|i IH]; intros l.
  - destruct l as [|a [|b rest]]; reflexivity.
  - destruct l as [|a [|b rest]]; try reflexivity. simpl. apply IH.
Qed.

Lemma signal_view_swap {F} {FO : FloatOps F} (d : SimData F) :
  signal_view (swap_data d) = map (fun r => (r.1, swap_channels r.2)) (signal_view d).
Proof.
  destruct d as [rs|rs]; [reflexivity|]. simpl. rewrite !map_map.
  apply map_ext. intros r. simpl. rewrite swap_channels_map. reflexivity.
Qed.

Lemma add_comm x y : add x y = add y x.
Proof.
  destruct x as [sx|sx| |sx mx ex], y as [sy|sy| |sy my ey];
    try (destruct sx, sy; reflexivity); try reflexivity.
  unfold add, SFadd. rewrite (Z.min_comm ey ex). rewrite Z.add_comm. reflexivity.
Qed.

Lemma round_aux_not_negative_zero M E l :
  binary_round_aux 24 128 false M E l <> S754_zero true.
Proof.
  unfold binary_round_aux.
  destruct (shr_fexp 24 128 M E l) as [mrs' e'].
  destruct (shr_fexp 24 128 _ e' loc_Exact) as [mrs'' e''].
  destruct (shr_m mrs''); [discriminate | | discriminate].
  destruct (_ <=? _); discriminate.
Qed.

Lemma square_not_negative_zero x : mul x x <> S754_zero true.
Proof.
  destruct x as [[]|[]| |s m e]; try discriminate.
  unfold mul, SFmul. replace (xorb s s) with false by (destruct s; reflexivity).
  apply round_aux_not_negative_zero.
Qed.

Lemma add_zero_l x : x <> S754_zero true -> add (S754_zero false) x = x.
Proof. destruct x as [[]| | |]; intros H; try reflexivity. contradiction. Qed.

(** In binary32 the squares of two channels add up to the same float in
    either order: 0.0 + a*a is a*a, and a sum of two floats does not
    depend on their order. *)
Lemma sum_squares_swap (l : list float) :
  (length l <= 2)%nat -> sum_squares (swap_channels l) = sum_squares l.
Proof.
  destruct l as [|a [|b [|c l]]]; simpl; intros Hl; try reflexivity; [|lia].
  unfold sum_squares. cbn [fold_left fadd fmul fzero ops].
  rewrite !add_zero_l by apply square_not_negative_zero. apply add_comm.
Qed.

Lemma probe_magnitude_swap (vals : list float) i :
  probe_magnitude 2 (swap_channels vals) i = probe_magnitude 2 vals i.
Proof.
  unfold probe_magnitude. rewrite swap_channels_probe, sum_squares_swap; [reflexivity|].
  rewrite length_take. lia.
Qed.

(** X5 (see below) at the level of the lines. *)
Lemma magnitude_lines_swap P (d : SimData float) :
  magnitude_lines P 2 (swap_data d) = magnitude_lines P 2 d.
Proof.
  unfold magnitude_lines. rewrite signal_view_swap, map_map.
  apply map_ext. intros r. cbn [fst snd]. f_equal.
  unfold normalized_magnitude. apply (f_equal fmean). apply map_ext. intros i.
  rewrite probe_magnitude_swap. f_equal.
  unfold baseline. rewrite map_map. apply (f_equal fmean).
  apply map_ext. intros r'. apply probe_magnitude_swap.
Qed.

(** X5.  In the binary32 arithmetic of the code the magnitude metric does
    not tell the two channels of a two-channel file apart: when no value
    of the file is a NaN, the file with the channels of every probe
    exchanged gets the same lines, bit for bit, in either encoding; both
    files are files whose names can be copied ([runnable]).  (The
    squares of values that are not NaN are not NaN, and neither are their
    sums; two NaNs of different signs in the two channels of a probe
    would add up to a NaN whose sign depends on their order.) *)
Theorem X5_magnitude_ignores_channel_order (NS : nat) (st st' : QCState float) :
  let s := qcsim st in
  let s' := qcsim st' in
  runnable NS s ->
  runnable NS s' ->
  numProbes s' = numProbes s ->
  numChannels s = 2%nat ->
  numChannels s' = 2%nat ->
  simData s' = swap_data (simData s) ->
  no_nan (signal_view (simData s)) ->
  fst (writeMagnitude NS st') = Ok tt /\
  fst (writeMagnitude NS st) = Ok tt /\
  outFile (snd (writeMagnitude NS st')) = outFile (snd (writeMagnitude NS st)).
Proof.
  intros s s' Hwf Hwf' HP HC HC' Hd _.
  rewrite (writeMagnitude_ok NS st Hwf), (writeMagnitude_ok NS st' Hwf').
  fold s s'. split; [reflexivity|]. split; [reflexivity|].
  cbn [snd]. unfold with_output. cbn [outFile]. f_equal.
  rewrite HP, HC, HC', Hd. apply magnitude_lines_swap.
Qed.

Lemma scenario_swapped_runnable : runnable NAME_SIZE scenario_swapped.
Proof. solve_runnable. Qed.

Lemma X5_witness :
  outFile (snd (writeMagnitude NAME_SIZE (fresh scenario_swapped))) =
  outFile (snd (writeMagnitude NAME_SIZE (fresh scenario))).
Proof.
  refine (proj2 (proj2 (X5_magnitude_ignores_channel_order NAME_SIZE (fresh scenario)
            (fresh scenario_swapped) scenario_runnable scenario_swapped_runnable
            eq_refl eq_refl eq_refl eq_refl _))).
  repeat (constructor; try reflexivity).
Defined.

Lemma mul_opp_opp x : mul (opp x) (opp x) = mul x x.
Proof.
  destruct x as [s|s| |s m e]; try reflexivity; unfold mul, opp, SFmul, SFopp;
    replace (xorb (negb s) (negb s)) with (xorb s s) by (destruct s; reflexivity);
    reflexivity.
Qed.

Lemma sum_squares_opp (l : list float) : sum_squares (map opp l) = sum_squares l.
Proof.
  unfold sum_squares. generalize (@fzero float ops) as a.
  induction l as [|x l IH]; intros a; [reflexivity|].
  cbn [map fold_left fmul ops]. rewrite mul_opp_opp. apply IH.
Qed.

Lemma probe_magnitude_opp C (vals : list float) i :
  probe_magnitude C (map opp vals) i = probe_magnitude C vals i.
Proof.
  unfold probe_magnitude. change (map opp vals) with (opp <$> vals).
  rewrite <- fmap_drop, <- fmap_take.
  change (opp <$> take C (drop (i * C) vals)) with (map opp (take C (drop (i * C) vals))).
  rewrite sum_squares_opp. reflexivity.
Qed.

(** X7.  The magnitude metric does not see the sign of a value: in the
    binary32 arithmetic of the code a file of floats none of which is a
    NaN and the file of the negated floats get the same lines, bit for
    bit; both files are files whose names can be copied ([runnable]).
    (The square of a NaN keeps the sign of the NaN, which negation
    flips.) *)
Theorem X7_magnitude_ignores_sign (NS : nat) (st st' : QCState float)
    (recs : list (string * list float)) :
  let s := qcsim st in
  let s' := qcsim st' in
  runnable NS s ->
  runnable NS s' ->
  numProbes s' = numProbes s ->
  numChannels s' = numChannels s ->
  simData s = FloatData recs ->
  simData s' = FloatData (map (fun r => (r.1, map opp r.2)) recs) ->
  no_nan recs ->
  fst (writeMagnitude NS st') = Ok tt /\
  fst (writeMagnitude NS st) = Ok tt /\
  outFile (snd (writeMagnitude NS st')) = outFile (snd (writeMagnitude NS st)).
Proof.
  intros s s' Hwf Hwf' HP HC Hd Hd' _.
  rewrite (writeMagnitude_ok NS st Hwf), (writeMagnitude_ok NS st' Hwf').
  fold s s'. split; [reflexivity|]. split; [reflexivity|].
  cbn [snd]. unfold with_output. cbn [outFile]. f_equal.
  rewrite HP, HC, Hd, Hd'. unfold magnitude_lines. cbn [signal_view].
  rewrite map_map. apply map_ext. intros r. cbn [fst snd]. f_equal.
  unfold normalized_magnitude. apply (f_equal fmean). apply map_ext. intros i.
  rewrite probe_magnitude_opp. f_equal.
  unfold baseline. rewrite map_map. apply (f_equal fmean).
  apply map_ext. intros r'. apply probe_magnitude_opp.
Qed.

Lemma signed_float_runnable : runnable NAME_SIZE signed_float.
Proof. solve_runnable. Qed.

Lemma signed_float_negated_runnable : runnable NAME_SIZE signed_float_negated.
Proof. solve_runnable. Qed.

Lemma X7_witness :
  outFile (snd (writeMagnitude NAME_SIZE (fresh signed_float_negated))) =
  outFile (snd (writeMagnitude NAME_SIZE (fresh signed_float))).
Proof.
  refine (proj2 (proj2 (X7_magnitude_ignores_sign NAME_SIZE (fresh signed_float)
            (fresh signed_float_negated) _ signed_float_runnable
            signed_float_negated_runnable eq_refl eq_refl eq_refl eq_refl _))).
  repeat (constructor; try reflexivity).
Defined.

Lemma signed_diff_offset (c : Z) (vals : list Z) i :
  (2 * i + 1 < length vals)%nat ->
  signed_diff (map (Z.add c) vals) i = signed_diff vals i.
Proof.
  intros Hi. unfold signed_diff. rewrite !list_lookup_fmap.
  destruct (lookup_lt_is_Some_2 vals (2 * i + 1) Hi) as [b ->].
  destruct (lookup_lt_is_Some_2 vals (2 * i) ltac:(lia)) as [a ->].
  simpl. lia.
Qed.

(** X4.  In the fixed-point path xydiff is the exact integer difference
    of the two channels, so an offset common to both channels cancels
    before any float is made: the file with the same integer added to
    every value gets the same lines, in any arithmetic.  Both files are
    files whose layout is right and whose names can be copied
    ([runnable]). *)
Theorem X4_xydiff_ignores_common_offset (F : Type) (FO : FloatOps F) (NS : nat)
    (st st' : QCState F) (recs : list (string * list Z)) (c : Z) :
  let s := qcsim st in
  let s' := qcsim st' in
  runnable NS s ->
  runnable NS s' ->
  numProbes s' = numProbes s ->
  numChannels s = 2%nat ->
  numChannels s' = 2%nat ->
  simData s = IntData recs ->
  simData s' = IntData (map (fun r => (r.1, map (Z.add c) r.2)) recs) ->
  fst (writeXydiff NS st') = Ok tt /\
  fst (writeXydiff NS st) = Ok tt /\
  outFile (snd (writeXydiff NS st')) = outFile (snd (writeXydiff NS st)).
Proof.
  intros s s' Hwf Hwf' HP HC HC' Hd Hd'.
  rewrite (writeXydiff_ok NS st Hwf HC), (writeXydiff_ok NS st' Hwf' HC').
  fold s s'. split; [reflexivity|]. split; [reflexivity|].
  cbn [snd]. unfold with_output. cbn [outFile]. f_equal.
  pose proof (lo_sizes _ (rn_layout _ _ Hwf)) as Hsz. fold s in Hsz.
  rewrite HP, Hd, Hd'. rewrite Hd, HC in Hsz. cbn [xydiff_lines signal_view] in *.
  rewrite map_map. apply map_ext_in. intros r Hr. cbn [fst snd]. f_equal.
  rewrite List.Forall_forall in Hsz.
  pose proof (Hsz _ (in_map (fun r : string * list Z => (r.1, map of_Z r.2)) _ _ Hr)) as Hl.
  cbn [snd] in Hl. rewrite length_map in Hl.
  unfold xydiff_of. apply (f_equal fmean). apply map_ext_in. intros i Hi.
  apply in_seq in Hi. unfold channel_diff_int. f_equal.
  apply signed_diff_offset. lia.
Qed.

Lemma scenario_plus_100_runnable : runnable NAME_SIZE scenario_plus_100.
Proof. solve_runnable. Qed.

Lemma X4_witness :
  outFile (snd (writeXydiff NAME_SIZE (fresh scenario_plus_100))) =
  outFile (snd (writeXydiff NAME_SIZE (fresh scenario))).
Proof.
  exact (proj2 (proj2 (X4_xydiff_ignores_common_offset _ _ NAME_SIZE (fresh scenario)
           (fresh scenario_plus_100) _ 100 scenario_runnable
           scenario_plus_100_runnable eq_refl eq_refl eq_refl eq_refl eq_refl))).
Defined.

Lemma swap_channels_Forall {V} (Q : V -> Prop) (l : list V) :
  Forall Q l -> Forall Q (swap_channels l).
Proof.
  induction l as [|a|a b l IH] using pairs_ind; intros H; try exact H.
  inversion H as [|? ? Ha H']; subst. inversion H' as [|? ? Hb Hl]; subst.
  simpl. constructor; [exact Hb|]. constructor; [exact Ha|]. apply IH. exact Hl.
Qed.

Lemma signed_diff_swap (vals : list Z) i :
  (2 * i + 1 < length vals)%nat ->
  signed_diff (swap_channels vals) i = - signed_diff vals i.
Proof.
  intros Hi. destruct (swap_channels_lookup vals i Hi) as [H0 H1].
  unfold signed_diff. rewrite H0, H1. lia.
Qed.

Lemma Zsum_acc_opp (l : list Z) (a : Z) :
  fold_left Z.add (map Z.opp l) (- a) = - fold_left Z.add l a.
Proof.
  revert a; induction l as [|x l IH]; intros a; simpl; [reflexivity|].
  replace (- a + - x) with (- (a + x)) by lia. apply IH.
Qed.

Lemma Zsum_acc_bound (D : Z) (l : list Z) (a : Z) :
  Forall (fun x => Z.abs x <= D) l ->
  Z.abs (fold_left Z.add l a) <= Z.abs a + D * Z.of_nat (length l).
Proof.
  intros H. revert a; induction H as [|x l Hx _ IH]; intros a; simpl fold_left.
  - simpl. lia.
  - specialize (IH (a + x)). cbn [length]. lia.
Qed.

Lemma round_aux_opp s M E l :
  binary_round_aux 24 128 (negb s) M E l = opp (binary_round_aux 24 128 s M E l).
Proof.
  unfold binary_round_aux.
  destruct (shr_fexp 24 128 M E l) as [mrs' e'].
  destruct (shr_fexp 24 128 _ e' loc_Exact) as [mrs'' e''].
  destruct (shr_m mrs''); [reflexivity | | reflexivity].
  destruct (_ <=? _); reflexivity.
Qed.

Lemma div_opp_l x y : div (opp x) y = opp (div x y).
Proof.
  destruct x as [sx|sx| |sx mx ex], y as [sy|sy| |sy my ey]; try reflexivity;
    try (destruct sx, sy; reflexivity).
  unfold div, opp, SFdiv, SFopp.
  destruct (SFdiv_core_binary prec emax (Z.pos mx) ex (Z.pos my) ey) as [[q e'] l].
  replace (xorb (negb sx) sy) with (negb (xorb sx sy)) by (destruct sx, sy; reflexivity).
  apply round_aux_opp.
Qed.

Lemma of_int_opp z : z <> 0 -> - 2 ^ 24 < z < 2 ^ 24 -> of_int (- z) = opp (of_int z).
Proof.
  intros Hz Hb.
  assert (H : forall w, Z.pos w < 2 ^ 24 ->
            binary_round 24 128 true w 0 = opp (binary_round 24 128 false w 0)).
  { intros w Hw.
    destruct (binary_round_exact false w 0 w Hw ltac:(lia)) as (m & Hr & Hm & _);
      [simpl; lia|].
    destruct (binary_round_exact true w 0 w Hw ltac:(lia)) as (m' & Hr' & Hm' & _);
      [simpl; lia|].
    rewrite Hr, Hr'. assert (m' = m) as -> by (apply Pos2Z.inj_pos; lia). reflexivity. }
  destruct z as [|w|w]; [contradiction | |]; unfold of_int.
  - change (- Z.pos w) with (Z.neg w). unfold binary_normalize, prec, emax.
    apply H. lia.
  - change (- Z.neg w) with (Z.pos w). unfold binary_normalize, prec, emax.
    rewrite H by lia. unfold opp.
    destruct (binary_round 24 128 false w 0); cbn [SFopp];
      rewrite ?negb_involutive; reflexivity.
Qed.

(** The quotient of a nonzero integer below 2^24 by a count is not zero. *)
Lemma div_of_int_nonzero z n :
  z <> 0 -> - 2 ^ 24 < z < 2 ^ 24 -> 0 <= n < 2 ^ 32 ->
  is_zero (div (of_int z) (of_int n)) = false.
Proof.
  intros Hz Hb Hn.
  assert (Ha : exists s m e, of_int z = S754_finite s m e /\
                 Z.pos (digits2_pos m) = 24 /\ -23 <= e).
  { destruct z as [|w|w]; [contradiction| |].
    - destruct (binary_round_exact false w 0 w ltac:(lia) ltac:(lia)) as (m & Hr & _ & Hd);
        [simpl; lia|].
      pose proof (digits_spec w). exists false, m, (Z.pos (digits2_pos w) - 24).
      split; [exact Hr|]. split; [exact Hd | lia].
    - destruct (binary_round_exact true w 0 w ltac:(lia) ltac:(lia)) as (m & Hr & _ & Hd);
        [simpl; lia|].
      pose proof (digits_spec w). exists true, m, (Z.pos (digits2_pos w) - 24).
      split; [exact Hr|]. split; [exact Hd | lia]. }
  destruct Ha as (s & m & e & -> & Hm & He).
  destruct (Z.eq_dec n 0) as [->|Hn0]; [reflexivity|].
  destruct (of_int_count n ltac:(lia)) as (mn & en & -> & Hmn & Hen).
  destruct (div_core_scalb m e mn en Hm Hmn ltac:(lia)) as (q & e' & l & Hq & He' & Hcore).
  specialize (Hcore 0 ltac:(lia)). rewrite !Z.add_0_r in Hcore.
  unfold div, SFdiv, prec, emax. rewrite Hcore.
  destruct (round_aux_shape (xorb s false) q l Hq) as (m1 & k & _ & _ & Hshape).
  rewrite (Hshape e' He'). destruct (_ <=? _); reflexivity.
Qed.

Lemma xydiff_of_int_swap (P : nat) (vals : list Z) :
  (P <= 256)%nat -> Forall uint16 vals -> length vals = (P * 2)%nat ->
  xydiff_of P (channel_diff_int (swap_channels vals)) =
  (let v := xydiff_of P (channel_diff_int vals) in if is_zero v then v else opp v).
Proof.
  intros HP Hu Hl. cbv zeta.
  rewrite !xydiff_of_int_exact by (try apply swap_channels_Forall; assumption).
  set (S := Zsum (map (signed_diff vals) (seq 0 P))).
  assert (HS' : Zsum (map (signed_diff (swap_channels vals)) (seq 0 P)) = - S).
  { unfold S, Zsum. rewrite <- (Zsum_acc_opp _ 0), map_map. f_equal.
    apply map_ext_in. intros i Hi. apply in_seq in Hi. apply signed_diff_swap. lia. }
  rewrite HS'.
  assert (HSb : Z.abs S <= 65535 * Z.of_nat P).
  { unfold S, Zsum.
    pose proof (Zsum_acc_bound 65535 (map (signed_diff vals) (seq 0 P)) 0) as H.
    rewrite length_map, length_seq in H. simpl Z.abs in H. apply H.
    apply List.Forall_forall. intros x Hx. apply in_map_iff in Hx as (i & <- & _).
    apply signed_diff_bound. exact Hu. }
  assert (HSlt : - 2 ^ 24 < S < 2 ^ 24) by (change (2 ^ 24) with 16777216; lia).
  destruct (Z.eq_dec S 0) as [->|HS0].
  - change (- 0) with 0. change (of_int 0) with (S754_zero false).
    destruct (of_int (Z.of_nat P)) as [[]|[]| |[] ? ?]; reflexivity.
  - rewrite (of_int_opp S HS0 HSlt), div_opp_l.
    rewrite (div_of_int_nonzero S (Z.of_nat P) HS0 HSlt)
      by (change (2 ^ 32) with 4294967296; lia).
    reflexivity.
Qed.

(** X11.  The same in the binary32 arithmetic of the code, for a
    fixed-point two-channel file of 1 to 256 probes: with the channels of
    every probe exchanged every xydiff value changes its sign, except
    that a value of zero stays +0.0; both files are files whose names can
    be copied ([runnable]).  (Without a probe every value is the
    NaN 0.0/0, the same in both files.) *)
Theorem X11_xydiff_changes_sign_in_binary32 (NS : nat) (st st' : QCState float)
    (recs : list (string * list Z)) :
  let s := qcsim st in
  let s' := qcsim st' in
  runnable NS s ->
  runnable NS s' ->
  numProbes s' = numProbes s ->
  (0 < numProbes s <= 256)%nat ->
  numChannels s = 2%nat ->
  numChannels s' = 2%nat ->
  simData s = IntData recs ->
  simData s' = IntData (map (fun r => (r.1, swap_channels r.2)) recs) ->
  fst (writeXydiff NS st') = Ok tt /\
  fst (writeXydiff NS st) = Ok tt /\
  outFile (snd (writeXydiff NS st')) =
    option_map (map (fun l : string * float =>
                       (l.1, if is_zero l.2 then l.2 else opp l.2)))
               (outFile (snd (writeXydiff NS st))).
Proof.
  intros s s' Hwf Hwf' HP [_ HP256] HC HC' Hd Hd'.
  rewrite (writeXydiff_ok NS st Hwf HC), (writeXydiff_ok NS st' Hwf' HC').
  fold s s'. split; [reflexivity|]. split; [reflexivity|].
  cbn [snd]. unfold with_output. cbn [outFile option_map]. f_equal.
  destruct Hwf as [[_ Hsz _ Hu] _ _]. fold s in Hsz, Hu.
  rewrite HP, Hd' . rewrite Hd in Hsz, Hu |- *. rewrite HC in Hsz.
  cbn [xydiff_lines signal_view] in *. rewrite !map_map.
  apply map_ext_in. intros r Hr. cbn [fst snd]. f_equal.
  rewrite List.Forall_forall in Hsz, Hu.
  pose proof (Hsz _ (in_map (fun r : string * list Z => (r.1, map of_Z r.2)) _ _ Hr)) as Hl.
  cbn [snd] in Hl. rewrite length_map in Hl.
  apply xydiff_of_int_swap; [exact HP256 | apply Hu; exact Hr | exact Hl].
Qed.

Lemma X11_witness :
  outFile (snd (writeXydiff NAME_SIZE (fresh scenario_swapped))) =
  option_map (map (fun l : string * float =>
                     (l.1, if is_zero l.2 then l.2 else opp l.2)))
             (outFile (snd (writeXydiff NAME_SIZE (fresh scenario)))).
Proof.
  refine (proj2 (proj2 (X11_xydiff_changes_sign_in_binary32 NAME_SIZE (fresh scenario)
            (fresh scenario_swapped) _ scenario_runnable scenario_swapped_runnable
            eq_refl _ eq_refl eq_refl eq_refl eq_refl))).
  simpl. lia.
Defined.

#[local] Existing Instance Exact.ops.

Lemma fsum_opp (l : list R) (a : R) :
  fold_left Rplus (map Ropp l) (- a)%R = (- fold_left Rplus l a)%R.
Proof.
  revert a; induction l as [|x l IH]; intros a; simpl; [reflexivity|].
  rewrite <- Ropp_plus_distr. apply IH.
Qed.

Lemma fmean_opp {A} (f : A -> R) (l : list A) :
  fmean (FO := Exact.ops) (map (fun i => (- f i)%R) l) =
  (- fmean (FO := Exact.ops) (map f l))%R.
Proof.
  unfold fmean, fsum. cbn [fadd fdiv fzero of_Z Exact.ops]. rewrite !length_map.
  rewrite <- (map_map f Ropp). rewrite <- Ropp_0 at 1. rewrite fsum_opp.
  unfold Rdiv. rewrite Ropp_mult_distr_l. reflexivity.
Qed.

Lemma xydiff_lines_swap P (d : SimData R) :
  Forall (fun r : string * list R => length r.2 = (P * 2)%nat) (signal_view d) ->
  xydiff_lines (FO := Exact.ops) P (swap_data d) =
  map (fun l => (l.1, (- l.2)%R)) (xydiff_lines (FO := Exact.ops) P d).
Proof.
  intros Hsz. rewrite List.Forall_forall in Hsz.
  destruct d as [rs|rs]; cbn [xydiff_lines swap_data signal_view] in *;
    rewrite !map_map; apply map_ext_in; intros r Hr; cbn [fst snd]; f_equal;
    unfold xydiff_of; rewrite <- fmean_opp; apply (f_equal fmean);
    apply map_ext_in; intros i Hi; apply in_seq in Hi.
  - pose proof (Hsz _ Hr) as Hl.
    destruct (swap_channels_lookup r.2 i ltac:(lia)) as [H0 H1].
    unfold channel_diff_float, aget. rewrite H0, H1.
    cbn [fsub Exact.ops]. ring.
  - pose proof (Hsz _ (in_map (fun r : string * list Z => (r.1, map IZR r.2)) _ _ Hr)) as Hl.
    cbn [snd] in Hl. rewrite length_map in Hl.
    destruct (swap_channels_lookup r.2 i ltac:(lia)) as [H0 H1].
    unfold channel_diff_int, signed_diff. rewrite H0, H1.
    cbn [of_Z Exact.ops]. rewrite <- opp_IZR. f_equal. lia.
Qed.

(** X6.  xydiff is channel 1 minus channel 0: in exact arithmetic the
    file with the two channels of every probe exchanged gets the same
    names with every value negated, in either encoding.  Both files are
    files whose layout is right and whose names can be copied
    ([runnable]). *)
Theorem X6_xydiff_changes_sign_with_channel_order (NS : nat) (st st' : QCState R) :
  let s := qcsim st in
  let s' := qcsim st' in
  runnable NS s ->
  runnable NS s' ->
  numProbes s' = numProbes s ->
  numChannels s = 2%nat ->
  numChannels s' = 2%nat ->
  simData s' = swap_data (simData s) ->
  fst (writeXydiff NS st') = Ok tt /\
  fst (writeXydiff NS st) = Ok tt /\
  outFile (snd (writeXydiff NS st')) =
    option_map (map (fun l : string * R => (l.1, (- l.2)%R)))
               (outFile (snd (writeXydiff NS st))).
Proof.
  intros s s' Hwf Hwf' HP HC HC' Hd.
  rewrite (writeXydiff_ok NS st Hwf HC), (writeXydiff_ok NS st' Hwf' HC').
  fold s s'. split; [reflexivity|]. split; [reflexivity|].
  cbn [snd]. unfold with_output. cbn [outFile option_map]. f_equal.
  rewrite HP, Hd. apply xydiff_lines_swap.
  pose proof (lo_sizes _ (rn_layout _ _ Hwf)) as Hsz. fold s in Hsz.
  rewrite HC in Hsz. exact Hsz.
Qed.

Lemma exact_small_swapped_runnable : runnable NAME_SIZE exact_small_swapped.
Proof. solve_runnable. Qed.

Lemma X6_witness :
  outFile (snd (writeXydiff NAME_SIZE (fresh exact_small_swapped))) =
  option_map (map (fun l : string * R => (l.1, (- l.2)%R)))
             (outFile (snd (writeXydiff NAME_SIZE (fresh exact_small)))).
Proof.
  exact (proj2 (proj2 (X6_xydiff_changes_sign_with_channel_order NAME_SIZE
           (fresh exact_small) (fresh exact_small_swapped) exact_small_runnable
           exact_small_swapped_runnable eq_refl eq_refl eq_refl eq_refl))).
Defined.

(** X16.  Unlike the magnitude metric, xydiff is not normalized: in exact
    arithmetic, multiplying every value of a file of floats by k
    multiplies every xydiff value by k.  Both files are files whose
    layout is right and whose names can be copied ([runnable]). *)
Theorem X16_xydiff_scales_with_the_data (NS : nat) (st st' : QCState R)
    (recs : list (string * list R)) (k : R) :
  let s := qcsim st in
  let s' := qcsim st' in
  runnable NS s ->
  runnable NS s' ->
  numProbes s' = numProbes s ->
  numChannels s = 2%nat ->
  numChannels s' = 2%nat ->
  simData s = FloatData recs ->
  simData s' = FloatData (scale_view k recs) ->
  fst (writeXydiff NS st') = Ok tt /\
  fst (writeXydiff NS st) = Ok tt /\
  outFile (snd (writeXydiff NS st')) =
    option_map (map (fun l : string * R => (l.1, (k * l.2)%R)))
               (outFile (snd (writeXydiff NS st))).
Proof.
  intros s s' Hwf Hwf' HP HC HC' Hd Hd'.
  rewrite (writeXydiff_ok NS st Hwf HC), (writeXydiff_ok NS st' Hwf' HC').
  fold s s'. split; [reflexivity|]. split; [reflexivity|].
  cbn [snd]. unfold with_output. cbn [outFile option_map]. f_equal.
  rewrite HP, Hd, Hd'. unfold scale_view. cbn [xydiff_lines]. rewrite !map_map.
  apply map_ext. intros r. cbn [fst snd fmul Exact.ops]. f_equal.
  unfold xydiff_of, fmean, fsum. cbn [fadd fdiv fzero of_Z Exact.ops].
  rewrite !length_map.
  rewrite (map_ext _ (fun i => (k * channel_diff_float r.2 i)%R)).
  - rewrite <- (map_map (channel_diff_float r.2) (Rmult k)).
    rewrite <- (Rmult_0_r k) at 1. rewrite fsum_acc_scaled.
    unfold Rdiv. rewrite Rmult_assoc. reflexivity.
  - intros i. unfold channel_diff_float, aget.
    change (map (Rmult k) r.2) with (Rmult k <$> r.2). rewrite !list_lookup_fmap.
    cbn [fsub fzero Exact.ops].
    destruct (r.2 !! (2 * i + 1)%nat), (r.2 !! (2 * i)%nat); simpl; ring.
Qed.

Lemma X16_witness :
  outFile (snd (writeXydiff NAME_SIZE (fresh exact_small_doubled))) =
  option_map (map (fun l : string * R => (l.1, (2 * l.2)%R)))
             (outFile (snd (writeXydiff NAME_SIZE (fresh exact_small)))).
Proof.
  exact (proj2 (proj2 (X16_xydiff_scales_with_the_data NAME_SIZE (fresh exact_small)
           (fresh exact_small_doubled) _ 2%R exact_small_runnable
           exact_small_doubled_runnable eq_refl eq_refl eq_refl eq_refl eq_refl))).
Defined.

End Symmetries.

(** ** Values that are not numbers *)

Section Not_a_number.
Import Binary32 Examples.

Lemma add_nan_l x : add S754_nan x = S754_nan.
Proof. reflexivity. Qed.

Lemma add_nan_r x : add x S754_nan = S754_nan.
Proof. destruct x; reflexivity. Qed.

Lemma div_nan_l x : div S754_nan x = S754_nan.
Proof. reflexivity. Qed.

Lemma div_nan_r x : div x S754_nan = S754_nan.
Proof. destruct x; reflexivity. Qed.

Lemma fold_add_nan_acc (l : list float) : fold_left add l S754_nan = S754_nan.
Proof. induction l as [|x l IH]; [reflexivity|]. simpl. exact IH. Qed.

Lemma fold_add_nan (l : list float) a : In S754_nan l -> fold_left add l a = S754_nan.
Proof.
  revert a; induction l as [|x l IH]; intros a Hin; [destruct Hin|].
  simpl. destruct Hin as [->|Hin].
  - rewrite add_nan_r. apply fold_add_nan_acc.
  - apply IH. exact Hin.
Qed.

Lemma sum_squares_nan (l : list float) : In S754_nan l -> sum_squares l = S754_nan.
Proof.
  unfold sum_squares. generalize (@fzero float ops) as a.
  induction l as [|x l IH]; intros a Hin; [destruct Hin|].
  cbn [fold_left fadd fmul ops]. destruct Hin as [->|Hin].
  - change (mul S754_nan S754_nan) with S754_nan. rewrite add_nan_r.
    clear. induction l as [|y l IH]; [reflexivity|]. simpl. exact IH.
  - apply IH. exact Hin.
Qed.

(** The magnitude of the probe that holds a NaN is a NaN. *)
Lemma probe_magnitude_nan C (vals : list float) j :
  vals !! j = Some S754_nan -> (0 < C)%nat ->
  probe_magnitude C vals (j / C) = S754_nan.
Proof.
  intros Hj HC. unfold probe_magnitude. rewrite sum_squares_nan; [reflexivity|].
  apply list_elem_of_In. apply (list_elem_of_lookup_2 _ (j mod C)).
  rewrite lookup_take_lt by (apply Nat.mod_upper_bound; lia).
  rewrite lookup_drop.
  replace (j / C * C + j mod C)%nat with j; [exact Hj|].
  rewrite (Nat.div_mod_eq j C) at 1. lia.
Qed.

(** X8.  A single NaN among the values of a file of floats spoils the
    whole magnitude output: it makes the magnitude of its probe a NaN in
    that sample, hence the baseline of that probe, hence one quotient in
    every sample; on a file whose layout is right and whose names can be
    copied ([runnable]) the run still returns normally and writes one
    line for every record, and every value written is a NaN. *)
Theorem X8_one_nan_spoils_every_sample (NS : nat) (st : QCState float)
    (recs : list (string * list float)) (k j : nat) (name : string) (vals : list float) :
  let s := qcsim st in
  runnable NS s ->
  simData s = FloatData recs ->
  recs !! k = Some (name, vals) ->
  vals !! j = Some S754_nan ->
  fst (writeMagnitude NS st) = Ok tt /\
  exists lines,
    outFile (snd (writeMagnitude NS st)) = Some lines /\
    map fst lines = map fst recs /\
    Forall (fun l : string * float => l.2 = S754_nan) lines.
Proof.
  intros s Hwf Hd Hk Hj. rewrite (writeMagnitude_ok NS st Hwf). fold s.
  split; [reflexivity|].
  exists (magnitude_lines (numProbes s) (numChannels s) (simData s)).
  split; [reflexivity|]. split; [rewrite magnitude_lines_names, Hd; reflexivity|].
  pose proof (lo_sizes _ (rn_layout _ _ Hwf)) as Hsz. fold s in Hsz.
  rewrite Hd in Hsz |- *. cbn [signal_view] in Hsz.
  pose proof (Forall_lookup_1 _ _ _ _ Hsz Hk) as Hlen. simpl in Hlen.
  assert (Hjl : (j < numProbes s * numChannels s)%nat)
    by (rewrite <- Hlen; apply (lookup_lt_Some _ _ _ Hj)).
  set (P := numProbes s) in *. set (C := numChannels s) in *.
  assert (HC : (0 < C)%nat) by (destruct C; [lia | lia]).
  assert (Hi : (j / C < P)%nat) by (apply Nat.Div0.div_lt_upper_bound; lia).
  assert (HB : baseline C recs (j / C) = S754_nan).
  { unfold baseline, fmean, fsum. cbn [fdiv fadd ops].
    rewrite (fold_add_nan _ _); [reflexivity|].
    apply in_map_iff. exists (name, vals). split.
    - apply probe_magnitude_nan; assumption.
    - apply list_elem_of_In. apply (list_elem_of_lookup_2 _ k). exact Hk. }
  unfold magnitude_lines. cbn [signal_view].
  apply List.Forall_forall. intros l Hl. apply in_map_iff in Hl as (r & <- & _).
  cbn [snd]. unfold normalized_magnitude, fmean, fsum. cbn [fdiv fadd ops].
  rewrite (fold_add_nan _ _); [reflexivity|].
  apply in_map_iff. exists (j / C)%nat. split.
  - rewrite HB. apply div_nan_r.
  - apply in_seq. lia.
Qed.

Lemma one_nan_runnable : runnable NAME_SIZE one_nan.
Proof. solve_runnable. Qed.

Lemma X8_witness :
  exists lines,
    outFile (snd (writeMagnitude NAME_SIZE (fresh one_nan))) = Some lines /\
    map fst lines = ["S1"%string; "S2"%string] /\
    Forall (fun l : string * float => l.2 = S754_nan) lines.
Proof.
  exact (proj2 (X8_one_nan_spoils_every_sample NAME_SIZE (fresh one_nan) _ 0 1 _ _
                  one_nan_runnable eq_refl eq_refl eq_refl)).
Defined.

Lemma fold_add_zeros {A} (l : list A) :
  fold_left add (map (fun _ => S754_zero false) l) (S754_zero false) = S754_zero false.
Proof. induction l as [|x l IH]; [reflexivity|]. simpl. exact IH. Qed.

(** X13.  A header that declares no channel is not refused either: every
    probe magnitude is sqrt(0.0) = 0.0, every baseline is 0.0, every
    quotient is 0.0/0.0, and with at least one probe and one sample the
    magnitude run writes a NaN for every record of a file whose layout is
    right and whose names can be copied ([runnable]). *)
Theorem X13_no_channel_writes_nan (NS : nat) (st : QCState float) :
  let s := qcsim st in
  runnable NS s ->
  numChannels s = 0%nat ->
  (0 < numProbes s)%nat ->
  (0 < numSamples s)%nat ->
  Z.of_nat (numSamples s) < 2 ^ 32 ->
  fst (writeMagnitude NS st) = Ok tt /\
  exists lines,
    outFile (snd (writeMagnitude NS st)) = Some lines /\
    map fst lines = map fst (signal_view (simData s)) /\
    Forall (fun l : string * float => l.2 = S754_nan) lines.
Proof.
  intros s Hwf HC HP HN0 HN. rewrite (writeMagnitude_ok NS st Hwf). fold s.
  split; [reflexivity|].
  exists (magnitude_lines (numProbes s) (numChannels s) (simData s)).
  split; [reflexivity|]. split; [apply magnitude_lines_names|].
  pose proof (lo_count _ (rn_layout _ _ Hwf)) as Hc. fold s in Hc.
  rewrite HC. set (recs := signal_view (simData s)) in *.
  assert (Hpm : forall vals i, probe_magnitude 0 vals i = S754_zero false) by reflexivity.
  assert (HB : forall i, baseline 0 recs i = S754_zero false).
  { intros i. unfold baseline, fmean, fsum. cbn [fdiv fadd fzero of_Z ops].
    rewrite length_map, Hc.
    rewrite (map_ext _ (fun _ => S754_zero false)) by (intros r; apply Hpm).
    rewrite fold_add_zeros.
    destruct (of_int_count (Z.of_nat (numSamples s)) ltac:(lia)) as (m & e & -> & _).
    reflexivity. }
  unfold magnitude_lines. fold recs.
  apply List.Forall_forall. intros l Hl. apply in_map_iff in Hl as (r & <- & _).
  cbn [snd]. unfold normalized_magnitude, fmean, fsum. cbn [fdiv fadd ops].
  rewrite (fold_add_nan _ _); [reflexivity|].
  apply in_map_iff. exists 0%nat. split.
  - rewrite HB, Hpm. reflexivity.
  - apply in_seq. lia.
Qed.

Lemma no_channels_runnable : runnable NAME_SIZE no_channels.
Proof. solve_runnable. Qed.

Lemma X13_witness :
  exists lines,
    outFile (snd (writeMagnitude NAME_SIZE (fresh no_channels))) = Some lines /\
    map fst lines = ["S1"%string; "S2"%string] /\
    Forall (fun l : string * float => l.2 = S754_nan) lines.
Proof.
  refine (proj2 (X13_no_channel_writes_nan NAME_SIZE (fresh no_channels)
                   no_channels_runnable eq_refl _ _ _)); simpl; lia.
Defined.

End Not_a_number.

(** ** When a baseline is zero *)

Section Zero_baseline.
Import Binary32 Examples.

Lemma rounded_positive m e :
  Z.pos (digits2_pos m) = 24 -> -23 <= e ->
  regular (if e <=? 104 then S754_finite false m e else S754_infinity false) /\
  is_zero (if e <=? 104 then S754_finite false m e else S754_infinity false) = false.
Proof.
  intros Hm He.
  destruct (e <=? 104); [split; [split; assumption | reflexivity] | split; [exact I | reflexivity]].
Qed.

Lemma add_regular a x :
  regular a -> regular x ->
  regular (add a x) /\ is_zero (add a x) = is_zero a && is_zero x.
Proof.
  intros Ha Hx.
  destruct a as [[]|[]| |[] ma ea]; try contradiction;
  destruct x as [[]|[]| |[] mx ex]; try contradiction;
    try (split; [first [exact I | exact Ha | exact Hx] | reflexivity]).
  destruct Ha as [Ha Hea], Hx as [Hx Hex].
  destruct (add_finite ma ea mx ex Ha Hx) as (M & HM & Hadd).
  specialize (Hadd 0). rewrite !Z.add_0_r in Hadd. rewrite Hadd.
  assert (HM23 : 2 ^ 23 <= M).
  { etransitivity; [|exact HM]. apply Z.pow_le_mono_r; lia. }
  assert (HD : 23 + (Z.max ea ex - Z.min ea ex) + 1 <= Zdigits2 M)
    by (apply Zdigits2_ge; [lia | exact HM]).
  destruct (round_aux_regular M (Z.min ea ex) loc_Exact (-23) HM23)
    as (m & e & Hm & He & ->); [lia | lia |].
  apply rounded_positive; assumption.
Qed.

Lemma mul_square_regular x :
  regular x -> regular (mul x x) /\ is_zero (mul x x) = is_zero x.
Proof.
  intros Hx.
  destruct x as [[]|[]| |[] m e]; try contradiction; try (split; [exact I | reflexivity]).
  destruct Hx as [Hm He].
  pose proof (digits_spec m) as Hb. rewrite Hm in Hb. change (24 - 1) with 23 in Hb.
  assert (HM : 2 ^ 46 <= Z.pos (m * m)).
  { rewrite Pos2Z.inj_mul. change (2 ^ 46) with (2 ^ 23 * 2 ^ 23).
    apply Z.mul_le_mono_nonneg; lia. }
  assert (HD : 47 <= Zdigits2 (Z.pos (m * m)))
    by (apply (Zdigits2_ge _ 46); [lia | exact HM]).
  unfold mul, SFmul, prec, emax. cbn [xorb].
  destruct (round_aux_regular (Z.pos (m * m)) (e + e) loc_Exact (-23))
    as (m1 & e1 & Hm1 & He1 & ->).
  - change (2 ^ 46) with (2 ^ 23 * 2 ^ 23) in HM. lia.
  - lia.
  - lia.
  - apply rounded_positive; assumption.
Qed.

Lemma sqrt_regular t :
  regular t -> regular (sqrt t) /\ is_zero (sqrt t) = is_zero t.
Proof.
  intros Ht.
  destruct t as [[]|[]| |[] m e]; try contradiction; try (split; [exact I | reflexivity]).
  destruct Ht as [Hm He].
  destruct (sqrt_core_scalb m e 0 Hm He ltac:(lia)) as (q & e' & l & Hq & He' & H0 & _).
  unfold sqrt, SFsqrt, prec, emax. rewrite H0.
  destruct (round_aux_regular q e' l (-23) Hq) as (m1 & e1 & Hm1 & He1 & ->).
  - lia.
  - pose proof (Zdigits2_ge q 23 ltac:(lia) Hq). lia.
  - apply rounded_positive; assumption.
Qed.

Lemma div_by_count_zero a mn en :
  regular a -> Z.pos (digits2_pos mn) = 24 -> en <= 53 ->
  is_zero (div a (S754_finite false mn en)) = is_zero a.
Proof.
  intros Ha Hn Hen.
  destruct a as [[]|[]| |[] ma ea]; try contradiction; try reflexivity.
  destruct Ha as [Ha Hea].
  destruct (div_core_scalb ma ea mn en Ha Hn ltac:(lia)) as (q & e' & l & Hq & He' & Hcore).
  specialize (Hcore 0 ltac:(lia)). rewrite !Z.add_0_r in Hcore.
  unfold div, SFdiv, prec, emax. rewrite Hcore. cbn [xorb].
  destruct (round_aux_shape false q l Hq) as (m & k & _ & _ & Hshape).
  rewrite (Hshape e' He'). destruct (_ <=? _); reflexivity.
Qed.

Lemma sum_squares_regular (l : list float) :
  Forall regular l ->
  regular (sum_squares l) /\ is_zero (sum_squares l) = forallb is_zero l.
Proof.
  intros Hl. unfold sum_squares. cbn [fadd fmul fzero ops].
  assert (H : forall a, regular a ->
            regular (fold_left (fun total x => add total (mul x x)) l a) /\
            is_zero (fold_left (fun total x => add total (mul x x)) l a) =
              is_zero a && forallb is_zero l).
  { induction Hl as [|x l Hx _ IH]; intros a Ha.
    - simpl. rewrite andb_true_r. split; [exact Ha | reflexivity].
    - cbn [fold_left forallb].
      destruct (mul_square_regular x Hx) as [Hr Hzm].
      destruct (add_regular a (mul x x) Ha Hr) as [Hr' Hza].
      destruct (IH _ Hr') as [Hreg Hz]. split; [exact Hreg|].
      rewrite Hz, Hza, Hzm, andb_assoc. reflexivity. }
  apply (H (S754_zero false) I).
Qed.

Lemma fsum_regular (l : list float) :
  Forall regular l ->
  regular (fsum l) /\ is_zero (fsum l) = forallb is_zero l.
Proof.
  intros Hl. unfold fsum. cbn [fadd fzero ops].
  assert (H : forall a, regular a ->
            regular (fold_left add l a) /\
            is_zero (fold_left add l a) = is_zero a && forallb is_zero l).
  { induction Hl as [|x l Hx _ IH]; intros a Ha.
    - simpl. rewrite andb_true_r. split; [exact Ha | reflexivity].
    - cbn [fold_left forallb].
      destruct (add_regular a x Ha Hx) as [Hr' Hza].
      destruct (IH _ Hr') as [Hreg Hz]. split; [exact Hreg|].
      rewrite Hz, Hza, andb_assoc. reflexivity. }
  apply (H (S754_zero false) I).
Qed.

Lemma of_int_zero v : 0 <= v < 2 ^ 24 -> (is_zero (of_int v) = true <-> v = 0).
Proof.
  intros Hv. destruct v as [|w|w]; [split; reflexivity | | lia].
  destruct (binary_round_exact false w 0 w ltac:(lia) ltac:(lia)) as (m & Hr & _);
    [simpl; lia|].
  unfold of_int, binary_normalize, prec, emax. rewrite Hr. split; [discriminate | lia].
Qed.

Lemma signals_regular (vals : list Z) :
  Forall uint16 vals -> Forall regular (map of_int vals).
Proof.
  intros H. apply (signals_scalb 0 vals); [lia|].
  eapply Forall_impl; [exact H|]. intros v [H0 H1]. cbn beta.
  change (2 ^ 0) with 1. change (2 ^ 24) with 16777216. lia.
Qed.

(** A probe magnitude of a fixed-point record is zero exactly when every
    channel of the probe reads 0. *)
Lemma probe_magnitude_zero C (vals : list Z) i :
  Forall uint16 vals -> (i * C + C <= length vals)%nat ->
  regular (probe_magnitude C (map of_int vals) i) /\
  (is_zero (probe_magnitude C (map of_int vals) i) = true <->
   forall j, (j < C)%nat -> vals !! (i * C + j)%nat = Some 0).
Proof.
  intros Hu Hlen. unfold probe_magnitude.
  set (chunk := take C (drop (i * C) (map of_int vals))).
  assert (Hreg : Forall regular chunk)
    by (apply Forall_take, Forall_drop, signals_regular; exact Hu).
  destruct (sum_squares_regular chunk Hreg) as [Hr Hz].
  destruct (sqrt_regular _ Hr) as [Hr' Hz']. cbn [fsqrt ops].
  split; [exact Hr'|]. rewrite Hz', Hz, forallb_forall.
  assert (Hchunk : forall j, (j < C)%nat ->
            exists v, vals !! (i * C + j)%nat = Some v /\ 0 <= v < 2 ^ 24 /\
                      chunk !! j = Some (of_int v)).
  { intros j Hj. destruct (lookup_lt_is_Some_2 vals (i * C + j) ltac:(lia)) as [v Hv].
    exists v. split; [exact Hv|]. split.
    - pose proof (Forall_lookup_1 _ _ _ _ Hu Hv) as [? ?].
      change (2 ^ 24) with 16777216. lia.
    - unfold chunk. rewrite lookup_take_lt, lookup_drop by lia.
      change (map of_int vals) with (of_int <$> vals).
      rewrite list_lookup_fmap, Hv. reflexivity. }
  split.
  - intros H j Hj. destruct (Hchunk j Hj) as (v & Hv & Hb & Hc).
    rewrite Hv. f_equal. apply (of_int_zero v Hb). apply H.
    apply list_elem_of_In. apply (list_elem_of_lookup_2 _ j). exact Hc.
  - intros H x Hx. apply list_elem_of_In in Hx.
    apply list_elem_of_lookup_1 in Hx as [j Hj].
    assert (HjC : (j < C)%nat).
    { destruct (Nat.lt_ge_cases j C) as [|Hge]; [assumption|].
      unfold chunk in Hj. rewrite lookup_take_ge in Hj by lia. discriminate. }
    destruct (Hchunk j HjC) as (v & Hv & Hb & Hc).
    rewrite Hc in Hj. injection Hj as <-.
    rewrite (H j HjC) in Hv. injection Hv as <-. reflexivity.
Qed.

(** X9.  For a fixed-point file, in the binary32 arithmetic of the code,
    the baseline that pass 1 computes for a probe is zero exactly when
    every sample reads 0 on every channel of that probe: nothing rounds
    to zero on the way, and nothing else makes the divisions of pass 2
    divisions by zero. *)
Theorem X9_baseline_zero_iff_probe_dead (NS : nat) (st : QCState float)
    (recs : list (string * list Z)) :
  let s := qcsim st in
  well_formed NS s ->
  simData s = IntData recs ->
  (0 < numSamples s)%nat ->
  Z.of_nat (numSamples s) < 2 ^ 32 ->
  exists B st1,
    bind reset (fun _ => magnitudeByProbe (calloc (numProbes s))) st = (Ok B, st1) /\
    length B = numProbes s /\
    forall i, (i < numProbes s)%nat ->
      (is_zero (aget B i) = true <->
       forall r, In r recs -> forall j, (j < numChannels s)%nat ->
         r.2 !! (i * numChannels s + j)%nat = Some 0).
Proof.
  intros s Hwf Hd HN0 HN.
  eexists; eexists. split; [apply (pass1_run st (wf_layout _ _ Hwf))|]. fold s.
  split; [rewrite length_map, length_seq; reflexivity|].
  intros i Hi. unfold aget. rewrite list_lookup_fmap, lookup_seq_lt by exact Hi.
  cbn [fmap option_fmap option_map default Nat.add]. unfold Datatypes.id.
  destruct Hwf as [[Hcount Hsz _ Hu] _ _]. fold s in Hcount, Hsz, Hu.
  rewrite Hd in Hcount, Hsz, Hu |- *. cbn [signal_view of_Z ops] in *.
  rewrite length_map in Hcount.
  set (P := numProbes s) in *. set (C := numChannels s) in *.
  assert (Hpm : forall r, In r recs ->
            regular (probe_magnitude C (map of_int r.2) i) /\
            (is_zero (probe_magnitude C (map of_int r.2) i) = true <->
             forall j, (j < C)%nat -> r.2 !! (i * C + j)%nat = Some 0)).
  { intros r Hr. rewrite List.Forall_forall in Hsz, Hu.
    pose proof (Hsz _ (in_map (fun r : string * list Z => (r.1, map of_int r.2)) _ _ Hr)) as Hl.
    cbn [snd] in Hl. rewrite length_map in Hl.
    apply probe_magnitude_zero; [apply Hu; exact Hr | nia]. }
  unfold baseline, fmean. rewrite !length_map, map_map. cbn [snd fdiv of_Z ops].
  destruct (of_int_count (Z.of_nat (length recs)) ltac:(lia)) as (m & e & -> & Hm & He).
  assert (Hreg : Forall regular (map (fun r : string * list Z =>
                                        probe_magnitude C (map of_int r.2) i) recs)).
  { apply List.Forall_forall. intros x Hx. apply in_map_iff in Hx as (r & <- & Hr).
    apply Hpm. exact Hr. }
  destruct (fsum_regular _ Hreg) as [Hrs Hzs].
  rewrite (div_by_count_zero _ m e Hrs Hm ltac:(lia)), Hzs, forallb_forall.
  split.
  - intros H r Hr. apply Hpm; [exact Hr|]. apply H.
    apply (in_map (fun r : string * list Z => probe_magnitude C (map of_int r.2) i)).
    exact Hr.
  - intros H x Hx. apply in_map_iff in Hx as (r & <- & Hr).
    apply Hpm; [exact Hr|]. apply H. exact Hr.
Qed.

Lemma X9_witness :
  exists B st1,
    bind reset (fun _ => magnitudeByProbe (calloc 2)) (fresh dead_probe) = (Ok B, st1) /\
    length B = 2%nat /\
    forall i, (i < 2)%nat ->
      (is_zero (aget B i) = true <->
       forall r, In r [("S1"%string, [0; 0; 3; 4]); ("S2"%string, [0; 0; 6; 8])] ->
         forall j, (j < 2)%nat -> r.2 !! (i * 2 + j)%nat = Some 0).
Proof.
  apply (X9_baseline_zero_iff_probe_dead NAME_SIZE (fresh dead_probe) _
           dead_probe_well_formed eq_refl).
  - simpl. lia.
  - simpl. lia.
Defined.

End Zero_baseline.

(** ** The average of the normalized magnitudes *)

Section Average.
Import Exact Examples.
#[local] Existing Instance Exact.ops.
Local Open Scope R_scope.

Lemma Rsum_acc (l : list R) (a : R) : fold_left Rplus l a = a + fold_left Rplus l 0.
Proof.
  revert a; induction l as [|x l IH]; intros a; simpl; [ring|].
  rewrite (IH (a + x)), (IH (0 + x)). ring.
Qed.

Lemma Rsum_cons (x : R) (l : list R) :
  fold_left Rplus (x :: l) 0 = x + fold_left Rplus l 0.
Proof. simpl. rewrite Rsum_acc. ring. Qed.

Lemma Rsum_div {A} (f : A -> R) (c : R) (l : list A) :
  fold_left Rplus (map (fun x => f x / c) l) 0 = fold_left Rplus (map f l) 0 / c.
Proof.
  induction l as [|x l IH]; [simpl; unfold Rdiv; ring|].
  cbn [map]. rewrite !Rsum_cons, IH. unfold Rdiv. ring.
Qed.

Lemma Rsum_plus {A} (f g : A -> R) (l : list A) :
  fold_left Rplus (map (fun x => f x + g x) l) 0 =
  fold_left Rplus (map f l) 0 + fold_left Rplus (map g l) 0.
Proof.
  induction l as [|x l IH]; [simpl; ring|].
  cbn [map]. rewrite !Rsum_cons, IH. ring.
Qed.

Lemma Rsum_const {A} (c : R) (l : list A) :
  fold_left Rplus (map (fun _ => c) l) 0 = INR (length l) * c.
Proof.
  induction l as [|x l IH]; [simpl; ring|].
  cbn [map]. rewrite Rsum_cons, IH. cbn [length]. rewrite S_INR. ring.
Qed.

(** A sum over the records of sums over the probes is the sum over the
    probes of the sums over the records. *)
Lemma Rsum_exchange {A B} (f : A -> B -> R) (rs : list A) (js : list B) :
  fold_left Rplus (map (fun r => fold_left Rplus (map (f r) js) 0) rs) 0 =
  fold_left Rplus (map (fun j => fold_left Rplus (map (fun r => f r j) rs) 0) js) 0.
Proof.
  induction rs as [|r rs IH].
  - simpl. rewrite Rsum_const. ring.
  - cbn [map]. rewrite Rsum_cons, IH.
    rewrite <- Rsum_plus. f_equal. apply map_ext. intros j.
    rewrite Rsum_cons. reflexivity.
Qed.

(** X10.  In exact arithmetic the normalized magnitudes of a file average
    to 1 over its samples, whatever the intensities are, as long as
    there is a sample, there is a probe and no baseline is zero: the
    normalization by the baselines fixes the scale of the metric.  The
    file is one whose layout is right and whose names can be copied
    ([runnable]). *)
Theorem X10_normalized_magnitudes_average_to_one (NS : nat) (st : QCState R) :
  let s := qcsim st in
  runnable NS s ->
  (0 < numSamples s)%nat ->
  (0 < numProbes s)%nat ->
  (forall i, (i < numProbes s)%nat ->
     baseline (numChannels s) (signal_view (simData s)) i <> 0) ->
  exists lines,
    outFile (snd (writeMagnitude NS st)) = Some lines /\
    length lines = numSamples s /\
    fmean (map snd lines) = 1.
Proof.
  intros s Hwf HN HP HB. rewrite (writeMagnitude_ok NS st Hwf). fold s.
  eexists. split; [reflexivity|].
  pose proof (lo_count _ (rn_layout _ _ Hwf)) as Hc. fold s in Hc.
  set (recs := signal_view (simData s)) in *.
  set (P := numProbes s) in *. set (C := numChannels s) in *.
  unfold magnitude_lines. fold recs. split; [rewrite length_map; exact Hc|].
  rewrite map_map. cbn [snd]. unfold fmean at 1, fsum. cbn [fadd fdiv fzero of_Z ops].
  rewrite length_map, Hc.
  unfold normalized_magnitude, fmean, fsum. cbn [fadd fdiv fzero of_Z ops].
  rewrite (map_ext _ (fun r : string * list R =>
             fold_left Rplus
               (map (fun i => probe_magnitude C r.2 i / baseline C recs i) (seq 0 P)) 0 /
             IZR (Z.of_nat P)))
    by (intros r; rewrite length_map, length_seq; reflexivity).
  rewrite (Rsum_div (fun r : string * list R =>
             fold_left Rplus
               (map (fun i => probe_magnitude C r.2 i / baseline C recs i) (seq 0 P)) 0)).
  rewrite (Rsum_exchange (fun (r : string * list R) i =>
             probe_magnitude C r.2 i / baseline C recs i)).
  assert (HNr : IZR (Z.of_nat (numSamples s)) <> 0) by (apply not_0_IZR; lia).
  assert (HPr : IZR (Z.of_nat P) <> 0) by (apply not_0_IZR; lia).
  rewrite (map_ext_in _ (fun _ => IZR (Z.of_nat (numSamples s)))).
  - rewrite Rsum_const, length_seq, INR_IZR_INZ. field. split; assumption.
  - intros i Hi. apply in_seq in Hi.
    rewrite (Rsum_div (fun r : string * list R => probe_magnitude C r.2 i)).
    pose proof (HB i ltac:(lia)) as HBi. fold recs C in HBi.
    unfold baseline, fmean, fsum in HBi |- *. cbn [fadd fdiv fzero of_Z ops] in HBi |- *.
    rewrite length_map, Hc in HBi |- *.
    set (S := fold_left Rplus (map (fun r : string * list R => probe_magnitude C r.2 i) recs) 0)
      in *.
    field. split; [assumption|].
    intros HS. apply HBi. rewrite HS. unfold Rdiv. ring.
Qed.

Lemma X10_witness :
  exists lines,
    outFile (snd (writeMagnitude NAME_SIZE (fresh exact_small))) = Some lines /\
    length lines = 1%nat /\
    fmean (map snd lines) = 1.
Proof.
  apply (X10_normalized_magnitudes_average_to_one NAME_SIZE (fresh exact_small)
           exact_small_runnable).
  - simpl. lia.
  - simpl. lia.
  - intros i Hi. simpl in Hi. assert (i = 0%nat) as -> by lia.
    unfold baseline, fmean, fsum, probe_magnitude, sum_squares. simpl.
    replace (0 + 3 * 3 + 4 * 4) with (5 * 5) by ring.
    rewrite sqrt_square by lra. change (Z.of_nat 1) with 1%Z. lra.
Defined.

(** X15.  [magnitudeByProbe] adds the magnitudes to what its array
    already holds (line 148) before it divides by the number of samples:
    in exact arithmetic cell j ends as the baseline of probe j plus a
    1/N share of its initial content.  The baselines come out right
    because the caller passes an array from [calloc]. *)
Theorem X15_pass1_adds_to_its_array (NS : nat) (st : QCState R) (magByProbe : list R) :
  let s := qcsim st in
  well_formed NS s ->
  position s = 0%nat ->
  (0 < numSamples s)%nat ->
  length magByProbe = numProbes s ->
  exists B st1,
    magnitudeByProbe magByProbe st = (Ok B, st1) /\
    length B = numProbes s /\
    forall j, (j < numProbes s)%nat ->
      aget B j = baseline (numChannels s) (signal_view (simData s)) j +
                 aget magByProbe j / IZR (Z.of_nat (numSamples s)).
Proof.
  intros s Hwf Hpos HN Hlen.
  eexists; eexists. split; [apply (magnitudeByProbe_ok st magByProbe (wf_layout _ _ Hwf) Hpos Hlen)|].
  fold s. split; [rewrite length_imap; exact Hlen|].
  intros j Hj. unfold aget at 1. rewrite list_lookup_imap.
  destruct (lookup_lt_is_Some_2 magByProbe j ltac:(lia)) as [b Hb].
  unfold aget. rewrite Hb. cbn [fmap option_fmap option_map default fdiv fadd of_Z ops].
  unfold baseline, fmean, fsum. cbn [fdiv fadd fzero of_Z ops].
  rewrite length_map, (lo_count _ (wf_layout _ _ Hwf)). fold s.
  unfold Datatypes.id. rewrite (Rsum_acc _ b). field. apply not_0_IZR. lia.
Qed.

Lemma X15_witness :
  exists B st1,
    magnitudeByProbe [10] (fresh exact_small) = (Ok B, st1) /\
    length B = 1%nat /\
    forall j, (j < 1)%nat ->
      aget B j = baseline 2 (signal_view (simData exact_small)) j +
                 aget [10] j / IZR (Z.of_nat 1).
Proof.
  apply (X15_pass1_adds_to_its_array NAME_SIZE (fresh exact_small) [10]
           exact_small_well_formed eq_refl).
  - simpl. lia.
  - reflexivity.
Defined.

End Average.

(** ** Reads past the end of a record *)

Section Bounds.
Context {F : Type} {FO : FloatOps F}.

Lemma vector_at_past_end {V} (v : list V) (k : nat) (st : QCState F) :
  (length v <= k)%nat -> vector_at v (Z.of_nat k) st = (Throw OutOfRange, st).
Proof.
  intros H. unfold vector_at.
  destruct (Z.ltb_spec (Z.of_nat k) 0); [lia|].
  rewrite Nat2Z.id, (lookup_ge_None_2 _ _ H). reflexivity.
Qed.

(** The read of one signal in [getNextMagnitudes], inside and past the
    end of the vector of the file's encoding. *)
Lemma signal_read (s : Sim F) (st : QCState F) (vals : list F) (k : nat) :
  Z.of_nat k < 2 ^ 31 ->
  (if numberFormat s =? 0
   then intensity_float st = vals
   else map of_Z (intensity_int st) = vals) ->
  (if numberFormat s =? 0
   then bind (gets intensity_float) (fun v => vector_at v (to_int (Z.of_nat k)))
   else bind (gets intensity_int) (fun v =>
          bind (vector_at v (to_int (Z.of_nat k))) (fun x => ret (of_Z x)))) st =
  match vals !! k with
  | Some x => (Ok x, st)
  | None => (Throw OutOfRange, st)
  end.
Proof.
  intros Hk Hvec. rewrite to_int_small by lia.
  destruct (numberFormat s =? 0).
  - unfold bind, gets. rewrite Hvec.
    destruct (vals !! k) as [x|] eqn:Hx.
    + rewrite (vector_at_ok _ _ _ _ Hx). reflexivity.
    + rewrite vector_at_past_end by (apply lookup_ge_None; exact Hx). reflexivity.
  - unfold bind at 1, gets. subst vals. rewrite list_lookup_fmap.
    destruct (intensity_int st !! k) as [y|] eqn:Hy; simpl.
    + erewrite bind_ok by (apply vector_at_ok; exact Hy). reflexivity.
    + apply bind_throw. apply vector_at_past_end. apply lookup_ge_None. exact Hy.
Qed.

Lemma magnitude_loops_short (s : Sim F) (st : QCState F) (vals magnitudes : list F) :
  Z.of_nat (numProbes s * numChannels s) < 2 ^ 31 ->
  (length vals < numProbes s * numChannels s)%nat ->
  (if numberFormat s =? 0
   then intensity_float st = vals
   else map of_Z (intensity_int st) = vals) ->
  magnitude_loops s magnitudes st = (Throw OutOfRange, st).
Proof.
  intros Hi Hv Hvec. unfold magnitude_loops.
  set (P := numProbes s) in *. set (C := numChannels s) in *.
  assert (HC : (0 < C)%nat) by (destruct C; lia).
  set (i0 := (length vals / C)%nat). set (j0 := (length vals mod C)%nat).
  assert (HL : length vals = (i0 * C + j0)%nat)
    by (unfold i0, j0; rewrite (Nat.div_mod_eq (length vals) C) at 1; lia).
  assert (Hj0 : (j0 < C)%nat) by (apply Nat.mod_upper_bound; lia).
  assert (Hi0 : (i0 < P)%nat) by (apply Nat.Div0.div_lt_upper_bound; lia).
  assert (Hread : forall i j, (i * C + j < P * C)%nat ->
            (if numberFormat s =? 0
             then bind (gets intensity_float) (fun v =>
                    vector_at v (to_int (Z.of_nat i * Z.of_nat C + Z.of_nat j)))
             else bind (gets intensity_int) (fun v =>
                    bind (vector_at v (to_int (Z.of_nat i * Z.of_nat C + Z.of_nat j)))
                         (fun x => ret (of_Z x)))) st =
            match vals !! (i * C + j)%nat with
            | Some x => (Ok x, st)
            | None => (Throw OutOfRange, st)
            end).
  { intros i j Hij.
    replace (Z.of_nat i * Z.of_nat C + Z.of_nat j) with (Z.of_nat (i * C + j)) by lia.
    apply signal_read; [lia | exact Hvec]. }
  assert (Hinner : forall i k, (i * C + k <= length vals)%nat -> (k <= C)%nat ->
            (i < P)%nat ->
            exists total,
              forM k 0 (fun j total =>
                let index := to_int (Z.of_nat i * Z.of_nat C + Z.of_nat j) in
                bind (if numberFormat s =? 0
                      then bind (gets intensity_float) (fun v => vector_at v index)
                      else bind (gets intensity_int) (fun v =>
                             bind (vector_at v index) (fun x => ret (of_Z x))))
                     (fun signal => ret (fadd total (fmul signal signal)))) fzero st =
              (Ok total, st)).
  { intros i k Hk HkC HiP.
    destruct (forM_inv (fun _ (_ : F) st' => st' = st) k 0
      (fun j total =>
         let index := to_int (Z.of_nat i * Z.of_nat C + Z.of_nat j) in
         bind (if numberFormat s =? 0
               then bind (gets intensity_float) (fun v => vector_at v index)
               else bind (gets intensity_int) (fun v =>
                      bind (vector_at v index) (fun x => ret (of_Z x))))
              (fun signal => ret (fadd total (fmul signal signal)))) fzero st eq_refl)
      as (total & st' & Hrun & ->).
    - intros j total st' Hj ->. cbv zeta.
      destruct (lookup_lt_is_Some_2 vals (i * C + j) ltac:(lia)) as [x Hx].
      erewrite bind_ok by (rewrite Hread by nia; rewrite Hx; reflexivity).
      eexists; eexists. split; reflexivity.
    - exists total. exact Hrun. }
  destruct (forM_inv (fun _ (_ : list F) st' => st' = st) i0 0
    (fun i magnitudes =>
       bind (forM C 0 (fun j total =>
               let index := to_int (Z.of_nat i * Z.of_nat C + Z.of_nat j) in
               bind (if numberFormat s =? 0
                     then bind (gets intensity_float) (fun v => vector_at v index)
                     else bind (gets intensity_int) (fun v =>
                            bind (vector_at v index) (fun x => ret (of_Z x))))
                    (fun signal => ret (fadd total (fmul signal signal)))) fzero)
            (fun total => ret (<[i := fsqrt total]> magnitudes))) magnitudes st eq_refl)
    as (mags & st' & Hpre & ->).
  - intros i acc st' Hir ->.
    destruct (Hinner i C) as (total & Htot); [nia | lia | lia |].
    erewrite bind_ok by exact Htot. eexists; eexists. split; reflexivity.
  - apply (forM_throw _ _ _ _ _ i0 _ _ _ _ Hi0 Hpre). cbn [Nat.add].
    apply bind_throw.
    destruct (Hinner i0 j0) as (total & Htot); [lia | lia | exact Hi0 |].
    apply (forM_throw _ _ _ _ _ j0 _ _ _ _ Hj0 Htot). cbn [Nat.add]. cbv zeta.
    apply bind_throw. rewrite Hread by nia.
    rewrite (lookup_ge_None_2 vals (i0 * C + j0)) by lia. reflexivity.
Qed.

(** X12.  [getNextMagnitudes] reads every signal with [vector::at].  When
    the record it has read holds fewer values than the header's probes
    times channels, the first index past the end raises std::out_of_range,
    which nothing catches: nothing is read from beyond the vector and no
    magnitudes are returned. *)
Theorem X12_short_record_is_out_of_range (st : QCState F) (magnitudes : list F)
    (name : string) (vals : list F) :
  let s := qcsim st in
  (position s < numSamples s)%nat ->
  signal_view (simData s) !! position s = Some (name, vals) ->
  (String.length name <= sampleNameSize s)%nat ->
  (length vals < numProbes s * numChannels s)%nat ->
  Z.of_nat (numProbes s * numChannels s) < 2 ^ 31 ->
  getNextMagnitudes magnitudes st = (Throw OutOfRange, after_read st).
Proof.
  intros s Hp Hr Hn Hlen Hidx.
  destruct (read_into_vectors_ok st name vals Hp Hr) as [Hread Hvec].
  rewrite getNextMagnitudes_unfold. fold s.
  erewrite bind_ok by exact Hread.
  apply bind_throw. apply (magnitude_loops_short s _ vals); assumption.
Qed.

(** X14.  [getNextMagnitudes] writes every cell of the array it is given
    and reads none: what it returns does not depend on what the array
    held, so the array that the passes hand on from one sample to the next
    carries nothing over. *)
Theorem X14_magnitudes_array_is_overwritten (st : QCState F) (m1 m2 : list F) :
  let s := qcsim st in
  layout_ok s ->
  (position s < numSamples s)%nat ->
  name_fits s (position s) ->
  length m1 = numProbes s ->
  length m2 = numProbes s ->
  getNextMagnitudes m1 st = getNextMagnitudes m2 st /\
  exists magnitudes name st',
    getNextMagnitudes m1 st = (Ok (magnitudes, name), st') /\
    length magnitudes = numProbes s.
Proof.
  intros s Hlay Hp Hfit H1 H2.
  destruct (getNextMagnitudes_ok st m1 Hlay Hp H1) as (name & vals & Hr & Hg1).
  destruct (getNextMagnitudes_ok st m2 Hlay Hp H2) as (name' & vals' & Hr' & Hg2).
  fold s in Hr, Hr'. rewrite Hr in Hr'. injection Hr' as <- <-.
  split; [rewrite Hg1, Hg2; reflexivity|].
  eexists; eexists; eexists. split; [exact Hg1|]. apply magnitudes_of_length.
Qed.

End Bounds.

Section Bounds_example.
Import Binary32 Examples.

Lemma X12_witness :
  getNextMagnitudes (calloc 2) (fresh short_record) =
  (Throw OutOfRange, after_read (fresh short_record)).
Proof.
  apply (X12_short_record_is_out_of_range (fresh short_record) (calloc 2)
           "S1"%string (map of_int [3; 4; 5])).
  - simpl. lia.
  - reflexivity.
  - simpl. lia.
  - simpl. lia.
  - simpl. lia.
Defined.

Lemma X14_witness :
  getNextMagnitudes [of_int 7; of_int 9] (fresh scenario) =
  getNextMagnitudes (calloc 2) (fresh scenario).
Proof.
  apply (X14_magnitudes_array_is_overwritten (fresh scenario) [of_int 7; of_int 9] (calloc 2)
           (wf_layout _ _ scenario_well_formed)).
  - simpl. lia.
  - apply (wf_names _ _ scenario_well_formed).
  - reflexivity.
  - reflexivity.
Defined.

End Bounds_example.
